(** * Cabo card game: the authoritative game server (server.js)

    A shallow embedding of the WebSocket server of the Cabo card game:
    the card and scoring helpers ([createDeck], [calculateScore],
    [nextTurn]), the per-room game object, the registry of games and
    connected clients, and the handler of each inbound message type.
    Of the client (CaboCardGame.tsx) it embeds the card helpers, the
    state update of [handleServerMessage], the ranking of the game-over
    screen, and the mock server of the earlier version of the client.

    Conventions of the embedding.
    - JavaScript arrays are lists in index order: [push] appends at the
      end and [pop] removes the last element, returning [undefined]
      (here [None]) on an empty array.
    - A hand ([player.cards]) is written by index, so it is a list of
      [Slot]s: a write beyond the end extends the array and leaves
      holes, which [forEach] skips, while an explicit [undefined] is an
      element of its own.
    - [null] and [undefined] are both [None] where the code only tests
      truthiness ([drawnCard], [currentPlayerId], [caboCallerId]).
    - A handler body runs inside [try { ... } catch]: a [TypeError]
      keeps the mutations made before it and sends nothing.
    - [Math.random] is an oracle handed to the handler. *)

From Stdlib Require Import ZArith Lia Ascii String Sorted.
From stdpp Require Import base option list gmap strings pretty.

Open Scope string_scope.
Open Scope list_scope.

(** ** Cards *)

Inductive Suit := Spades | Hearts | Diamonds | Clubs.

Inductive Value :=
| VA | V2 | V3 | V4 | V5 | V6 | V7 | V8 | V9 | V10 | VJ | VQ | VK.

Record Card := mkCard { suit : Suit; value : Value }.

#[global] Instance Suit_eq_dec : EqDecision Suit.
Proof. solve_decision. Defined.
#[global] Instance Value_eq_dec : EqDecision Value.
Proof. solve_decision. Defined.
#[global] Instance Card_eq_dec : EqDecision Card.
Proof. solve_decision. Defined.

(** The text of a card value, as [createDeck] writes it. *)
Definition value_text (v : Value) : string :=
  match v with
  | VA => "A" | V2 => "2" | V3 => "3" | V4 => "4" | V5 => "5"
  | V6 => "6" | V7 => "7" | V8 => "8" | V9 => "9" | V10 => "10"
  | VJ => "J" | VQ => "Q" | VK => "K"
  end.

Definition digit_of (a : ascii) : option Z :=
  let n := Z.of_nat (nat_of_ascii a) in
  if bool_decide (48 <= n <= 57)%Z then Some (n - 48)%Z else None.

(** The leading decimal digits of [s], most significant first. *)
Fixpoint leading_digits (s : string) : list Z :=
  match s with
  | EmptyString => []
  | String a rest =>
      match digit_of a with
      | Some d => d :: leading_digits rest
      | None => []
      end
  end.

(** [parseInt(s)] on an unsigned decimal text; [None] is [NaN]. *)
Definition parseInt (s : string) : option Z :=
  match leading_digits s with
  | [] => None
  | ds => Some (fold_left (fun acc d => (10 * acc + d)%Z) ds 0%Z)
  end.

(** ** Arrays *)

(** [arr.pop()]. *)
Definition pop {A} (arr : list A) : option A * list A :=
  (last arr, removelast arr).

(** [arr.push(x)]. *)
Definition push {A} (arr : list A) (x : A) : list A := arr ++ [x].

(** A slot of an array written by index. *)
Inductive Slot :=
| Hole
| Elem (v : option Card).

#[global] Instance Slot_eq_dec : EqDecision Slot.
Proof. solve_decision. Defined.

(** [cards[i]] as a value: a hole, an index past the end and an explicit
    [undefined] all read as [undefined]. *)
Definition array_get (cards : list Slot) (i : nat) : option Card :=
  match cards !! i with
  | Some (Elem v) => v
  | _ => None
  end.

(** [cards[i] = v] for an array index [i], an integer below [2^32 - 1]:
    inside the array the slot is overwritten; at or past the end the
    array grows to length [i + 1], with holes in between.  A larger
    number is no array index in JavaScript: writing at it adds a
    property and leaves the length, [forEach] and the JSON text of the
    array as they were, which this list model does not follow. *)
Definition array_set (cards : list Slot) (i : nat) (v : option Card)
  : list Slot :=
  if bool_decide (i < length cards) then <[i := Elem v]> cards
  else cards ++ replicate (i - length cards) Hole ++ [Elem v].

(** ** Deck and scoring *)

Definition suits : list Suit := [Spades; Hearts; Diamonds; Clubs].
Definition values : list Value :=
  [VA; V2; V3; V4; V5; V6; V7; V8; V9; V10; VJ; VQ; VK].

(** The two nested [forEach] loops of [createDeck], before the shuffle. *)
Definition orderedDeck : list Card :=
  flat_map (fun s => map (fun v => mkCard s v) values) suits.

(** [[deck[i], deck[j]] = [deck[j], deck[i]]]. *)
Definition swap (deck : list Card) (i j : nat) : list Card :=
  match deck !! i, deck !! j with
  | Some a, Some b => <[j := a]> (<[i := b]> deck)
  | _, _ => deck
  end.

(** The shuffle loop [for (i = deck.length - 1; i > 0; i--)].  The
    oracle [rnd i] stands for the draw of [Math.random()] at iteration
    [i]; [Math.floor(Math.random() * (i + 1))] is an integer of
    [0 .. i], obtained here by reducing the draw modulo [i + 1]. *)
Fixpoint shuffle (rnd : nat -> nat) (i : nat) (deck : list Card)
  : list Card :=
  match i with
  | 0 => deck
  | S i' => shuffle rnd i' (swap deck i (rnd i mod (i + 1)))
  end.

Definition createDeck (rnd : nat -> nat) : list Card :=
  shuffle rnd (length orderedDeck - 1) orderedDeck.

(** One iteration of the [forEach] body of [calculateScore]: the amount
    added to [total].  The [default] branch is only reached by the
    numerals, on which [parseInt] is a number. *)
Definition cardScore (card : Card) : Z :=
  match value card with
  | VA => 1
  | VJ => 11
  | VQ => 12
  | VK => if bool_decide (suit card = Hearts \/ suit card = Diamonds)
          then -1 else 13
  | v => default 0%Z (parseInt (value_text v))
  end.

(** [calculateScore(cards)].  [forEach] skips holes; reading [.value] of
    an explicit [undefined] element raises a [TypeError] ([None]). *)
Fixpoint calculateScore_from (total : Z) (cards : list Slot) : option Z :=
  match cards with
  | [] => Some total
  | Hole :: rest => calculateScore_from total rest
  | Elem None :: _ => None
  | Elem (Some card) :: rest =>
      calculateScore_from (total + cardScore card) rest
  end.

Definition calculateScore (cards : list Slot) : option Z :=
  calculateScore_from 0 cards.

(** ** The game object *)

Inductive GameState := lobby | playing | finished.

#[global] Instance GameState_eq_dec : EqDecision GameState.
Proof. solve_decision. Defined.

Record Player := mkPlayer {
  id : string;
  name : string;
  isHost : bool;
  cards : list Slot;
  score : Z;
  canSeeCorners : bool
}.

Record Game := mkGame {
  code : string;
  host : string;
  players : list Player;
  state : GameState;
  currentTurn : nat;
  deck : list Card;
  discardPile : list (option Card);
  round : nat;
  drawnCard : option Card;
  currentPlayerId : option string;
  caboCallerId : option string;
  turnsAfterCabo : nat
}.

(** Field assignments. *)
Definition set_cards (cs : list Slot) (p : Player) : Player :=
  mkPlayer (id p) (name p) (isHost p) cs (score p) (canSeeCorners p).
Definition set_score (s : Z) (p : Player) : Player :=
  mkPlayer (id p) (name p) (isHost p) (cards p) s (canSeeCorners p).
Definition set_canSeeCorners (b : bool) (p : Player) : Player :=
  mkPlayer (id p) (name p) (isHost p) (cards p) (score p) b.
Definition set_isHost (b : bool) (p : Player) : Player :=
  mkPlayer (id p) (name p) b (cards p) (score p) (canSeeCorners p).

Definition set_host (h : string) (g : Game) : Game :=
  mkGame (code g) h (players g) (state g) (currentTurn g) (deck g)
    (discardPile g) (round g) (drawnCard g) (currentPlayerId g)
    (caboCallerId g) (turnsAfterCabo g).
Definition set_players (ps : list Player) (g : Game) : Game :=
  mkGame (code g) (host g) ps (state g) (currentTurn g) (deck g)
    (discardPile g) (round g) (drawnCard g) (currentPlayerId g)
    (caboCallerId g) (turnsAfterCabo g).
Definition set_state (s : GameState) (g : Game) : Game :=
  mkGame (code g) (host g) (players g) s (currentTurn g) (deck g)
    (discardPile g) (round g) (drawnCard g) (currentPlayerId g)
    (caboCallerId g) (turnsAfterCabo g).
Definition set_currentTurn (t : nat) (g : Game) : Game :=
  mkGame (code g) (host g) (players g) (state g) t (deck g)
    (discardPile g) (round g) (drawnCard g) (currentPlayerId g)
    (caboCallerId g) (turnsAfterCabo g).
Definition set_deck (d : list Card) (g : Game) : Game :=
  mkGame (code g) (host g) (players g) (state g) (currentTurn g) d
    (discardPile g) (round g) (drawnCard g) (currentPlayerId g)
    (caboCallerId g) (turnsAfterCabo g).
Definition set_discardPile (d : list (option Card)) (g : Game) : Game :=
  mkGame (code g) (host g) (players g) (state g) (currentTurn g) (deck g)
    d (round g) (drawnCard g) (currentPlayerId g)
    (caboCallerId g) (turnsAfterCabo g).
Definition set_drawnCard (c : option Card) (g : Game) : Game :=
  mkGame (code g) (host g) (players g) (state g) (currentTurn g) (deck g)
    (discardPile g) (round g) c (currentPlayerId g)
    (caboCallerId g) (turnsAfterCabo g).
Definition set_currentPlayerId (p : option string) (g : Game) : Game :=
  mkGame (code g) (host g) (players g) (state g) (currentTurn g) (deck g)
    (discardPile g) (round g) (drawnCard g) p
    (caboCallerId g) (turnsAfterCabo g).
Definition set_caboCallerId (p : option string) (g : Game) : Game :=
  mkGame (code g) (host g) (players g) (state g) (currentTurn g) (deck g)
    (discardPile g) (round g) (drawnCard g) (currentPlayerId g)
    p (turnsAfterCabo g).
Definition set_turnsAfterCabo (n : nat) (g : Game) : Game :=
  mkGame (code g) (host g) (players g) (state g) (currentTurn g) (deck g)
    (discardPile g) (round g) (drawnCard g) (currentPlayerId g)
    (caboCallerId g) n.

(** Truthiness of an id field: [null] and the empty string are falsy. *)
Definition truthy (x : option string) : bool :=
  match x with
  | Some s => negb (bool_decide (s = ""))
  | None => false
  end.

(** [game.players.find(p => p.id === playerId)]: the first match, with
    its position, which stands for the identity of the player object. *)
Definition find_player (ps : list Player) (playerId : string)
  : option (nat * Player) :=
  list_find (fun p => id p = playerId) ps.

(** ** Messages *)

Inductive ServerMsg :=
| GAME_CREATED (gameCode : string) (game : Game)
| GAME_JOINED (game : Game)
| GAME_STARTED (game : Game)
| CARD_DRAWN (game : Game) (card : option Card) (playerId : string)
| CARD_REPLACED (game : Game)
| CARD_DISCARDED (game : Game)
| CABO_CALLED (game : Game) (callerName : string)
| CARD_PEEKED (card : option Card) (cardIndex : nat)
| OPPONENT_CARD_PEEKED (card : option Card) (cardIndex : nat)
    (opponentId : string)
| CARDS_SWITCHED (game : Game)
| PLAYER_LEFT (game : Game)
| GAME_LEFT
| ERROR (message : string).

(** Inbound messages, by their [type], with the fields the handler
    reads ([LEAVE_GAME] is handled from the connection's entry in
    [clients] alone); [Close] is the socket's [close] event and
    [Unknown] a message of any other type, which the [switch] ignores.
    Slot indices are array indices. *)
Inductive Request :=
| CREATE_GAME (playerName playerId : string)
| JOIN_GAME (playerName playerId gameCode : string)
| START_GAME (gameCode : string)
| DRAW_CARD (gameCode playerId : string)
| TAKE_DISCARD (gameCode playerId : string)
| REPLACE_CARD (gameCode playerId : string) (cardIndex : nat)
| DISCARD_DRAWN (gameCode playerId : string)
| CALL_CABO (gameCode playerId : string)
| PEEK_OWN_CARD (gameCode playerId : string) (cardIndex : nat)
| PEEK_OPPONENT_CARD (gameCode playerId opponentId : string)
    (cardIndex : nat)
| SWITCH_CARDS (gameCode playerId opponentId : string)
    (playerCardIndex opponentCardIndex : nat)
| LEAVE_GAME
| Close
| Unknown.

(** What a handler body does with the sockets once the game object has
    been looked up. *)
Inductive Outcome :=
| Reply (m : ServerMsg)      (* ws.send(m) *)
| Broadcast (m : ServerMsg)  (* broadcast(gameCode, m); ws.send(m) *)
| ReplyAndOthers (m : ServerMsg)
                             (* ws.send(m); broadcast(gameCode, m, ws) *)
| Thrown                     (* TypeError, caught and logged *)
| Silent.                    (* break *)

(** ** Handler bodies on the game object *)

Definition newPlayer (playerId playerName : string) (h : bool) : Player :=
  mkPlayer playerId playerName h [] 0 false.

(** The object literal of [CREATE_GAME]. *)
Definition newGame (c playerId playerName : string) : Game :=
  mkGame c playerId [newPlayer playerId playerName true] lobby 0 [] []
    1 None None None 0.

(** [JOIN_GAME], once the game is found. *)
Definition join_game (playerName playerId : string) (g : Game)
  : Game * Outcome :=
  if bool_decide (8 <= length (players g)) then
    (g, Reply (ERROR "Game is full"))
  else if existsb (fun p => bool_decide (name p = playerName)) (players g)
  then (g, Reply (ERROR "Player name already taken"))
  else
    let g' := set_players
                (push (players g) (newPlayer playerId playerName false)) g in
    (g', ReplyAndOthers (GAME_JOINED g')).

(** The four [game.deck.pop()] of one player's deal. *)
Definition deal (d : list Card) : list Slot * list Card :=
  let '(c1, d1) := pop d in
  let '(c2, d2) := pop d1 in
  let '(c3, d3) := pop d2 in
  let '(c4, d4) := pop d3 in
  ([Elem c1; Elem c2; Elem c3; Elem c4], d4).

(** [game.players.forEach(player => { ... })] of [START_GAME]. *)
Fixpoint deal_all (ps : list Player) (d : list Card)
  : list Player * list Card :=
  match ps with
  | [] => ([], d)
  | player :: rest =>
      let '(hand, d1) := deal d in
      let player' :=
        set_canSeeCorners true (set_score 0 (set_cards hand player)) in
      let '(rest', d2) := deal_all rest d1 in
      (player' :: rest', d2)
  end.

(** [START_GAME], once the game is found. *)
Definition start_game (rnd : nat -> nat) (g : Game) : Game * Outcome :=
  if bool_decide (length (players g) < 2) then
    (g, Reply (ERROR "Need at least 2 players"))
  else
    let '(top, d1) := pop (createDeck rnd) in
    let first := id <$> players g !! 0 in
    let '(ps, d2) := deal_all (players g) d1 in
    let g' :=
      set_players ps
        (set_currentPlayerId first
           (set_discardPile [top]
              (set_deck d2 (set_state playing g)))) in
    (g', Broadcast (GAME_STARTED g')).

(** [DRAW_CARD], once the game is found. *)
Definition draw_card (playerId : string) (g : Game) : Game * Outcome :=
  if negb (bool_decide (currentPlayerId g = Some playerId)) then
    (g, Reply (ERROR "Not your turn"))
  else if bool_decide (is_Some (drawnCard g)) then
    (g, Reply (ERROR "Already drew a card this turn"))
  else
    let '(card, d) := pop (deck g) in
    let g' := set_drawnCard card (set_deck d g) in
    (g', Broadcast (CARD_DRAWN g' card playerId)).

(** [TAKE_DISCARD], once the game is found. *)
Definition take_discard (playerId : string) (g : Game) : Game * Outcome :=
  if negb (bool_decide (currentPlayerId g = Some playerId)) then
    (g, Reply (ERROR "Not your turn"))
  else if bool_decide (is_Some (drawnCard g)) then
    (g, Reply (ERROR "Already drew a card this turn"))
  else
    let '(card, d) := pop (discardPile g) in
    let g' := set_drawnCard (mjoin card) (set_discardPile d g) in
    (g', Broadcast (CARD_DRAWN g' (mjoin card) playerId)).

(** [nextTurn(game)].  On an empty player list JavaScript yields [NaN];
    the caller then raises on [players[NaN].id], as it does here on the
    failed lookup. *)
Definition nextTurn (g : Game) : Game :=
  set_currentTurn ((currentTurn g + 1) mod length (players g)) g.

(** [game.players.forEach(p => { p.score = calculateScore(p.cards) })]:
    the players before the one whose hand raises keep their new score;
    the flag is [false] when a hand raised. *)
Fixpoint score_all (ps : list Player) : list Player * bool :=
  match ps with
  | [] => ([], true)
  | p :: rest =>
      match calculateScore (cards p) with
      | None => (p :: rest, false)
      | Some s =>
          let '(rest', ok) := score_all rest in
          (set_score s p :: rest', ok)
      end
  end.

(** [if (game.state === 'playing') { nextTurn(game); ... }] and the
    response that follows. *)
Definition advance (mk : Game -> ServerMsg) (g : Game) : Game * Outcome :=
  if bool_decide (state g = playing) then
    let g1 := nextTurn g in
    match players g1 !! currentTurn g1 with
    | Some p =>
        let g2 := set_currentPlayerId (Some (id p)) g1 in
        (g2, Broadcast (mk g2))
    | None => (g1, Thrown)
    end
  else (g, Broadcast (mk g)).

(** The tail shared by [REPLACE_CARD] and [DISCARD_DRAWN]: the Cabo
    countdown, the end of the round, the turn advance. *)
Definition end_of_turn (mk : Game -> ServerMsg) (g : Game)
  : Game * Outcome :=
  if truthy (caboCallerId g) then
    let g1 := set_turnsAfterCabo (turnsAfterCabo g + 1) g in
    if bool_decide (length (players g1) <= turnsAfterCabo g1) then
      match score_all (players g1) with
      | (ps, true) => advance mk (set_state finished (set_players ps g1))
      | (ps, false) => (set_players ps g1, Thrown)
      end
    else advance mk g1
  else advance mk g.

(** [REPLACE_CARD], once the game is found. *)
Definition replace_card (playerId : string) (cardIndex : nat) (g : Game)
  : Game * Outcome :=
  if negb (bool_decide (currentPlayerId g = Some playerId))
     || negb (bool_decide (is_Some (drawnCard g))) then
    (g, Reply (ERROR "Invalid action"))
  else
    match find_player (players g) playerId with
    | None => (g, Thrown)
    | Some (k, player) =>
        let oldCard := array_get (cards player) cardIndex in
        let ps :=
          alter (fun p => set_cards
                            (array_set (cards p) cardIndex (drawnCard g)) p)
            k (players g) in
        end_of_turn CARD_REPLACED
          (set_drawnCard None
             (set_discardPile (push (discardPile g) oldCard)
                (set_players ps g)))
    end.

(** [DISCARD_DRAWN], once the game is found. *)
Definition discard_drawn (playerId : string) (g : Game) : Game * Outcome :=
  if negb (bool_decide (currentPlayerId g = Some playerId))
     || negb (bool_decide (is_Some (drawnCard g))) then
    (g, Reply (ERROR "Invalid action"))
  else
    end_of_turn CARD_DISCARDED
      (set_drawnCard None
         (set_discardPile (push (discardPile g) (drawnCard g)) g)).

(** [CALL_CABO], once the game is found. *)
Definition call_cabo (playerId : string) (g : Game) : Game * Outcome :=
  if negb (bool_decide (currentPlayerId g = Some playerId)) then
    (g, Reply (ERROR "Not your turn"))
  else if truthy (caboCallerId g) then
    (g, Reply (ERROR "Cabo already called"))
  else
    let g' := set_turnsAfterCabo 0 (set_caboCallerId (Some playerId) g) in
    match find_player (players g') playerId with
    | Some (_, p) => (g', Broadcast (CABO_CALLED g' (name p)))
    | None => (g', Thrown)
    end.

(** [PEEK_OWN_CARD] and [PEEK_OPPONENT_CARD], once the game is found. *)
Definition peek_own_card (playerId : string) (cardIndex : nat) (g : Game)
  : Game * Outcome :=
  match find_player (players g) playerId with
  | Some (_, player) =>
      (g, Reply (CARD_PEEKED (array_get (cards player) cardIndex) cardIndex))
  | None => (g, Thrown)
  end.

Definition peek_opponent_card (opponentId : string) (cardIndex : nat)
  (g : Game) : Game * Outcome :=
  match find_player (players g) opponentId with
  | Some (_, opponent) =>
      (g, Reply (OPPONENT_CARD_PEEKED
                   (array_get (cards opponent) cardIndex) cardIndex
                   opponentId))
  | None => (g, Thrown)
  end.

(** [SWITCH_CARDS], once the game is found.  The two writes are applied
    in order on the player objects, so that [player] and [opponent] may
    be one object. *)
Definition switch_cards (playerId opponentId : string)
  (playerCardIndex opponentCardIndex : nat) (g : Game) : Game * Outcome :=
  match find_player (players g) playerId,
        find_player (players g) opponentId with
  | Some (kp, player), Some (ko, opponent) =>
      let temp := array_get (cards player) playerCardIndex in
      let ps1 :=
        alter (fun p => set_cards
                 (array_set (cards p) playerCardIndex
                    (array_get (cards opponent) opponentCardIndex)) p)
          kp (players g) in
      let ps2 :=
        alter (fun p => set_cards
                 (array_set (cards p) opponentCardIndex temp) p)
          ko ps1 in
      let g' := set_players ps2 g in
      (g', Broadcast (CARDS_SWITCHED g'))
  | _, _ => (g, Thrown)
  end.

(** ** The server: registry of games and connected clients *)

(** A WebSocket connection, by identity. *)
Definition Conn := nat.

Record ClientInfo := mkClientInfo {
  client_playerId : string;
  client_gameCode : string
}.

(** [games] is only read and written by key; [clients] is iterated by
    [broadcast], so it keeps the insertion order of the [Map]. *)
Record Server := mkServer {
  games : gmap string Game;
  clients : list (Conn * ClientInfo)
}.

Definition emptyServer : Server := mkServer ∅ [].

(** The draws of [Math.random] of one handler run: the room code of
    [CREATE_GAME] and the shuffle draws of [createDeck]. *)
Record Random := mkRandom {
  randomCode : string;
  randomIndex : nat -> nat
}.

Fixpoint clients_get (cl : list (Conn * ClientInfo)) (ws : Conn)
  : option ClientInfo :=
  match cl with
  | [] => None
  | (c, info) :: rest =>
      if bool_decide (c = ws) then Some info else clients_get rest ws
  end.

(** [clients.set(ws, info)]: an existing key keeps its position. *)
Fixpoint clients_set (cl : list (Conn * ClientInfo)) (ws : Conn)
  (info : ClientInfo) : list (Conn * ClientInfo) :=
  match cl with
  | [] => [(ws, info)]
  | (c, i) :: rest =>
      if bool_decide (c = ws) then (c, info) :: rest
      else (c, i) :: clients_set rest ws info
  end.

Definition clients_delete (cl : list (Conn * ClientInfo)) (ws : Conn)
  : list (Conn * ClientInfo) :=
  filter (fun ci => ci.1 <> ws) cl.

(** [broadcast(gameCode, message, excludeClient)].  Every registered
    connection is taken to be [OPEN]; a connection that is not is
    passed as [excludeClient]. *)
Definition broadcast (cl : list (Conn * ClientInfo)) (gameCode : string)
  (m : ServerMsg) (excludeClient : option Conn) : list (Conn * ServerMsg) :=
  omap (fun ci : Conn * ClientInfo =>
          if bool_decide (client_gameCode ci.2 = gameCode)
             && negb (bool_decide (excludeClient = Some ci.1))
          then Some (ci.1, m) else None) cl.

Definition emit (cl : list (Conn * ClientInfo)) (ws : Conn)
  (gameCode : string) (o : Outcome) : list (Conn * ServerMsg) :=
  match o with
  | Reply m => [(ws, m)]
  | Broadcast m => broadcast cl gameCode m None ++ [(ws, m)]
  | ReplyAndOthers m => (ws, m) :: broadcast cl gameCode m (Some ws)
  | Thrown | Silent => []
  end.

(** [const game = games.get(message.gameCode); if (!game) ...], then the
    handler body on the game object, whose mutations are those of the
    object held by [games]. *)
Definition with_game (S : Server) (ws : Conn) (gameCode : string)
  (missing : list (Conn * ServerMsg)) (body : Game -> Game * Outcome)
  : Server * list (Conn * ServerMsg) :=
  match games S !! gameCode with
  | None => (S, missing)
  | Some game =>
      let '(game', o) := body game in
      (mkServer (<[gameCode := game']> (games S)) (clients S),
       emit (clients S) ws gameCode o)
  end.

(** The host handoff of [LEAVE_GAME] and of the [close] event. *)
Definition promote (g : Game) : Game :=
  match players g with
  | [] => g
  | p :: rest => set_players (set_isHost true p :: rest) (set_host (id p) g)
  end.

(** The body shared by [LEAVE_GAME] and the [close] event, up to
    [clients.delete(ws)]. *)
Definition leave (S : Server) (ws : Conn) (excludeClient : option Conn)
  : Server * list (Conn * ServerMsg) :=
  match clients_get (clients S) ws with
  | None => (S, [])
  | Some info =>
      let gameCode := client_gameCode info in
      let '(gs, out) :=
        match games S !! gameCode with
        | None => (games S, [])
        | Some game =>
            let ps := filter (fun p => id p <> client_playerId info)
                        (players game) in
            let game1 := set_players ps game in
            if bool_decide (length ps = 0) then
              (delete gameCode (games S), [])
            else
              let game2 :=
                if bool_decide (host game1 = client_playerId info)
                then promote game1 else game1 in
              (<[gameCode := game2]> (games S),
               broadcast (clients S) gameCode (PLAYER_LEFT game2)
                 excludeClient)
        end in
      (mkServer gs (clients_delete (clients S) ws), out)
  end.

(** [ws.on('message', ...)] and [ws.on('close', ...)]. *)
Definition handle (r : Random) (ws : Conn) (m : Request) (S : Server)
  : Server * list (Conn * ServerMsg) :=
  match m with
  | CREATE_GAME playerName playerId =>
      let c := randomCode r in
      let game := newGame c playerId playerName in
      (mkServer (<[c := game]> (games S))
         (clients_set (clients S) ws (mkClientInfo playerId c)),
       [(ws, GAME_CREATED c game)])
  | JOIN_GAME playerName playerId gameCode =>
      match games S !! gameCode with
      | None => (S, [(ws, ERROR "Game not found")])
      | Some game =>
          match join_game playerName playerId game with
          | (game', ReplyAndOthers response) =>
              let cl := clients_set (clients S) ws
                          (mkClientInfo playerId gameCode) in
              (mkServer (<[gameCode := game']> (games S)) cl,
               emit cl ws gameCode (ReplyAndOthers response))
          | (_, o) => (S, emit (clients S) ws gameCode o)
          end
      end
  | START_GAME gameCode =>
      with_game S ws gameCode [(ws, ERROR "Need at least 2 players")]
        (start_game (randomIndex r))
  | DRAW_CARD gameCode playerId =>
      with_game S ws gameCode [(ws, ERROR "Not your turn")]
        (draw_card playerId)
  | TAKE_DISCARD gameCode playerId =>
      with_game S ws gameCode [(ws, ERROR "Not your turn")]
        (take_discard playerId)
  | REPLACE_CARD gameCode playerId cardIndex =>
      with_game S ws gameCode [(ws, ERROR "Invalid action")]
        (replace_card playerId cardIndex)
  | DISCARD_DRAWN gameCode playerId =>
      with_game S ws gameCode [(ws, ERROR "Invalid action")]
        (discard_drawn playerId)
  | CALL_CABO gameCode playerId =>
      with_game S ws gameCode [(ws, ERROR "Not your turn")]
        (call_cabo playerId)
  | PEEK_OWN_CARD gameCode playerId cardIndex =>
      with_game S ws gameCode [] (peek_own_card playerId cardIndex)
  | PEEK_OPPONENT_CARD gameCode playerId opponentId cardIndex =>
      with_game S ws gameCode [] (peek_opponent_card opponentId cardIndex)
  | SWITCH_CARDS gameCode playerId opponentId i j =>
      with_game S ws gameCode [] (switch_cards playerId opponentId i j)
  | LEAVE_GAME =>
      let '(S', out) := leave S ws None in
      (S', out ++ [(ws, GAME_LEFT)])
  | Close => leave S ws (Some ws)
  | Unknown => (S, [])
  end.

(** A run of the event loop: one event at a time, in order. *)
Definition Event : Type := Random * Conn * Request.

Definition step (S : Server) (e : Event) : Server :=
  (handle e.1.1 e.1.2 e.2 S).1.

Definition run (S : Server) (es : list Event) : Server :=
  fold_left step es S.

(** The states the server can be in. *)
Definition reachable (S : Server) : Prop :=
  exists es, S = run emptyServer es.

(** * Definitions for the properties *)

(** ** The value table of the specification *)

(** The value table as the specification words it: ace 1, numerals at
    face value, jack 11, queen 12, king 13 except a king of a red suit,
    which is worth -1. *)
Definition table_value (c : Card) : Z :=
  match value c with
  | VA => 1
  | V2 => 2 | V3 => 3 | V4 => 4 | V5 => 5 | V6 => 6
  | V7 => 7 | V8 => 8 | V9 => 9 | V10 => 10
  | VJ => 11
  | VQ => 12
  | VK => match suit c with
          | Hearts | Diamonds => -1
          | Spades | Clubs => 13
          end
  end.

Fixpoint table_sum (hand : list Card) : Z :=
  match hand with
  | [] => 0
  | c :: rest => table_value c + table_sum rest
  end.

(** A hand whose slots all hold a card. *)
Definition hand_of (cs : list Card) : list Slot :=
  map (fun c => Elem (Some c)) cs.

(** ** Play on one session *)

(** The handler body that a play request runs on its game object. *)
Definition play (m : Request) (g : Game) : Game * Outcome :=
  match m with
  | DRAW_CARD _ playerId => draw_card playerId g
  | TAKE_DISCARD _ playerId => take_discard playerId g
  | REPLACE_CARD _ playerId cardIndex => replace_card playerId cardIndex g
  | DISCARD_DRAWN _ playerId => discard_drawn playerId g
  | CALL_CABO _ playerId => call_cabo playerId g
  | PEEK_OWN_CARD _ playerId cardIndex => peek_own_card playerId cardIndex g
  | PEEK_OPPONENT_CARD _ _ opponentId cardIndex =>
      peek_opponent_card opponentId cardIndex g
  | SWITCH_CARDS _ playerId opponentId i j =>
      switch_cards playerId opponentId i j g
  | _ => (g, Silent)
  end.

Definition play_all (ms : list Request) (g : Game) : Game :=
  fold_left (fun g m => (play m g).1) ms g.

(** The room a play request is addressed to. *)
Definition play_room (m : Request) : option string :=
  match m with
  | DRAW_CARD c _ | TAKE_DISCARD c _ | REPLACE_CARD c _ _
  | DISCARD_DRAWN c _ | CALL_CABO c _ | PEEK_OWN_CARD c _ _
  | PEEK_OPPONENT_CARD c _ _ _ | SWITCH_CARDS c _ _ _ _ => Some c
  | _ => None
  end.

(** A play request whose slot indices name one of the four hand slots. *)
Definition legal_play (m : Request) : bool :=
  match m with
  | DRAW_CARD _ _ | TAKE_DISCARD _ _ | DISCARD_DRAWN _ _ | CALL_CABO _ _
  | PEEK_OWN_CARD _ _ _ | PEEK_OPPONENT_CARD _ _ _ _ => true
  | REPLACE_CARD _ _ cardIndex => bool_decide (cardIndex < 4)
  | SWITCH_CARDS _ _ _ i j => bool_decide (i < 4) && bool_decide (j < 4)
  | _ => false
  end.

(** A resolve step that went through: the held card was replaced or
    discarded and the room was told so. *)
Definition resolved (m : Request) (g : Game) : bool :=
  match (play m g).2 with
  | Broadcast (CARD_REPLACED _) | Broadcast (CARD_DISCARDED _) => true
  | _ => false
  end.

Fixpoint count_resolved (ms : list Request) (g : Game) : nat :=
  match ms with
  | [] => 0
  | m :: rest =>
      (if resolved m g then 1 else 0) + count_resolved rest (play m g).1
  end.

(** The hands of a session, in player order. *)
Definition hands (g : Game) : list (list Slot) := cards <$> players g.

(** Sizes of the piles of a session. *)
Definition hands_total (g : Game) : nat := sum_list_with length (hands g).

Definition piles_total (g : Game) : nat :=
  length (deck g) + length (discardPile g) + hands_total g.

Definition held (g : Game) : nat :=
  match drawnCard g with Some _ => 1 | None => 0 end.

(** Well-formed table: every hand is four cards and the discard pile
    holds cards only. *)
Definition is_card (s : Slot) : Prop := exists c, s = Elem (Some c).

Definition full_hand (cs : list Slot) : Prop :=
  length cs = 4 /\ Forall is_card cs.

Definition tidy (g : Game) : Prop :=
  Forall full_hand (hands g) /\ Forall is_Some (discardPile g).

(** What the end of a turn never touches. *)
Definition same_table (g g' : Game) : Prop :=
  hands g' = hands g /\ deck g' = deck g /\
  discardPile g' = discardPile g /\ drawnCard g' = drawnCard g /\
  caboCallerId g' = caboCallerId g.

(** ** Replies and slots *)

Definition is_error (m : ServerMsg) : bool :=
  match m with ERROR _ => true | _ => false end.

(** Some socket was sent an ERROR. *)
Definition rejected (out : list (Conn * ServerMsg)) : bool :=
  existsb (fun o => is_error o.2) out.

(** [players[q].cards[k]] as a value. *)
Definition slot (g : Game) (q k : nat) : option Card :=
  array_get (default [] (hands g !! q)) k.

(** A player apart from the hand. *)
Definition seat (p : Player) : string * string * bool * Z * bool :=
  (id p, name p, isHost p, score p, canSeeCorners p).

(** ** Rooms of a running server *)

(** What holds of every room the server can hold: somebody is seated,
    at most 8 players are, and in the lobby nobody is to move and no
    card is held. *)
Definition room_ok (g : Game) : Prop :=
  players g <> [] /\ length (players g) <= 8 /\
  (state g = lobby -> drawnCard g = None /\ currentPlayerId g = None).

Definition registry_ok (S : Server) : Prop :=
  forall c g, games S !! c = Some g -> room_ok g.

(** A legal play request addressed to room [c]. *)
Definition plays_in (c : string) (e : Event) : Prop :=
  play_room e.2 = Some c /\ legal_play e.2 = true.

(** ** Example sessions *)

Definition room : string := "K3X9QZ".

Definition demo_random : Random := mkRandom room (fun i => 7 * i + 3).

(** Ann opens a room and Bob joins it. *)
Definition demo_lobby : list Event :=
  [ (demo_random, 1, CREATE_GAME "ann" "p1");
    (demo_random, 2, JOIN_GAME "bob" "p2" room) ].

Definition demo_started : list Event :=
  demo_lobby ++ [ (demo_random, 1, START_GAME room) ].

(** Ann has drawn and holds the card. *)
Definition demo_held : list Event :=
  demo_started ++ [ (demo_random, 1, DRAW_CARD room "p1") ].

(** Ann calls Cabo, then each player takes one turn. *)
Definition demo_finished : list Event :=
  demo_started ++
  [ (demo_random, 1, CALL_CABO room "p1");
    (demo_random, 1, DRAW_CARD room "p1");
    (demo_random, 1, DISCARD_DRAWN room "p1");
    (demo_random, 2, DRAW_CARD room "p2");
    (demo_random, 2, DISCARD_DRAWN room "p2") ].

(** Six more players fill the room before the start. *)
Definition demo_full : list Event :=
  demo_lobby ++
  [ (demo_random, 3, JOIN_GAME "cat" "p3" room);
    (demo_random, 4, JOIN_GAME "dan" "p4" room);
    (demo_random, 5, JOIN_GAME "eve" "p5" room);
    (demo_random, 6, JOIN_GAME "fay" "p6" room);
    (demo_random, 7, JOIN_GAME "gus" "p7" room);
    (demo_random, 8, JOIN_GAME "hal" "p8" room) ].

(** One turn of drawing and discarding at once. *)
Definition demo_turn (ws : Conn) (playerId : string) : list Event :=
  [ (demo_random, ws, DRAW_CARD room playerId);
    (demo_random, ws, DISCARD_DRAWN room playerId) ].

(** Ann and Bob draw and discard in turn until the 43 cards left in the
    deck after the deal are gone; it is then Bob's turn. *)
Definition demo_exhausted : list Event :=
  demo_started
  ++ concat (replicate 21 (demo_turn 1 "p1" ++ demo_turn 2 "p2"))
  ++ demo_turn 1 "p1".

(** The game object of the example room after a run of events. *)
Definition demo_game (es : list Event) : Game :=
  default (newGame room "" "") (games (run emptyServer es) !! room).

(** A table whose discard pile has been emptied by hand. *)
Definition demo_no_discard : Server :=
  mkServer {[ room := set_discardPile [] (demo_game demo_started) ]}
    (clients (run emptyServer demo_started)).

(** A concrete table is well formed by inspection. *)
Ltac tidy_by_computation :=
  vm_compute;
  repeat first [ apply Forall_nil | reflexivity | (eexists; reflexivity)
               | split | apply Forall_cons ].

#[local] Arguments deal : simpl never.

(** ** Cards held by arrays *)

(** The card of a slot, if it holds one. *)
Definition card_in (s : Slot) : option Card :=
  match s with
  | Elem (Some c) => Some c
  | _ => None
  end.

Definition cards_in (cs : list Slot) : list Card := omap card_in cs.

(** Some element of the array is an explicit [undefined]. *)
Definition has_undefined (cs : list Slot) : bool :=
  existsb (fun s => bool_decide (s = Elem None)) cs.

(** ** The client's card helpers (CaboCardGame.tsx) *)

Definition suit_text (s : Suit) : string :=
  match s with
  | Spades => "♠" | Hearts => "♥" | Diamonds => "♦" | Clubs => "♣"
  end.

(** [getCardDisplay(card)]. *)
Definition getCardDisplay (card : Card) : string :=
  (value_text (value card) ++ suit_text (suit card))%string.

(** [isRedCard(card)]. *)
Definition isRedCard (card : Card) : bool :=
  bool_decide (suit_text (suit card) = "♥")
  || bool_decide (suit_text (suit card) = "♦").

(** [getCardValue(card)]; [None] is [NaN], which [parseInt] yields on a
    text without leading digits. *)
Definition getCardValue (card : Card) : option Z :=
  let v := value_text (value card) in
  if bool_decide (v = "A") then Some 1%Z
  else if bool_decide (v = "J") then Some 11%Z
  else if bool_decide (v = "Q") then Some 12%Z
  else if bool_decide (v = "K") then
    Some (if bool_decide (suit_text (suit card) = "♥")
             || bool_decide (suit_text (suit card) = "♦")
          then (-1)%Z else 13%Z)
  else parseInt v.

(** [hasSpecialPower(card)]. *)
Definition hasSpecialPower (card : Card) : bool :=
  bool_decide
    (value_text (value card) ∈ ["6"; "7"; "8"; "9"; "10"; "J"; "Q"; "K"]).

(** ** Cards on the table *)

(** Every card of a session: the deck, the discard pile, the hands in
    player order and the held card. *)
Definition table_cards (g : Game) : list Card :=
  deck g ++ omap (fun x => x) (discardPile g)
  ++ concat (cards_in <$> hands g) ++ option_list (drawnCard g).

(** ** Who sits in a room *)

(** A player as the lobby lists it: id, name and host mark. *)
Definition badge (p : Player) : string * string * bool :=
  (id p, name p, isHost p).

Definition badges (g : Game) : list (string * string * bool) :=
  badge <$> players g.

(** One player of the room is marked as host, and [game.host] is the id
    of that player. *)
Definition one_host (g : Game) : Prop :=
  exists p, filter (fun q => isHost q = true) (players g) = [p] /\
            id p = host g.

(** A player nobody has dealt to: no score, no sight of the corner
    cards, no card in the hand. *)
Definition undealt (p : Player) : Prop :=
  score p = 0%Z /\ canSeeCorners p = false /\ cards_in (cards p) = [].

(** A game nobody has started. *)
Definition fresh (g : Game) : Prop :=
  deck g = [] /\ discardPile g = [] /\ drawnCard g = None /\
  currentTurn g = 0 /\ currentPlayerId g = None /\
  caboCallerId g = None /\ turnsAfterCabo g = 0 /\ round g = 1 /\
  Forall undealt (players g).

Definition room_inv (g : Game) : Prop :=
  room_ok g /\ one_host g /\ (state g = lobby -> fresh g).

(** The game object after the body of LEAVE_GAME and of the close
    event, for a room that keeps a player: [playerId] is filtered out
    and, if that was the host, the first player left becomes the host. *)
Definition without (playerId : string) (g : Game) : Game :=
  set_players (filter (fun p => id p <> playerId) (players g)) g.

Definition handoff (playerId : string) (g : Game) : Game :=
  if bool_decide (host (without playerId g) = playerId)
  then promote (without playerId g) else without playerId g.

(** The requests that leave the list of players alone. *)
Definition keeps_seats (c : string) (m : Request) : Prop :=
  play_room m = Some c \/ m = START_GAME c.

(** What no play request and no START_GAME touches. *)
Definition same_seats (g g' : Game) : Prop :=
  badges g' = badges g /\ host g' = host g /\ code g' = code g /\
  round g' = round g.

(** ** Whose turn it is *)

(** The turn index names a seat, and [currentPlayerId] is the id of the
    player in it: [game.currentPlayerId = game.players[game.currentTurn].id]. *)
Definition turn_ok (g : Game) : Prop :=
  currentTurn g < length (players g) /\
  currentPlayerId g = id <$> players g !! currentTurn g.

(** ** One request on the registry *)

(** The room a request addresses: the [gameCode] of the message, the
    code drawn for CREATE_GAME, and for LEAVE_GAME and the close event
    the room the connection is registered in. *)
Definition addressed (r : Random) (ws : Conn) (m : Request) (S : Server)
  : option string :=
  match m with
  | CREATE_GAME _ _ => Some (randomCode r)
  | JOIN_GAME _ _ c | START_GAME c => Some c
  | LEAVE_GAME | Close => client_gameCode <$> clients_get (clients S) ws
  | Unknown => None
  | _ => play_room m
  end.

(** Every player's score is the score of the hand. *)
Definition scored (g : Game) : Prop :=
  Forall (fun p => calculateScore (cards p) = Some (score p)) (players g).

(** The two requests that look at a card. *)
Definition is_peek (m : Request) : bool :=
  match m with
  | PEEK_OWN_CARD _ _ _ | PEEK_OPPONENT_CARD _ _ _ _ => true
  | _ => false
  end.

(** ** Leaving a room *)

(** A player apart from the host mark. *)
Definition guest (p : Player) : string * string * list Slot * Z * bool :=
  (id p, name p, cards p, score p, canSeeCorners p).

(** What LEAVE_GAME and the close event never touch of a game. *)
Definition same_play (g g' : Game) : Prop :=
  code g' = code g /\ state g' = state g /\
  currentTurn g' = currentTurn g /\ deck g' = deck g /\
  discardPile g' = discardPile g /\ round g' = round g /\
  drawnCard g' = drawnCard g /\ currentPlayerId g' = currentPlayerId g /\
  caboCallerId g' = caboCallerId g /\ turnsAfterCabo g' = turnsAfterCabo g.

(** The requests guarded by the turn, as sent for [playerId]. *)
Definition turn_request (c playerId : string) (m : Request) : Prop :=
  m = DRAW_CARD c playerId \/ m = TAKE_DISCARD c playerId \/
  (exists i, m = REPLACE_CARD c playerId i) \/
  m = DISCARD_DRAWN c playerId \/ m = CALL_CABO c playerId.

(** ** The table apart from the Cabo call *)

(** What CALL_CABO never touches. *)
Definition same_turn (g g' : Game) : Prop :=
  players g' = players g /\ state g' = state g /\
  currentTurn g' = currentTurn g /\ currentPlayerId g' = currentPlayerId g /\
  deck g' = deck g /\ discardPile g' = discardPile g /\
  drawnCard g' = drawnCard g /\ host g' = host g /\ code g' = code g /\
  round g' = round g.

(** Ann switches her first card with a slot Bob does not have, which
    leaves an explicit [undefined] in her hand; then she calls Cabo and
    the turns go up to the last resolve step of the countdown. *)
Definition demo_undefined : list Event :=
  demo_started ++
  [ (demo_random, 1, SWITCH_CARDS room "p1" "p2" 0 9);
    (demo_random, 1, CALL_CABO room "p1");
    (demo_random, 1, DRAW_CARD room "p1");
    (demo_random, 1, DISCARD_DRAWN room "p1");
    (demo_random, 2, DRAW_CARD room "p2") ].

(** ** Messages to one connection *)

(** What a connection is sent, in order. *)
Definition sent_to (ws : Conn) (out : list (Conn * ServerMsg))
  : list ServerMsg :=
  snd <$> filter (fun o => o.1 = ws) out.

(** ** The mock server of the client (CaboCardGame.tsx, MockWebSocket) *)

(** The earlier version of the client carries its own server, which
    keeps the games in [globalGameStorage] and handles CREATE_GAME,
    JOIN_GAME, START_GAME and LEAVE_GAME.  Its [Game] has no held card,
    no current player and no Cabo fields. *)
Module Mock.

Record Game := mkGame {
  code : string;
  host : string;
  players : list Player;
  state : GameState;
  currentTurn : nat;
  deck : list Card;
  discardPile : list (option Card);
  round : nat
}.

Inductive Msg :=
| GAME_CREATED (gameCode : string) (game : Game)
| GAME_JOINED (game : Game)
| GAME_STARTED (game : Game)
| GAME_LEFT
| ERROR (message : string).

(** What a handler does with its response. *)
Inductive Outcome :=
| Sent (m : Msg)    (* this.sendMessage(m); this.broadcastUpdate(m) *)
| Failed (m : Msg)  (* this.sendMessage(m); return *)
| Nothing.          (* return *)

(** [createDeck()]: the loops and the shuffle of the server's. *)
Definition createDeck (rnd : nat -> nat) : list Card :=
  shuffle rnd (length orderedDeck - 1) orderedDeck.

(** The object literal of [createGame]. *)
Definition createGame (c playerId playerName : string) : Game :=
  mkGame c playerId [newPlayer playerId playerName true] lobby 0 [] [] 1.

(** [joinGame], once the game is found. *)
Definition joinGame (playerName playerId : string) (g : Game)
  : Game * Outcome :=
  if bool_decide (8 <= length (players g)) then
    (g, Failed (ERROR "Game is full"))
  else if existsb (fun p => bool_decide (name p = playerName)) (players g)
  then (g, Failed (ERROR "Player name already taken in this game"))
  else
    let g' :=
      mkGame (code g) (host g)
        (push (players g) (newPlayer playerId playerName false))
        (state g) (currentTurn g) (deck g) (discardPile g) (round g) in
    (g', Sent (GAME_JOINED g')).

(** [startGame], once the game is found. *)
Definition startGame (rnd : nat -> nat) (g : Game) : Game * Outcome :=
  if bool_decide (length (players g) < 2) then (g, Nothing)
  else
    let '(top, d1) := pop (createDeck rnd) in
    let '(ps, d2) := deal_all (players g) d1 in
    let g' :=
      mkGame (code g) (host g) ps playing (currentTurn g) d2 [top]
        (round g) in
    (g', Sent (GAME_STARTED g')).

(** [sendMessage] hands the response to the instance itself;
    [broadcastUpdate] hands it to every other instance that listens to
    the emitter, in the order in which they were made.  Every instance
    is taken to have its [onmessage] set. *)
Definition deliver (me : Conn) (instances : list Conn) (o : Outcome)
  : list (Conn * Msg) :=
  match o with
  | Sent m =>
      (me, m) :: ((fun i => (i, m)) <$> filter (fun i => i <> me) instances)
  | Failed m => [(me, m)]
  | Nothing => []
  end.

(** [handleMessage(message)] on the instance [me]. *)
Definition handleMessage (r : Random) (me : Conn) (instances : list Conn)
  (m : Request) (store : gmap string Game)
  : gmap string Game * list (Conn * Msg) :=
  match m with
  | CREATE_GAME playerName playerId =>
      let c := randomCode r in
      let game := createGame c playerId playerName in
      (<[c := game]> store,
       deliver me instances (Sent (GAME_CREATED c game)))
  | JOIN_GAME playerName playerId gameCode =>
      match store !! gameCode with
      | None => (store, deliver me instances (Failed (ERROR "Game not found")))
      | Some game =>
          match joinGame playerName playerId game with
          | (game', Sent response) =>
              (<[gameCode := game']> store,
               deliver me instances (Sent response))
          | (_, o) => (store, deliver me instances o)
          end
      end
  | START_GAME gameCode =>
      match store !! gameCode with
      | None => (store, [])
      | Some game =>
          match startGame (randomIndex r) game with
          | (game', Sent response) =>
              (<[gameCode := game']> store,
               deliver me instances (Sent response))
          | (_, o) => (store, deliver me instances o)
          end
      end
  | LEAVE_GAME => (store, deliver me instances (Sent GAME_LEFT))
  | _ => (store, [])
  end.

(** A run of requests, each handled when its timer fires. *)
Definition run (instances : list Conn) (store : gmap string Game)
  (es : list Event) : gmap string Game :=
  fold_left
    (fun st e => (handleMessage e.1.1 e.1.2 instances e.2 st).1) es store.

End Mock.

(** The part of the server's game object that the mock's has. *)
Definition lobby_view (g : Game) : Mock.Game :=
  Mock.mkGame (code g) (host g) (players g) (state g) (currentTurn g)
    (deck g) (discardPile g) (round g).

(** The requests the mock handles by changing a game. *)
Definition lobby_request (m : Request) : bool :=
  match m with
  | CREATE_GAME _ _ | JOIN_GAME _ _ _ | START_GAME _ => true
  | _ => false
  end.

(** A handler that answers the sender with an error, on the server and
    in the mock. *)
Definition is_reply_error (o : Outcome) : bool :=
  match o with Reply (ERROR _) => true | _ => false end.

Definition is_mock_failed (o : Mock.Outcome) : bool :=
  match o with Mock.Failed (Mock.ERROR _) => true | _ => false end.

Definition is_mock_error (m : Mock.Msg) : bool :=
  match m with Mock.ERROR _ => true | _ => false end.

(** ** The client's state (CaboCardGame.tsx, handleServerMessage) *)

(** What [JSON.stringify] and [JSON.parse] make of a hand on its way to
    the client: a hole of the array arrives as [null], as an explicit
    [undefined] element does. *)
Definition wire_slot (s : Slot) : Slot :=
  match s with Hole => Elem None | Elem v => Elem v end.

Definition wire (g : Game) : Game :=
  set_players
    ((fun p => set_cards (wire_slot <$> cards p) p) <$> players g) g.

(** A message as the client parses it. *)
Definition receive (m : ServerMsg) : ServerMsg :=
  match m with
  | GAME_CREATED c g => GAME_CREATED c (wire g)
  | GAME_JOINED g => GAME_JOINED (wire g)
  | GAME_STARTED g => GAME_STARTED (wire g)
  | CARD_DRAWN g card playerId => CARD_DRAWN (wire g) card playerId
  | CARD_REPLACED g => CARD_REPLACED (wire g)
  | CARD_DISCARDED g => CARD_DISCARDED (wire g)
  | CABO_CALLED g callerName => CABO_CALLED (wire g) callerName
  | CARDS_SWITCHED g => CARDS_SWITCHED (wire g)
  | PLAYER_LEFT g => PLAYER_LEFT (wire g)
  | m => m
  end.

(** The game a message carries. *)
Definition game_of (m : ServerMsg) : option Game :=
  match m with
  | GAME_CREATED _ g | GAME_JOINED g | GAME_STARTED g | CARD_DRAWN g _ _
  | CARD_REPLACED g | CARD_DISCARDED g | CABO_CALLED g _
  | CARDS_SWITCHED g | PLAYER_LEFT g => Some g
  | _ => None
  end.

Module Client.

Inductive Screen := screen_menu | screen_lobby | screen_game | screen_game_over.

(** The component state [GameState]; [peekedCards] is keyed by the
    string made of a player id and a slot index. *)
Record GameState := mkGameState {
  screen : Screen;
  playerName : string;
  gameCode : string;
  playerId : option string;
  isHost : bool;
  currentGame : option Game;
  selectedCard : option nat;
  drawnCard : option Card;
  peekedCards : gmap string (option Card);
  showSpecialPowerMenu : bool
}.

(** The state of [useState] and of [handleBackToMenu]. *)
Definition initial : GameState :=
  mkGameState screen_menu "" "" None false None None None ∅ false.

(** The template literal of the key: [null] prints as "null", the index
    in decimal. *)
Definition peek_key (who : option string) (cardIndex : nat) : string :=
  (default "null" who +:+ "-" +:+ pretty cardIndex)%string.

(** [handleServerMessage(message)]: the state updates it queues, in
    order (the alerts are left out). *)
Definition handleServerMessage (m : ServerMsg) (prev : GameState)
  : GameState :=
  match m with
  | GAME_CREATED c game =>
      mkGameState screen_lobby (playerName prev) c (playerId prev)
        (isHost prev) (Some game) (selectedCard prev) (drawnCard prev)
        (peekedCards prev) (showSpecialPowerMenu prev)
  | GAME_JOINED game =>
      mkGameState screen_lobby (playerName prev) (gameCode prev)
        (playerId prev) (isHost prev) (Some game) (selectedCard prev)
        (drawnCard prev) (peekedCards prev) (showSpecialPowerMenu prev)
  | GAME_STARTED game =>
      mkGameState screen_game (playerName prev) (gameCode prev)
        (playerId prev) (isHost prev) (Some game) (selectedCard prev)
        (drawnCard prev) ∅ (showSpecialPowerMenu prev)
  | CARD_DRAWN game card who =>
      mkGameState (screen prev) (playerName prev) (gameCode prev)
        (playerId prev) (isHost prev) (Some game) (selectedCard prev)
        (if bool_decide (playerId prev = Some who) then card
         else drawnCard prev)
        (peekedCards prev) (showSpecialPowerMenu prev)
  | CARD_REPLACED game | CARD_DISCARDED game =>
      mkGameState
        (if bool_decide (state game = finished) then screen_game_over
         else screen prev)
        (playerName prev) (gameCode prev) (playerId prev) (isHost prev)
        (Some game) (selectedCard prev) None (peekedCards prev)
        (showSpecialPowerMenu prev)
  | CABO_CALLED game _ | CARDS_SWITCHED game | PLAYER_LEFT game =>
      mkGameState (screen prev) (playerName prev) (gameCode prev)
        (playerId prev) (isHost prev) (Some game) (selectedCard prev)
        (drawnCard prev) (peekedCards prev) (showSpecialPowerMenu prev)
  | CARD_PEEKED card cardIndex =>
      mkGameState (screen prev) (playerName prev) (gameCode prev)
        (playerId prev) (isHost prev) (currentGame prev) (selectedCard prev)
        (drawnCard prev)
        (<[peek_key (playerId prev) cardIndex := card]> (peekedCards prev))
        (showSpecialPowerMenu prev)
  | OPPONENT_CARD_PEEKED card cardIndex opponentId =>
      mkGameState (screen prev) (playerName prev) (gameCode prev)
        (playerId prev) (isHost prev) (currentGame prev) (selectedCard prev)
        (drawnCard prev)
        (<[peek_key (Some opponentId) cardIndex := card]> (peekedCards prev))
        (showSpecialPowerMenu prev)
  | GAME_LEFT => initial
  | ERROR _ => prev
  end.

(** The messages of one connection, parsed and handled in the order in
    which they arrive. *)
Definition handle_all (ms : list ServerMsg) (s : GameState) : GameState :=
  fold_left (fun s m => handleServerMessage (receive m) s) ms s.

End Client.

(** ** The game-over screen (CaboCardGame.tsx, GameOverScreen) *)

(** [[...game.players].sort((a, b) => a.score - b.score)].  The sort of
    an array is stable, so that its result is the one of inserting the
    players, from the last to the first, each before the first player
    that does not score less. *)
Fixpoint insert_by_score (p : Player) (l : list Player) : list Player :=
  match l with
  | [] => [p]
  | q :: rest =>
      if bool_decide (score p <= score q)%Z then p :: q :: rest
      else q :: insert_by_score p rest
  end.

Definition sortedPlayers (g : Game) : list Player :=
  foldr insert_by_score [] (players g).

(** [sortedPlayers[0]]. *)
Definition winner (g : Game) : option Player := head (sortedPlayers g).

(** ** Resolve steps the server accepts *)

(** A resolve step that passes the guard of its handler and is carried
    out: a REPLACE_CARD or DISCARD_DRAWN that names the player to move
    while a card is held, the player being seated for a replace. *)
Definition resolve_accepted (m : Request) (g : Game) : bool :=
  match m with
  | REPLACE_CARD _ playerId _ =>
      bool_decide (currentPlayerId g = Some playerId)
      && bool_decide (is_Some (drawnCard g))
      && bool_decide (is_Some (find_player (players g) playerId))
  | DISCARD_DRAWN _ playerId =>
      bool_decide (currentPlayerId g = Some playerId)
      && bool_decide (is_Some (drawnCard g))
  | _ => false
  end.

(** ** Hands of four slots *)

Definition four_slots (g : Game) : Prop :=
  Forall (fun p => length (cards p) = 4) (players g).

(** A request that the handlers of room [c], holding the game [g],
    carry out and that breaks its hands of four slots: a JOIN_GAME that
    seats a player (the room is not full and the name is not taken), a
    REPLACE_CARD that is accepted, or a SWITCH_CARDS between two seated
    players, with a slot index that is not one of 0, 1, 2, 3. *)
Definition breaks_hands (c : string) (g : Game) (m : Request) : bool :=
  match m with
  | JOIN_GAME playerName _ c' =>
      bool_decide (c' = c)
      && negb (bool_decide (8 <= length (players g)))
      && negb (existsb (fun p => bool_decide (name p = playerName))
                 (players g))
  | REPLACE_CARD c' _ i =>
      bool_decide (c' = c) && resolve_accepted m g
      && negb (bool_decide (i < 4))
  | SWITCH_CARDS c' playerId opponentId i j =>
      bool_decide (c' = c)
      && bool_decide (is_Some (find_player (players g) playerId))
      && bool_decide (is_Some (find_player (players g) opponentId))
      && negb (bool_decide (i < 4) && bool_decide (j < 4))
  | _ => false
  end.

(** The event breaks the hands of room [c], which has left the lobby. *)
Definition breaks_started (c : string) (S : Server) (e : Event) : bool :=
  match games S !! c with
  | Some g => negb (bool_decide (state g = lobby)) && breaks_hands c g e.2
  | None => false
  end.

(** A run of events of any kind, to any room, none of which breaks the
    hands of room [c] once the room has left the lobby. *)
Fixpoint careful (c : string) (S : Server) (es : list Event) : bool :=
  match es with
  | [] => true
  | e :: rest => negb (breaks_started c S e) && careful c (step S e) rest
  end.

(** ** The Cabo countdown on the registry *)

(** The event is a resolve step addressed to room [c] that the server,
    in state [S], accepts. *)
Definition accepted_resolve (c : string) (S : Server) (e : Event) : bool :=
  match games S !! c with
  | Some g => bool_decide (play_room e.2 = Some c) && resolve_accepted e.2 g
  | None => false
  end.

(** The number of accepted resolve steps on room [c] in a run of events
    of any kind. *)
Fixpoint count_accepted (c : string) (S : Server) (es : list Event) : nat :=
  match es with
  | [] => 0
  | e :: rest =>
      (if accepted_resolve c S e then 1 else 0)
      + count_accepted c (step S e) rest
  end.

(** A CREATE_GAME that draws the code [c] and so puts a new game in the
    place of the one the room held. *)
Definition overwrites (c : string) (e : Event) : bool :=
  match e.2 with
  | CREATE_GAME _ _ => bool_decide (randomCode e.1.1 = c)
  | _ => false
  end.

(** Along the run the session of room [c] stays the same one: no event
    overwrites it and none takes the room off the registry. *)
Fixpoint room_kept (c : string) (S : Server) (es : list Event) : bool :=
  match es with
  | [] => true
  | e :: rest =>
      negb (overwrites c e)
      && bool_decide (is_Some (games (step S e) !! c))
      && room_kept c (step S e) rest
  end.

(** Some hand holds an explicit [undefined], on which the scoring
    raises. *)
Definition unscorable (g : Game) : bool := existsb has_undefined (hands g).

(** Every player's score is the score of the hand, which is the sum of
    the value table over the cards the hand holds. *)
Definition scored_by_table (g : Game) : Prop :=
  Forall (fun p => calculateScore (cards p) = Some (score p) /\
                   score p = table_sum (cards_in (cards p)))
    (players g).

(** Ann, Bob and Cat play; after Ann's and Bob's turns Ann's connection
    closes, and Cat, whose turn it is, calls Cabo. *)
Definition demo_three : list Event :=
  demo_lobby
  ++ [ (demo_random, 3, JOIN_GAME "cat" "p3" room);
       (demo_random, 1, START_GAME room) ]
  ++ demo_turn 1 "p1" ++ demo_turn 2 "p2"
  ++ [ (demo_random, 1, Close);
       (demo_random, 3, CALL_CABO room "p3") ].

(** A player whose id is the empty string opens the room and starts
    the game with Bob. *)
Definition demo_no_id_started : list Event :=
  [ (demo_random, 1, CREATE_GAME "ann" "");
    (demo_random, 2, JOIN_GAME "bob" "p2" room);
    (demo_random, 1, START_GAME room) ].

(** Then that player calls Cabo. *)
Definition demo_no_id : list Event :=
  demo_no_id_started ++ [ (demo_random, 1, CALL_CABO room "") ].

(** What is seen of the countdown of the example room after a run: the
    state, the Cabo caller, the countdown, the ids of the players in
    seat order, the turn index and the player to move. *)
Definition countdown_view (es : list Event)
  : option (GameState * option string * nat * list string * nat
            * option string) :=
  (fun g => (state g, caboCallerId g, turnsAfterCabo g, id <$> players g,
             currentTurn g, currentPlayerId g))
    <$> games (run emptyServer es) !! room.

(** * Arrays used as stacks and as slot tables *)

Lemma pop_nil {A} : pop (@nil A) = (None, []).
Proof. reflexivity. Qed.

Lemma pop_snoc {A} (l : list A) (x : A) : pop (l ++ [x]) = (Some x, l).
Proof. unfold pop. now rewrite last_snoc, removelast_last. Qed.

Lemma pop_cases {A} (l : list A) :
  (l = [] /\ pop l = (None, [])) \/
  (exists l' x, l = l' ++ [x] /\ pop l = (Some x, l')).
Proof.
  destruct l as [|a l] using rev_ind.
  - now left.
  - right. exists l, a. split; [reflexivity|apply pop_snoc].
Qed.

Lemma array_set_length (cs : list Slot) (i : nat) (v : option Card) :
  i < length cs -> length (array_set cs i v) = length cs.
Proof.
  intros Hi. unfold array_set. rewrite bool_decide_eq_true_2 by assumption.
  apply length_insert.
Qed.

Lemma array_set_is_card (cs : list Slot) (i : nat) (c : Card) :
  i < length cs -> Forall is_card cs ->
  Forall is_card (array_set cs i (Some c)).
Proof.
  intros Hi Hcs. unfold array_set.
  rewrite bool_decide_eq_true_2 by assumption.
  apply Forall_insert; [assumption|now exists c].
Qed.

Lemma array_get_is_card (cs : list Slot) (i : nat) :
  i < length cs -> Forall is_card cs -> is_Some (array_get cs i).
Proof.
  intros Hi Hcs. unfold array_get.
  destruct (lookup_lt_is_Some_2 cs i Hi) as [s Hs]. rewrite Hs.
  destruct (proj1 (Forall_lookup _ _) Hcs i s Hs) as [c ->]. now exists c.
Qed.

Lemma array_set_full_hand (cs : list Slot) (i : nat) (c : Card) :
  i < 4 -> full_hand cs -> full_hand (array_set cs i (Some c)).
Proof.
  intros Hi [Hlen Hcs]. split.
  - rewrite array_set_length; lia.
  - apply array_set_is_card; [lia|assumption].
Qed.

Lemma array_get_full_hand (cs : list Slot) (i : nat) :
  i < 4 -> full_hand cs -> is_Some (array_get cs i).
Proof.
  intros Hi [Hlen Hcs]. apply array_get_is_card; [lia|assumption].
Qed.

(** Writing the cards of one player, seen on the list of hands. *)
Lemma hands_alter (f : list Slot -> list Slot) (k : nat)
  (ps : list Player) :
  cards <$> alter (fun p => set_cards (f (cards p)) p) k ps =
  alter f k (cards <$> ps).
Proof. apply list_fmap_alter. now apply Forall_forall. Qed.

Lemma find_player_lookup (ps : list Player) (playerId : string) k p :
  find_player ps playerId = Some (k, p) ->
  ps !! k = Some p /\ id p = playerId.
Proof.
  unfold find_player. intros H.
  apply list_find_Some in H as (H1 & H2 & _). now split.
Qed.

Lemma sum_full_hands (hs : list (list Slot)) :
  Forall full_hand hs -> sum_list_with length hs = 4 * length hs.
Proof.
  induction 1 as [|h hs [Hh _] _ IH]; simpl; [reflexivity|].
  rewrite IH, Hh. lia.
Qed.

(** Reading after a write, whether the write was inside the array or
    extended it: the written index reads the written value, every other
    index reads what it read before. *)
Lemma array_get_set (cs : list Slot) (i k : nat) (v : option Card) :
  array_get (array_set cs i v) k =
  if bool_decide (k = i) then v else array_get cs k.
Proof.
  unfold array_get, array_set. case_bool_decide as Hi.
  - case_bool_decide as E.
    + subst k. now rewrite list_lookup_insert_eq.
    + now rewrite list_lookup_insert_ne by congruence.
  - destruct (decide (k < length cs)) as [Hk|Hk].
    + rewrite lookup_app_l by assumption.
      now rewrite bool_decide_eq_false_2 by lia.
    + rewrite lookup_app_r by lia.
      rewrite (lookup_ge_None_2 cs k) by lia.
      destruct (decide (k - length cs < i - length cs)) as [Hlt|Hge].
      * rewrite lookup_app_l by (rewrite length_replicate; lia).
        rewrite lookup_replicate_2 by lia.
        now rewrite bool_decide_eq_false_2 by lia.
      * rewrite lookup_app_r by (rewrite length_replicate; lia).
        rewrite length_replicate.
        case_bool_decide as E.
        -- subst k. now rewrite Nat.sub_diag.
        -- destruct (k - length cs - (i - length cs)) as [|x] eqn:Ex;
             [lia|reflexivity].
Qed.

(** * Scoring *)

Lemma cardScore_table (c : Card) : cardScore c = table_value c.
Proof. destruct c as [[] []]; reflexivity. Qed.

Lemma calculateScore_from_hand (cs : list Card) (total : Z) :
  calculateScore_from total (hand_of cs) = Some (total + table_sum cs)%Z.
Proof.
  revert total. induction cs as [|c cs IH]; intros total; simpl.
  - f_equal. lia.
  - rewrite IH, cardScore_table. f_equal. lia.
Qed.

(** C9. The score of every hand of cards is the sum of the value table
    over its cards (ace 1, numerals at face value, jack 11, queen 12,
    king 13, red king -1); the hand A♠ K♥ 5♣ Q♦ scores 17 and the four
    kings score 24. *)
Theorem calculateScore_is_table_sum :
  (forall hand : list Card,
      calculateScore (hand_of hand) = Some (table_sum hand)) /\
  calculateScore
    (hand_of [mkCard Spades VA; mkCard Hearts VK;
              mkCard Clubs V5; mkCard Diamonds VQ]) = Some 17%Z /\
  calculateScore
    (hand_of [mkCard Spades VK; mkCard Clubs VK;
              mkCard Hearts VK; mkCard Diamonds VK]) = Some 24%Z.
Proof.
  split; [|split; reflexivity].
  intros hand. unfold calculateScore.
  now rewrite calculateScore_from_hand.
Qed.

Lemma is_card_hand_of (cs : list Slot) :
  Forall is_card cs -> exists l, cs = hand_of l.
Proof.
  induction 1 as [|s cs [c ->] _ [l ->]].
  - now exists [].
  - now exists (c :: l).
Qed.

Lemma full_hand_scores (cs : list Slot) :
  full_hand cs -> is_Some (calculateScore cs).
Proof.
  intros [_ H]. destruct (is_card_hand_of cs H) as [l ->].
  unfold calculateScore. rewrite calculateScore_from_hand. now eexists.
Qed.

Lemma score_all_cards (ps : list Player) :
  cards <$> (score_all ps).1 = cards <$> ps.
Proof.
  induction ps as [|p ps IH]; simpl; [reflexivity|].
  destruct (calculateScore (cards p)); [|reflexivity].
  destruct (score_all ps) as [ps' ok]. csimpl in *. now rewrite IH.
Qed.

Lemma score_all_length (ps : list Player) :
  length (score_all ps).1 = length ps.
Proof.
  rewrite <- (length_fmap cards), score_all_cards. apply length_fmap.
Qed.

Lemma score_all_full (ps : list Player) :
  Forall full_hand (cards <$> ps) ->
  (score_all ps).2 = true /\
  Forall (fun p => calculateScore (cards p) = Some (score p))
    (score_all ps).1.
Proof.
  induction ps as [|p ps IH]; simpl; intros H.
  - split; [reflexivity|constructor].
  - apply Forall_cons in H as [Hp Hps].
    destruct (full_hand_scores _ Hp) as [s Hs]. rewrite Hs.
    destruct (IH Hps) as [Hok Hall].
    destruct (score_all ps) as [ps' ok]. simpl in *.
    split; [assumption|]. constructor; [exact Hs|assumption].
Qed.

(** * Dealing *)

Lemma length_swap (d : list Card) (i j : nat) :
  length (swap d i j) = length d.
Proof.
  unfold swap. destruct (d !! i), (d !! j); try reflexivity.
  now rewrite !length_insert.
Qed.

Lemma length_shuffle (rnd : nat -> nat) (i : nat) (d : list Card) :
  length (shuffle rnd i d) = length d.
Proof.
  revert d. induction i as [|i IH]; intros d; simpl; [reflexivity|].
  now rewrite IH, length_swap.
Qed.

Lemma length_createDeck (rnd : nat -> nat) : length (createDeck rnd) = 52.
Proof. unfold createDeck. now rewrite length_shuffle. Qed.

Lemma pop_length {A} (l : list A) (n : nat) :
  length l = S n ->
  exists x l', pop l = (Some x, l') /\ length l' = n.
Proof.
  intros Hl. destruct (pop_cases l) as [[-> _]|(l' & x & -> & Hp)];
    [discriminate|].
  exists x, l'. split; [assumption|].
  rewrite length_app in Hl. simpl in Hl. lia.
Qed.

Lemma deal_full (d : list Card) (n : nat) :
  length d = 4 + n ->
  full_hand (deal d).1 /\ length (deal d).2 = n.
Proof.
  intros Hd. unfold deal.
  destruct (pop_length d (3 + n) Hd) as (c1 & d1 & -> & H1).
  destruct (pop_length d1 (2 + n) H1) as (c2 & d2 & -> & H2).
  destruct (pop_length d2 (1 + n) H2) as (c3 & d3 & -> & H3).
  destruct (pop_length d3 n H3) as (c4 & d4 & -> & H4).
  simpl. split; [|assumption]. split; [reflexivity|].
  repeat constructor; now eexists.
Qed.

Lemma deal_all_full (ps : list Player) (d : list Card) (n : nat) :
  length d = 4 * length ps + n ->
  Forall full_hand (cards <$> (deal_all ps d).1) /\
  length (deal_all ps d).1 = length ps /\
  length (deal_all ps d).2 = n.
Proof.
  revert d. induction ps as [|p ps IH]; intros d Hd; cbn [deal_all].
  - repeat split; [constructor|]. simpl in Hd. simpl. lia.
  - destruct (deal_full d (4 * length ps + n)) as [Hf Hl].
    { simpl in Hd. lia. }
    destruct (deal d) as [hand d1]. simpl in Hf, Hl.
    destruct (IH d1 Hl) as (IH1 & IH2 & IH3).
    destruct (deal_all ps d1) as [rest d2]. csimpl in *.
    repeat split; [constructor; assumption|lia|assumption].
Qed.

Lemma deal_all_length (ps : list Player) (d : list Card) :
  length (deal_all ps d).1 = length ps.
Proof.
  revert d. induction ps as [|p ps IH]; intros d; cbn [deal_all].
  - reflexivity.
  - destruct (deal d) as [hand d1]. specialize (IH d1).
    destruct (deal_all ps d1) as [rest d2]. simpl in *. now rewrite IH.
Qed.

(** What [START_GAME] leaves behind in a room of 2 to 12 players: a
    well-formed table with all 52 cards on it. *)
Lemma start_game_deals (rnd : nat -> nat) (g : Game) :
  2 <= length (players g) <= 12 ->
  let g' := (start_game rnd g).1 in
  tidy g' /\
  state g' = playing /\
  drawnCard g' = drawnCard g /\
  length (players g') = length (players g) /\
  length (deck g') + length (discardPile g') + 4 * length (players g') = 52.
Proof.
  intros Hn. unfold start_game.
  rewrite bool_decide_eq_false_2 by lia.
  destruct (pop_length (createDeck rnd) 51 (length_createDeck rnd))
    as (top & d1 & -> & H1).
  destruct (deal_all_full (players g) d1 (51 - 4 * length (players g)))
    as (Hf & Hl & Hd); [lia|].
  destruct (deal_all (players g) d1) as [ps d2]. simpl in Hf, Hl, Hd.
  unfold tidy, hands. cbn. repeat split; try assumption.
  - repeat constructor. now eexists.
  - lia.
Qed.

(** * The end of a turn *)

Lemma advance_same_table mk g : same_table g (advance mk g).1.
Proof.
  unfold advance. case_bool_decide; [|now repeat split].
  destruct (players (nextTurn g) !! currentTurn (nextTurn g));
    now repeat split.
Qed.

Lemma end_of_turn_same_table mk g : same_table g (end_of_turn mk g).1.
Proof.
  unfold end_of_turn. destruct (truthy (caboCallerId g)).
  2: apply advance_same_table.
  case_bool_decide.
  2: { destruct (advance_same_table mk
         (set_turnsAfterCabo (turnsAfterCabo g + 1) g))
         as (H1 & H2 & H3 & H4 & H5).
       now repeat split. }
  cbn [players set_turnsAfterCabo].
  pose proof (score_all_cards (players g)) as Hc.
  destruct (score_all (players g)) as [ps [|]]; simpl in Hc.
  - match goal with |- same_table _ (advance mk ?x).1 =>
      destruct (advance_same_table mk x) as (H1 & H2 & H3 & H4 & H5) end.
    unfold same_table, hands in *. cbn in *.
    rewrite H1, H2, H3, H4, H5, Hc. now repeat split.
  - unfold same_table, hands. cbn. now rewrite Hc.
Qed.

Lemma same_table_length g g' :
  same_table g g' -> length (players g') = length (players g).
Proof.
  intros [H _]. unfold hands in H.
  now rewrite <- (length_fmap cards), H, length_fmap.
Qed.

Lemma advance_state mk g :
  state (advance mk g).1 = state g.
Proof.
  unfold advance. case_bool_decide; [|reflexivity].
  now destruct (players (nextTurn g) !! currentTurn (nextTurn g)).
Qed.

Lemma end_of_turn_state mk g :
  state (end_of_turn mk g).1 = state g \/
  state (end_of_turn mk g).1 = finished.
Proof.
  unfold end_of_turn. destruct (truthy (caboCallerId g)).
  2: { left. apply advance_state. }
  case_bool_decide.
  2: { left. now rewrite advance_state. }
  destruct (score_all _) as [ps [|]].
  - right. now rewrite advance_state.
  - now left.
Qed.

Lemma advance_keeps_finished mk g :
  state g = finished -> state (advance mk g).1 = finished.
Proof.
  intros H. unfold advance. rewrite H.
  now rewrite bool_decide_eq_false_2 by discriminate.
Qed.

Lemma end_of_turn_keeps_finished mk g :
  state g = finished -> state (end_of_turn mk g).1 = finished.
Proof.
  intros H. unfold end_of_turn. destruct (truthy (caboCallerId g)).
  2: now apply advance_keeps_finished.
  case_bool_decide.
  2: now apply advance_keeps_finished.
  destruct (score_all _) as [ps [|]].
  - now apply advance_keeps_finished.
  - exact H.
Qed.

(** * Looking up and storing the game object *)

(** On the server a play request addressed to a room runs [play] on the
    game object of that room and leaves the other rooms alone. *)
Lemma with_game_lookup S ws c missing body c' :
  games (with_game S ws c missing body).1 !! c' =
  if bool_decide (c' = c) then (fun g => (body g).1) <$> games S !! c
  else games S !! c'.
Proof.
  unfold with_game. case_bool_decide as Hc.
  - subst c'. destruct (games S !! c) as [g|] eqn:E; simpl.
    + destruct (body g) as [g' o]. simpl. apply lookup_insert_eq.
    + now rewrite E.
  - destruct (games S !! c) as [g|] eqn:E; simpl; [|reflexivity].
    destruct (body g) as [g' o]. simpl. now apply lookup_insert_ne.
Qed.

Lemma handle_play r ws m S c c' :
  play_room m = Some c ->
  games (handle r ws m S).1 !! c' =
  if bool_decide (c' = c) then (fun g => (play m g).1) <$> games S !! c
  else games S !! c'.
Proof.
  destruct m; simpl; try discriminate; intros [= ->];
    apply with_game_lookup.
Qed.

Lemma server_eta (S : Server) : mkServer (games S) (clients S) = S.
Proof. now destruct S. Qed.

(** A handler body that leaves the game object as it was leaves the
    whole server state as it was. *)
Lemma with_game_unchanged S ws c missing body g o :
  games S !! c = Some g -> body g = (g, o) ->
  with_game S ws c missing body = (S, emit (clients S) ws c o).
Proof.
  intros Hg Hb. unfold with_game. rewrite Hg, Hb.
  now rewrite (insert_id _ _ _ Hg), server_eta.
Qed.

Lemma with_game_changed S ws c missing body g :
  games S !! c = Some g ->
  games (with_game S ws c missing body).1 !! c = Some (body g).1.
Proof.
  intros Hg. rewrite with_game_lookup, Hg.
  now rewrite bool_decide_eq_true_2.
Qed.

Lemma demo_game_lookup (es : list Event) :
  is_Some (games (run emptyServer es) !! room) ->
  games (run emptyServer es) !! room = Some (demo_game es).
Proof. unfold demo_game. now intros [g ->]. Qed.

(** * The registry: creating and joining rooms *)

Lemma existsb_name_true (playerName : string) (ps : list Player) :
  existsb (fun p => bool_decide (name p = playerName)) ps = true <->
  exists p, p ∈ ps /\ name p = playerName.
Proof.
  rewrite existsb_exists. split.
  - intros (p & Hin & Hp). exists p. split.
    + now apply list_elem_of_In.
    + now apply bool_decide_eq_true in Hp.
  - intros (p & Hin & Hp). exists p. split.
    + now apply list_elem_of_In.
    + now apply bool_decide_eq_true.
Qed.

Lemma existsb_name_false (playerName : string) (ps : list Player) :
  (forall p, p ∈ ps -> name p <> playerName) ->
  existsb (fun p => bool_decide (name p = playerName)) ps = false.
Proof.
  intros H. apply not_true_is_false. intros Hex.
  apply existsb_name_true in Hex as (p & Hin & Hp).
  exact (H p Hin Hp).
Qed.

(** C5, counterexample. Ann's room, which Bob has joined, is registered
    under the code that the next CREATE_GAME draws: the new one-player
    session is stored under that code and the two-player session is no
    longer in the registry. *)
Lemma create_game_overwrites_on_collision :
  let S := run emptyServer demo_lobby in
  let res := handle demo_random 3 (CREATE_GAME "cat" "p3") S in
  ((fun g => name <$> players g) <$> games S !! room)
  = Some ["ann"; "bob"] /\
  res.2 = [(3, GAME_CREATED room (newGame room "p3" "cat"))] /\
  ((fun g => name <$> players g) <$> games res.1 !! room) = Some ["cat"].
Proof. vm_compute. repeat split. Qed.

(** C5, as the code has it. A create-room request takes the random draw
    as the room code without looking at the registry: the new session is
    stored under that code, replacing whatever session was there, and
    the sessions under every other code are untouched.  The session sent
    back is in the lobby with exactly one player, the creator, marked
    host. *)
Theorem create_game_stores_under_drawn_code
  (r : Random) (ws : Conn) (playerName playerId : string) (S : Server) :
  let c := randomCode r in
  let game := newGame c playerId playerName in
  let '(S', out) := handle r ws (CREATE_GAME playerName playerId) S in
  out = [(ws, GAME_CREATED c game)] /\
  games S' !! c = Some game /\
  (forall c', c' <> c -> games S' !! c' = games S !! c') /\
  state game = lobby /\
  players game = [mkPlayer playerId playerName true [] 0 false] /\
  clients_get (clients S') ws = Some (mkClientInfo playerId c).
Proof.
  simpl. repeat split.
  - apply lookup_insert_eq.
  - intros c' Hc'. now apply lookup_insert_ne.
  - induction (clients S) as [|[c0 i0] cl IH]; simpl.
    + now rewrite bool_decide_eq_true_2.
    + destruct (bool_decide (c0 = ws)) eqn:E; simpl; rewrite E; auto.
Qed.

(** C6. A join request fails with "Game not found" when the code names
    no session, with "Game is full" when the room has 8 players, and
    with "Player name already taken" when a player of the room has
    exactly that name; a failure leaves the whole server state as it
    was.  Otherwise one player with the given id and name, not host, is
    appended to the room's player list and nothing else of the session
    changes. *)
Theorem join_game_validation
  (r : Random) (ws : Conn) (playerName playerId gameCode : string)
  (S : Server) :
  let res := handle r ws (JOIN_GAME playerName playerId gameCode) S in
  (games S !! gameCode = None ->
   res = (S, [(ws, ERROR "Game not found")])) /\
  (forall game, games S !! gameCode = Some game ->
     (8 <= length (players game) ->
      res = (S, [(ws, ERROR "Game is full")])) /\
     (length (players game) < 8 ->
      (exists p, p ∈ players game /\ name p = playerName) ->
      res = (S, [(ws, ERROR "Player name already taken")])) /\
     (length (players game) < 8 ->
      (forall p, p ∈ players game -> name p <> playerName) ->
      let game' :=
        set_players
          (players game ++ [mkPlayer playerId playerName false [] 0 false])
          game in
      games res.1 !! gameCode = Some game' /\
      (forall c, c <> gameCode -> games res.1 !! c = games S !! c) /\
      In (ws, GAME_JOINED game') res.2)).
Proof.
  cbn zeta. unfold handle. split.
  - intros ->. reflexivity.
  - intros game ->. unfold join_game. repeat split.
    + intros Hfull. now rewrite bool_decide_eq_true_2.
    + intros Hlt Hex.
      rewrite bool_decide_eq_false_2 by lia.
      apply existsb_name_true in Hex. now rewrite Hex.
    + rewrite bool_decide_eq_false_2 by lia.
      rewrite existsb_name_false by assumption. simpl.
      apply lookup_insert_eq.
    + rewrite bool_decide_eq_false_2 by lia.
      rewrite existsb_name_false by assumption. simpl.
      intros c Hc. now apply lookup_insert_ne.
    + rewrite bool_decide_eq_false_2 by lia.
      rewrite existsb_name_false by assumption. simpl. now left.
Qed.

(** C6, witness: an unknown code, the full room, Bob's name taken, and
    a second player whose name differs from Bob's by its capital. *)
Lemma join_game_validation_witness :
  let S := run emptyServer demo_lobby in
  let full := run emptyServer demo_full in
  handle demo_random 3 (JOIN_GAME "cat" "p3" "NOROOM") S
  = (S, [(3, ERROR "Game not found")]) /\
  handle demo_random 9 (JOIN_GAME "ian" "p9" room) full
  = (full, [(9, ERROR "Game is full")]) /\
  handle demo_random 3 (JOIN_GAME "bob" "p3" room) S
  = (S, [(3, ERROR "Player name already taken")]) /\
  games (handle demo_random 3 (JOIN_GAME "Bob" "p3" room) S).1 !! room
  = Some (set_players
            (players (demo_game demo_lobby)
             ++ [mkPlayer "p3" "Bob" false [] 0 false])
            (demo_game demo_lobby)).
Proof.
  cbn zeta.
  assert (games (run emptyServer demo_lobby) !! room
          = Some (demo_game demo_lobby)) as G
    by (vm_compute; reflexivity).
  assert (games (run emptyServer demo_full) !! room
          = Some (demo_game demo_full)) as F
    by (vm_compute; reflexivity).
  pose proof (join_game_validation demo_random 3 "cat" "p3" "NOROOM"
                (run emptyServer demo_lobby)) as A.
  pose proof (join_game_validation demo_random 9 "ian" "p9" room
                (run emptyServer demo_full)) as B.
  pose proof (join_game_validation demo_random 3 "bob" "p3" room
                (run emptyServer demo_lobby)) as C.
  pose proof (join_game_validation demo_random 3 "Bob" "p3" room
                (run emptyServer demo_lobby)) as D.
  cbn zeta in A, B, C, D.
  split; [|split; [|split]].
  - refine (proj1 A _). vm_compute. reflexivity.
  - refine (proj1 (proj2 B _ F) _). vm_compute. lia.
  - refine (proj1 (proj2 (proj2 C _ G)) _ _).
    + vm_compute. lia.
    + exists (mkPlayer "p2" "bob" false [] 0 false). split.
      * vm_compute. apply list_elem_of_In. right. now left.
      * reflexivity.
  - refine (proj1 (proj2 (proj2 (proj2 D _ G)) _ _)).
    + vm_compute. lia.
    + intros p Hp. apply list_elem_of_In in Hp. vm_compute in Hp.
      destruct Hp as [<-|[<-|[]]]; discriminate.
Defined.

(** * One play request on a well-formed table *)

Lemma play_invariant (m : Request) (g : Game) :
  legal_play m = true -> tidy g ->
  let g' := (play m g).1 in
  tidy g' /\
  length (players g') = length (players g) /\
  length (deck g') + length (discardPile g') + held g' =
  length (deck g) + length (discardPile g) + held g.
Proof.
  intros Hm [Hh Hd].
  destruct m; simpl in Hm; try discriminate; cbn [play].
  - (* DRAW_CARD *)
    unfold draw_card.
    destruct (negb _); [now repeat split|].
    case_bool_decide as Hheld; [now repeat split|].
    assert (drawnCard g = None) as Hnone.
    { destruct (drawnCard g); [exfalso; apply Hheld; now eexists|reflexivity]. }
    destruct (pop_cases (deck g)) as [[E ->]|(l & x & E & ->)];
      unfold tidy, hands, held; cbn; rewrite E, Hnone;
      repeat split; try assumption.
    rewrite length_app. simpl. lia.
  - (* TAKE_DISCARD *)
    unfold take_discard.
    destruct (negb _); [now repeat split|].
    case_bool_decide as Hheld; [now repeat split|].
    assert (drawnCard g = None) as Hnone.
    { destruct (drawnCard g); [exfalso; apply Hheld; now eexists|reflexivity]. }
    destruct (pop_cases (discardPile g)) as [[E ->]|(l & x & E & ->)];
      unfold tidy, hands, held; cbn; rewrite Hnone.
    + rewrite E. repeat split; try assumption. constructor.
    + rewrite E in Hd. apply Forall_app in Hd as [Hl Hx].
      apply Forall_singleton in Hx as [c ->].
      rewrite E, length_app. simpl. repeat split; try assumption. lia.
  - (* REPLACE_CARD *)
    apply bool_decide_eq_true in Hm.
    unfold replace_card.
    destruct (negb (bool_decide (currentPlayerId g = Some playerId)));
      [now repeat split|].
    cbn [orb]. case_bool_decide as Hheld; cbn [negb]; [|now repeat split].
    destruct Hheld as [c Hc].
    destruct (find_player (players g) playerId) as [[k player]|] eqn:Hf;
      [|now repeat split].
    apply find_player_lookup in Hf as [Hk _].
    match goal with |- context [end_of_turn ?mk ?x] =>
      pose proof (end_of_turn_same_table mk x) as Hs;
      set (g1 := x) in *; set (g2 := (end_of_turn mk g1).1) in * end.
    pose proof (same_table_length _ _ Hs) as Hlen.
    destruct Hs as (H1 & H2 & H3 & H4 & H5).
    assert (full_hand (cards player)) as Hfull.
    { apply (proj1 (Forall_lookup _ _) Hh k).
      unfold hands. now rewrite list_lookup_fmap, Hk. }
    destruct (array_get_full_hand (cards player) cardIndex Hm Hfull)
      as [old Hold].
    unfold tidy, held. rewrite H1, H2, H3, H4. subst g1.
    unfold hands. cbn. rewrite Hc, Hold.
    rewrite (hands_alter (fun cs => array_set cs cardIndex (Some c))).
    repeat split.
    + apply Forall_alter; [exact Hh|].
      intros cs _ Hcs. now apply array_set_full_hand.
    + apply Forall_app. split; [assumption|].
      apply Forall_singleton. now eexists.
    + rewrite Hlen. cbn. apply length_alter.
    + unfold push. rewrite length_app. simpl. lia.
  - (* DISCARD_DRAWN *)
    unfold discard_drawn.
    destruct (negb (bool_decide (currentPlayerId g = Some playerId)));
      [now repeat split|].
    cbn [orb]. case_bool_decide as Hheld; cbn [negb]; [|now repeat split].
    destruct Hheld as [c Hc].
    match goal with |- context [end_of_turn ?mk ?x] =>
      pose proof (end_of_turn_same_table mk x) as Hs;
      set (g1 := x) in *; set (g2 := (end_of_turn mk g1).1) in * end.
    pose proof (same_table_length _ _ Hs) as Hlen.
    destruct Hs as (H1 & H2 & H3 & H4 & H5).
    unfold tidy, held. rewrite H1, H2, H3, H4, Hlen. subst g1.
    unfold hands. cbn. rewrite Hc. repeat split.
    + exact Hh.
    + apply Forall_app. split; [assumption|].
      apply Forall_singleton. now eexists.
    + unfold push. rewrite length_app. simpl. lia.
  - (* CALL_CABO *)
    unfold call_cabo.
    destruct (negb _); [now repeat split|].
    destruct (truthy _); [now repeat split|].
    cbn [players set_turnsAfterCabo set_caboCallerId].
    destruct (find_player (players g) playerId) as [[? ?]|];
      now repeat split.
  - (* PEEK_OWN_CARD *)
    unfold peek_own_card.
    destruct (find_player (players g) playerId) as [[? ?]|];
      now repeat split.
  - (* PEEK_OPPONENT_CARD *)
    unfold peek_opponent_card.
    destruct (find_player (players g) opponentId) as [[? ?]|];
      now repeat split.
  - (* SWITCH_CARDS *)
    apply andb_true_iff in Hm as [Hi Hj].
    apply bool_decide_eq_true in Hi, Hj.
    unfold switch_cards.
    destruct (find_player (players g) playerId) as [[kp player]|] eqn:Hp;
      [|now repeat split].
    destruct (find_player (players g) opponentId) as [[ko opponent]|] eqn:Ho;
      [|now repeat split].
    apply find_player_lookup in Hp as [Hp _].
    apply find_player_lookup in Ho as [Ho _].
    assert (full_hand (cards player)) as Hfp.
    { apply (proj1 (Forall_lookup _ _) Hh kp).
      unfold hands. now rewrite list_lookup_fmap, Hp. }
    assert (full_hand (cards opponent)) as Hfo.
    { apply (proj1 (Forall_lookup _ _) Hh ko).
      unfold hands. now rewrite list_lookup_fmap, Ho. }
    destruct (array_get_full_hand _ _ Hi Hfp) as [a Ha].
    destruct (array_get_full_hand _ _ Hj Hfo) as [b Hb].
    unfold tidy, hands, held. cbn. rewrite Ha, Hb.
    rewrite (hands_alter (fun cs => array_set cs opponentCardIndex (Some a))).
    rewrite (hands_alter (fun cs => array_set cs playerCardIndex (Some b))).
    repeat split; try assumption.
    + apply Forall_alter.
      * apply Forall_alter; [exact Hh|].
        intros cs _ Hcs. now apply array_set_full_hand.
      * intros cs _ Hcs. now apply array_set_full_hand.
    + now rewrite !length_alter.
Qed.

Lemma tidy_piles_total (g : Game) :
  tidy g ->
  piles_total g =
  length (deck g) + length (discardPile g) + 4 * length (players g).
Proof.
  intros [Hh _]. unfold piles_total, hands_total.
  rewrite (sum_full_hands _ Hh). unfold hands. now rewrite length_fmap.
Qed.

(** A run of legal play requests keeps the table well formed, the
    number of players, and the number of cards on the table. *)
Lemma play_all_invariant (ms : list Request) (g : Game) :
  Forall (fun m => legal_play m = true) ms -> tidy g ->
  let g' := play_all ms g in
  tidy g' /\
  length (players g') = length (players g) /\
  piles_total g' + held g' = piles_total g + held g.
Proof.
  intros Hms. revert g. induction Hms as [|m ms Hm _ IH]; intros g Hg.
  - split; [exact Hg|split; reflexivity].
  - destruct (play_invariant m g Hm Hg) as (Ht & Hl & Hc).
    destruct (IH _ Ht) as (IH1 & IH2 & IH3).
    cbn zeta in *. unfold play_all in *. simpl.
    split; [exact IH1|split; [lia|]].
    rewrite IH3, (tidy_piles_total _ Ht), (tidy_piles_total _ Hg). lia.
Qed.

(** * Rooms of a running server *)

Lemma nonempty_length {A} (l : list A) : l <> [] <-> 0 < length l.
Proof. destruct l; simpl; split; intros; (congruence || lia). Qed.

(** A play request keeps the seats, and never puts a room back to the
    lobby; in a lobby, where nobody is to move, it leaves the held card
    and the current player unset. *)
Lemma play_room_ok (m : Request) (g : Game) :
  room_ok g -> room_ok (play m g).1.
Proof.
  intros (Hne & Hmax & Hlobby).
  assert (length (players (play m g).1) = length (players g) /\
          (state (play m g).1 = lobby ->
           state g = lobby /\
           (currentPlayerId g = None ->
            drawnCard (play m g).1 = drawnCard g /\
            currentPlayerId (play m g).1 = None))) as [Hlen Hst].
  { destruct m; cbn [play]; try now repeat split.
    - unfold draw_card. destruct (currentPlayerId g) as [x|] eqn:E.
      + destruct (negb _); [now repeat split|].
        destruct (bool_decide _); [now repeat split|].
        destruct (pop (deck g)). split; [reflexivity|].
        intros Hs. split; [exact Hs|discriminate].
      + rewrite bool_decide_eq_false_2 by discriminate. now repeat split.
    - unfold take_discard. destruct (currentPlayerId g) as [x|] eqn:E.
      + destruct (negb _); [now repeat split|].
        destruct (bool_decide _); [now repeat split|].
        destruct (pop (discardPile g)). split; [reflexivity|].
        intros Hs. split; [exact Hs|discriminate].
      + rewrite bool_decide_eq_false_2 by discriminate. now repeat split.
    - unfold replace_card. destruct (currentPlayerId g) as [x|] eqn:E.
      + destruct (_ || _); [now repeat split|].
        destruct (find_player _ _) as [[k p]|]; [|now repeat split].
        match goal with |- context [end_of_turn ?mk ?x] =>
          pose proof (same_table_length _ _ (end_of_turn_same_table mk x))
            as Hl;
          destruct (end_of_turn_state mk x) as [Hs|Hs] end;
          rewrite Hl, Hs; cbn; rewrite length_alter;
          (split; [reflexivity|]); intros Hs'; try discriminate;
          split; [exact Hs'|discriminate].
      + rewrite bool_decide_eq_false_2 by discriminate. now repeat split.
    - unfold discard_drawn. destruct (currentPlayerId g) as [x|] eqn:E.
      + destruct (_ || _); [now repeat split|].
        match goal with |- context [end_of_turn ?mk ?x] =>
          pose proof (same_table_length _ _ (end_of_turn_same_table mk x))
            as Hl;
          destruct (end_of_turn_state mk x) as [Hs|Hs] end;
          rewrite Hl, Hs; cbn;
          (split; [reflexivity|]); intros Hs'; try discriminate;
          split; [exact Hs'|discriminate].
      + rewrite bool_decide_eq_false_2 by discriminate. now repeat split.
    - unfold call_cabo. destruct (currentPlayerId g) as [x|] eqn:E.
      + destruct (negb _); [now repeat split|].
        destruct (truthy _); [now repeat split|].
        destruct (find_player _ _) as [[k p]|];
          (split; [reflexivity|]); intros Hs;
          (split; [exact Hs|discriminate]).
      + rewrite bool_decide_eq_false_2 by discriminate. now repeat split.
    - unfold peek_own_card.
      destruct (find_player _ _) as [[k p]|]; now repeat split.
    - unfold peek_opponent_card.
      destruct (find_player _ _) as [[k p]|]; now repeat split.
    - unfold switch_cards.
      destruct (find_player _ playerId) as [[kp p]|]; [|now repeat split].
      destruct (find_player _ opponentId) as [[ko o]|]; [|now repeat split].
      cbn. rewrite !length_alter. now repeat split. }
  split; [|split].
  - apply nonempty_length. rewrite Hlen. now apply nonempty_length.
  - now rewrite Hlen.
  - intros Hs. destruct (Hst Hs) as [Hs0 Hkeep].
    destruct (Hlobby Hs0) as [Hd Hcur].
    destruct (Hkeep Hcur) as [Hd' Hcur']. split; congruence.
Qed.

Lemma with_game_registry_ok S ws c missing body :
  registry_ok S ->
  (forall g, room_ok g -> room_ok (body g).1) ->
  registry_ok (with_game S ws c missing body).1.
Proof.
  intros HS Hbody c' g' Hg'. rewrite with_game_lookup in Hg'.
  case_bool_decide.
  - destruct (games S !! c) as [g|] eqn:E; [|discriminate].
    simpl in Hg'. injection Hg' as <-. apply Hbody. now apply (HS c).
  - now apply (HS c').
Qed.

Lemma start_game_room_ok rnd g : room_ok g -> room_ok (start_game rnd g).1.
Proof.
  intros (Hne & Hmax & Hlobby). unfold start_game.
  case_bool_decide; [exact (conj Hne (conj Hmax Hlobby))|].
  destruct (pop (createDeck rnd)) as [top d1].
  pose proof (deal_all_length (players g) d1) as Hl.
  destruct (deal_all (players g) d1) as [ps d2]. simpl in Hl.
  repeat split; cbn; try discriminate.
  - apply nonempty_length. rewrite Hl. now apply nonempty_length.
  - now rewrite Hl.
Qed.

Lemma join_game_room_ok playerName playerId g :
  room_ok g -> room_ok (join_game playerName playerId g).1.
Proof.
  intros (Hne & Hmax & Hlobby). unfold join_game.
  case_bool_decide; [exact (conj Hne (conj Hmax Hlobby))|].
  destruct (existsb _ _); [exact (conj Hne (conj Hmax Hlobby))|].
  repeat split; cbn; try (now apply Hlobby).
  - unfold push. now destruct (players g).
  - unfold push. rewrite length_app. simpl. lia.
Qed.

Lemma promote_room_ok g : room_ok g -> room_ok (promote g).
Proof.
  intros (Hne & Hmax & Hlobby). unfold promote.
  destruct (players g) as [|p rest] eqn:E; [congruence|].
  repeat split; cbn; try discriminate; try (now apply Hlobby).
  simpl in Hmax. exact Hmax.
Qed.

Lemma leave_registry_ok S ws ex :
  registry_ok S -> registry_ok (leave S ws ex).1.
Proof.
  intros HS. unfold leave.
  destruct (clients_get (clients S) ws) as [info|]; [|exact HS].
  destruct (games S !! client_gameCode info) as [game|] eqn:E;
    [|exact HS].
  destruct (HS _ _ E) as (Hne & Hmax & Hlobby).
  case_bool_decide as Hempty; intros c g Hg; simpl in Hg.
  - apply lookup_delete_Some in Hg as [_ Hg]. now apply (HS c).
  - apply lookup_insert_Some in Hg as [[_ <-]|[_ Hg]];
      [|now apply (HS c)].
    assert (room_ok
              (set_players
                 (filter (fun p => id p <> client_playerId info)
                    (players game)) game)) as Hok.
    { repeat split; cbn; try (now apply Hlobby).
      - intros Hnil. apply Hempty. now rewrite Hnil.
      - etransitivity; [apply length_filter|exact Hmax]. }
    case_bool_decide; [now apply promote_room_ok|exact Hok].
Qed.

(** Every handler keeps the rooms of the registry well formed. *)
Lemma handle_registry_ok r ws m S :
  registry_ok S -> registry_ok (handle r ws m S).1.
Proof.
  intros HS.
  destruct m; cbn [handle];
    try (apply with_game_registry_ok; [exact HS|]; intros g Hg).
  - (* CREATE_GAME *)
    intros c g Hg. simpl in Hg.
    apply lookup_insert_Some in Hg as [[_ <-]|[_ Hg]]; [|now apply (HS c)].
    repeat split; cbn; try discriminate. lia.
  - (* JOIN_GAME *)
    destruct (games S !! gameCode) as [game|] eqn:E; [|exact HS].
    pose proof (join_game_room_ok playerName playerId game (HS _ _ E))
      as Hok.
    destruct (join_game playerName playerId game) as [game' [| | | |]];
      try exact HS.
    intros c g Hg. simpl in Hg, Hok.
    apply lookup_insert_Some in Hg as [[_ <-]|[_ Hg]];
      [exact Hok|now apply (HS c)].
  - now apply start_game_room_ok.
  - now apply (play_room_ok (DRAW_CARD gameCode playerId)).
  - now apply (play_room_ok (TAKE_DISCARD gameCode playerId)).
  - now apply (play_room_ok (REPLACE_CARD gameCode playerId cardIndex)).
  - now apply (play_room_ok (DISCARD_DRAWN gameCode playerId)).
  - now apply (play_room_ok (CALL_CABO gameCode playerId)).
  - now apply (play_room_ok (PEEK_OWN_CARD gameCode playerId cardIndex)).
  - now apply (play_room_ok
                 (PEEK_OPPONENT_CARD gameCode playerId opponentId cardIndex)).
  - now apply (play_room_ok
                 (SWITCH_CARDS gameCode playerId opponentId
                    playerCardIndex opponentCardIndex)).
  - pose proof (leave_registry_ok S ws None HS) as H.
    now destruct (leave S ws None).
  - now apply leave_registry_ok.
  - exact HS.
Qed.

Lemma run_registry_ok S es : registry_ok S -> registry_ok (run S es).
Proof.
  revert S. induction es as [|[[r ws] m] es IH]; intros S HS; simpl.
  - exact HS.
  - apply IH. now apply handle_registry_ok.
Qed.

(** In every state the server can reach, every room is well formed. *)
Lemma reachable_registry_ok S : reachable S -> registry_ok S.
Proof.
  intros [es ->]. apply run_registry_ok.
  intros c g Hg. simpl in Hg. now rewrite lookup_empty in Hg.
Qed.

(** A run of play requests addressed to one room is the run of their
    handler bodies on its game object. *)
Lemma run_plays (c : string) (es : list Event) (S : Server) (g : Game) :
  games S !! c = Some g ->
  Forall (fun e => play_room e.2 = Some c) es ->
  games (run S es) !! c = Some (play_all (snd <$> es) g).
Proof.
  intros Hg Hes. revert S g Hg.
  induction Hes as [|[[r ws] m] es Hm _ IH]; intros S g Hg; simpl.
  - exact Hg.
  - apply IH. unfold step. cbn [fst snd].
    rewrite (handle_play r ws m S c c Hm), Hg.
    now rewrite bool_decide_eq_true_2.
Qed.

(** * Card conservation and hand size *)

(** From the deal on, legal play keeps all 52 cards on the table, the
    held card included, and keeps every hand at four slots. *)
Lemma play_from_start (rnd : nat -> nat) (g : Game) (ms : list Request) :
  2 <= length (players g) <= 8 ->
  Forall (fun m => legal_play m = true) ms ->
  let g' := play_all ms (start_game rnd g).1 in
  tidy g' /\ piles_total g' + held g' = 52 + held g.
Proof.
  intros Hn Hms.
  destruct (start_game_deals rnd g) as (Ht & _ & Hd & Hl & Hc); [lia|].
  destruct (play_all_invariant ms _ Hms Ht) as (Ht' & _ & Hp).
  cbn zeta in *. split; [exact Ht'|].
  rewrite Hp, (tidy_piles_total _ Ht). unfold held. rewrite Hd. lia.
Qed.

(** The room [c] after a START_GAME and a run of legal play requests
    addressed to it. *)
Lemma run_from_start (S : Server) (c : string) (g : Game) (r : Random)
  (ws : Conn) (es : list Event) :
  games S !! c = Some g ->
  Forall (plays_in c) es ->
  games (run S ((r, ws, START_GAME c) :: es)) !! c
  = Some (play_all (snd <$> es) (start_game (randomIndex r) g).1) /\
  Forall (fun m => legal_play m = true) (snd <$> es).
Proof.
  intros Hg Hes. split.
  - simpl. apply run_plays.
    + unfold step. cbn [fst snd handle].
      now apply with_game_changed.
    + eapply Forall_impl; [exact Hes|]. now intros e [He _].
  - rewrite Forall_fmap. eapply Forall_impl; [exact Hes|].
    now intros e [_ He].
Qed.

(** C2, counterexample. Once Ann has drawn and holds the card, the deck,
    the discard pile and the hands of the playing session add up to 51:
    the held card is on none of them.  Besides, the piles of a room in
    the lobby are empty, and when Bob leaves the started game his four
    cards leave the table with him. *)
Lemma held_card_is_outside_the_piles :
  let S := run emptyServer demo_held in
  ((state <$> games S !! room) = Some playing /\
   (drawnCard <$> games S !! room) = Some (Some (mkCard Clubs VA)) /\
   (piles_total <$> games S !! room) = Some 51) /\
  (piles_total <$> games (run emptyServer demo_lobby) !! room) = Some 0 /\
  (piles_total <$>
     games (run emptyServer (demo_started ++ [(demo_random, 2, LEAVE_GAME)]))
       !! room) = Some 48.
Proof. vm_compute. repeat split. Qed.

(** C2, as the code has it. Take a room in the lobby of a server state
    that can be reached, with at least 2 players, and let a START_GAME
    and any run of play requests follow whose slot indices name one of
    the four hand slots.  After every such run the deck, the discard
    pile and the hands add up to 52 when no card is held and to 51
    while one is: counted with the held card, the 52 cards are
    conserved. *)
Theorem cards_conserved_with_held_card
  (S : Server) (c : string) (g : Game) (r : Random) (ws : Conn)
  (es : list Event) :
  reachable S ->
  games S !! c = Some g ->
  state g = lobby ->
  2 <= length (players g) ->
  Forall (plays_in c) es ->
  exists g',
    games (run S ((r, ws, START_GAME c) :: es)) !! c = Some g' /\
    piles_total g' + held g' = 52 /\
    piles_total g' = match drawnCard g' with Some _ => 51 | None => 52 end.
Proof.
  intros HS Hg Hlobby Hn Hes.
  destruct (reachable_registry_ok S HS c g Hg) as (_ & Hmax & Hl).
  destruct (Hl Hlobby) as [Hheld _].
  destruct (run_from_start S c g r ws es Hg Hes) as [Hrun Hms].
  destruct (play_from_start (randomIndex r) g (snd <$> es)) as [_ Hsum];
    [lia|exact Hms|].
  eexists. split; [exact Hrun|].
  unfold held in Hsum at 2. rewrite Hheld in Hsum.
  split; [lia|]. unfold held in Hsum.
  destruct (drawnCard (play_all (snd <$> es) _)); lia.
Qed.

(** C2, witness: Ann starts the example room and draws. *)
Lemma cards_conserved_with_held_card_witness :
  exists g',
    games (run (run emptyServer demo_lobby)
             [(demo_random, 1, START_GAME room);
              (demo_random, 1, DRAW_CARD room "p1")]) !! room = Some g' /\
    piles_total g' + held g' = 52 /\
    piles_total g' = match drawnCard g' with Some _ => 51 | None => 52 end.
Proof.
  refine (cards_conserved_with_held_card (run emptyServer demo_lobby) room
            (demo_game demo_lobby) demo_random 1
            [(demo_random, 1, DRAW_CARD room "p1")] _ _ _ _ _).
  - now exists demo_lobby.
  - vm_compute. reflexivity.
  - reflexivity.
  - vm_compute. lia.
  - repeat constructor.
Defined.

(** C7, counterexample. Ann, holding a drawn card, replaces slot 6 of
    her hand: the session is still playing and her hand has 7 slots.
    So does a switch: naming slot 5 of Bob's hand makes it 6 slots long.
    And Cat, who joins the game after its start, sits with no slot at
    all. *)
Lemma replace_card_out_of_range_grows_hand :
  let hand_sizes es :=
    (fun g => (state g, length <$> hands g))
      <$> games (run emptyServer es) !! room in
  hand_sizes (demo_held ++ [(demo_random, 1, REPLACE_CARD room "p1" 6)])
  = Some (playing, [7; 4]) /\
  hand_sizes
    (demo_started ++ [(demo_random, 1, SWITCH_CARDS room "p1" "p2" 1 5)])
  = Some (playing, [4; 6]) /\
  hand_sizes (demo_started ++ [(demo_random, 3, JOIN_GAME "cat" "p3" room)])
  = Some (playing, [4; 4; 0]).
Proof. vm_compute. repeat split. Qed.

(** * The finished state *)

Lemma play_keeps_finished (m : Request) (g : Game) :
  state g = finished -> state (play m g).1 = finished.
Proof.
  intros H. destruct m; cbn [play]; try exact H.
  - unfold draw_card. destruct (negb _); [exact H|].
    case_bool_decide; [exact H|]. now destruct (pop (deck g)).
  - unfold take_discard. destruct (negb _); [exact H|].
    case_bool_decide; [exact H|]. now destruct (pop (discardPile g)).
  - unfold replace_card. destruct (_ || _); [exact H|].
    destruct (find_player _ _) as [[k p]|]; [|exact H].
    now apply end_of_turn_keeps_finished.
  - unfold discard_drawn. destruct (_ || _); [exact H|].
    now apply end_of_turn_keeps_finished.
  - unfold call_cabo. destruct (negb _); [exact H|].
    destruct (truthy _); [exact H|].
    now destruct (find_player _ _) as [[k p]|].
  - unfold peek_own_card. now destruct (find_player _ _) as [[k p]|].
  - unfold peek_opponent_card. now destruct (find_player _ _) as [[k p]|].
  - unfold switch_cards.
    destruct (find_player _ playerId) as [[kp p]|]; [|exact H].
    now destruct (find_player _ opponentId) as [[ko o]|].
Qed.

Lemma promote_state g : state (promote g) = state g.
Proof. unfold promote. now destruct (players g). Qed.

Lemma leave_keeps_state S ws ex c g :
  games S !! c = Some g ->
  games (leave S ws ex).1 !! c = None \/
  state <$> games (leave S ws ex).1 !! c = Some (state g).
Proof.
  intros Hg. unfold leave.
  destruct (clients_get (clients S) ws) as [info|]; simpl.
  2: { right. now rewrite Hg. }
  destruct (games S !! client_gameCode info) as [game|] eqn:E; simpl.
  2: { right. now rewrite Hg. }
  destruct (decide (c = client_gameCode info)) as [->|Hne].
  - assert (game = g) as -> by congruence.
    case_bool_decide; simpl.
    + left. apply lookup_delete_eq.
    + right. rewrite lookup_insert_eq. simpl. f_equal.
      case_bool_decide; [rewrite promote_state|]; reflexivity.
  - right. case_bool_decide; simpl.
    + rewrite lookup_delete_ne by congruence. now rewrite Hg.
    + rewrite lookup_insert_ne by congruence. now rewrite Hg.
Qed.

(** C3, counterexample. The example session has reached the finished
    state; a START_GAME for its room puts it back to playing. *)
Lemma start_game_reopens_finished_session :
  let S := run emptyServer demo_finished in
  (state <$> games S !! room) = Some finished /\
  (state <$> games (step S (demo_random, 1, START_GAME room)) !! room)
  = Some playing.
Proof. vm_compute. repeat split. Qed.

(** C3, as the code has it. A finished session stays finished under
    every request except a START_GAME for its room, which deals again
    and resumes play, and a CREATE_GAME whose drawn code is the code of
    its room, which replaces it; a leave or disconnect of its last
    player removes it from the registry. *)
Theorem finished_left_only_by_start_or_create
  (r : Random) (ws : Conn) (m : Request) (S : Server) (c : string)
  (g : Game) :
  games S !! c = Some g ->
  state g = finished ->
  m <> START_GAME c ->
  (forall playerName playerId,
      m = CREATE_GAME playerName playerId -> randomCode r <> c) ->
  games (handle r ws m S).1 !! c = None \/
  state <$> games (handle r ws m S).1 !! c = Some finished.
Proof.
  intros Hg Hfin Hstart Hcreate.
  assert (forall c0, play_room m = Some c0 ->
            state <$> games (handle r ws m S).1 !! c = Some finished)
    as Hplay.
  { intros c0 Hc0. rewrite (handle_play r ws m S c0 c Hc0).
    case_bool_decide as E.
    - subst c0. rewrite Hg. simpl. f_equal.
      now apply play_keeps_finished.
    - now rewrite Hg, <- Hfin. }
  destruct m; try (right; now apply (Hplay gameCode)).
  - (* CREATE_GAME *)
    right. simpl. rewrite lookup_insert_ne.
    + now rewrite Hg, <- Hfin.
    + now apply (Hcreate playerName playerId).
  - (* JOIN_GAME *)
    right. simpl.
    destruct (games S !! gameCode) as [game|] eqn:E; simpl.
    2: now rewrite Hg, <- Hfin.
    unfold join_game. case_bool_decide; simpl.
    1: now rewrite Hg, <- Hfin.
    destruct (existsb _ _); simpl.
    1: now rewrite Hg, <- Hfin.
    destruct (decide (c = gameCode)) as [->|Hne].
    + rewrite lookup_insert_eq. simpl.
      assert (game = g) as -> by congruence. now rewrite Hfin.
    + rewrite lookup_insert_ne by congruence. now rewrite Hg, <- Hfin.
  - (* START_GAME *)
    right. simpl. rewrite with_game_lookup.
    rewrite bool_decide_eq_false_2 by congruence.
    now rewrite Hg, <- Hfin.
  - (* LEAVE_GAME *)
    simpl. destruct (leave_keeps_state S ws None c g Hg) as [H|H];
      destruct (leave S ws None) as [S' out]; simpl in *;
      [now left|right; now rewrite H, Hfin].
  - (* Close *)
    simpl. destruct (leave_keeps_state S ws (Some ws) c g Hg) as [H|H];
      [now left|right; now rewrite H, Hfin].
  - (* Unknown *)
    right. simpl. now rewrite Hg, <- Hfin.
Qed.

(** C3, witness: a DRAW_CARD on the finished example session. *)
Lemma finished_left_only_by_start_or_create_witness :
  let S := run emptyServer demo_finished in
  games (handle demo_random 2 (DRAW_CARD room "p2") S).1 !! room = None \/
  state <$> games (handle demo_random 2 (DRAW_CARD room "p2") S).1 !! room
  = Some finished.
Proof.
  eapply (finished_left_only_by_start_or_create demo_random 2
            (DRAW_CARD room "p2") (run emptyServer demo_finished) room).
  - vm_compute. reflexivity.
  - reflexivity.
  - discriminate.
  - discriminate.
Defined.

(** * Acquire and resolve guards *)

(** C4, counterexample. A REPLACE_CARD naming Bob while Ann holds the
    drawn card, and a REPLACE_CARD naming Ann while no card is held, get
    one and the same reply, which is not the "Not your turn" that a
    DRAW_CARD naming Bob gets: the reply to a rejected resolve does not
    tell a missing held card from a wrong turn. *)
Lemma resolve_rejections_share_one_error :
  let wrong_turn :=
    (handle demo_random 2 (REPLACE_CARD room "p2" 0)
       (run emptyServer demo_held)).2 in
  let no_held_card :=
    (handle demo_random 2 (REPLACE_CARD room "p1" 0)
       (run emptyServer demo_started)).2 in
  wrong_turn = [(2, ERROR "Invalid action")] /\
  no_held_card = wrong_turn /\
  (handle demo_random 2 (DRAW_CARD room "p2")
     (run emptyServer demo_held)).2 = [(2, ERROR "Not your turn")] /\
  (handle demo_random 2 (DISCARD_DRAWN room "p2")
     (run emptyServer demo_held)).2 = wrong_turn.
Proof. vm_compute. repeat split. Qed.

(** C4, as the code has it. On a session found under the room code, a
    DRAW_CARD or TAKE_DISCARD is rejected with "Not your turn" when the
    requester is not the current player and with "Already drew a card
    this turn" when the current player already holds a card; otherwise
    it pops the top of the deck (of the discard pile) into the held
    card.  A REPLACE_CARD or DISCARD_DRAWN is rejected with the single
    error "Invalid action" when the requester is not the current player
    or no card is held.  Every rejection leaves the server state
    unchanged. *)
Theorem acquire_and_resolve_guards
  (r : Random) (ws : Conn) (c playerId : string) (S : Server) (g : Game) :
  games S !! c = Some g ->
  (currentPlayerId g <> Some playerId ->
   handle r ws (DRAW_CARD c playerId) S
   = (S, [(ws, ERROR "Not your turn")]) /\
   handle r ws (TAKE_DISCARD c playerId) S
   = (S, [(ws, ERROR "Not your turn")])) /\
  (currentPlayerId g = Some playerId -> is_Some (drawnCard g) ->
   handle r ws (DRAW_CARD c playerId) S
   = (S, [(ws, ERROR "Already drew a card this turn")]) /\
   handle r ws (TAKE_DISCARD c playerId) S
   = (S, [(ws, ERROR "Already drew a card this turn")])) /\
  (currentPlayerId g = Some playerId -> drawnCard g = None ->
   (forall d top, deck g = d ++ [top] ->
      games (handle r ws (DRAW_CARD c playerId) S).1 !! c
      = Some (set_drawnCard (Some top) (set_deck d g))) /\
   (forall d top, discardPile g = d ++ [top] ->
      games (handle r ws (TAKE_DISCARD c playerId) S).1 !! c
      = Some (set_drawnCard top (set_discardPile d g)))) /\
  (currentPlayerId g <> Some playerId \/ drawnCard g = None ->
   (forall cardIndex,
      handle r ws (REPLACE_CARD c playerId cardIndex) S
      = (S, [(ws, ERROR "Invalid action")])) /\
   handle r ws (DISCARD_DRAWN c playerId) S
   = (S, [(ws, ERROR "Invalid action")])).
Proof.
  intros Hg. split; [|split; [|split]].
  - intros Hturn. split; simpl;
      apply (with_game_unchanged _ _ _ _ _ g (Reply (ERROR "Not your turn")));
      try assumption.
    + unfold draw_card. now rewrite bool_decide_eq_false_2.
    + unfold take_discard. now rewrite bool_decide_eq_false_2.
  - intros Hturn Hheld. split; simpl;
      apply (with_game_unchanged _ _ _ _ _ g
               (Reply (ERROR "Already drew a card this turn")));
      try assumption.
    + unfold draw_card.
      now rewrite bool_decide_eq_true_2, bool_decide_eq_true_2.
    + unfold take_discard.
      now rewrite bool_decide_eq_true_2, bool_decide_eq_true_2.
  - intros Hturn Hheld. split; intros d top Hd; simpl;
      rewrite (with_game_changed _ _ _ _ _ g Hg); f_equal.
    + unfold draw_card. rewrite bool_decide_eq_true_2 by assumption.
      rewrite bool_decide_eq_false_2.
      * now rewrite Hd, pop_snoc.
      * rewrite Hheld. now intros [? ?].
    + unfold take_discard. rewrite bool_decide_eq_true_2 by assumption.
      rewrite bool_decide_eq_false_2.
      * now rewrite Hd, pop_snoc.
      * rewrite Hheld. now intros [? ?].
  - intros Hbad.
    assert (negb (bool_decide (currentPlayerId g = Some playerId))
            || negb (bool_decide (is_Some (drawnCard g))) = true) as E.
    { destruct Hbad as [Hturn|Hheld].
      - now rewrite bool_decide_eq_false_2.
      - rewrite (bool_decide_eq_false_2 (is_Some _)).
        + apply orb_true_r.
        + rewrite Hheld. now intros [? ?]. }
    split; [intros cardIndex|]; simpl;
      apply (with_game_unchanged _ _ _ _ _ g
               (Reply (ERROR "Invalid action")));
      try assumption.
    + unfold replace_card. now rewrite E.
    + unfold discard_drawn. now rewrite E.
Qed.

(** C4, witness: the four cases on the example session. *)
Lemma acquire_and_resolve_guards_witness :
  let S0 := run emptyServer demo_started in
  let S1 := run emptyServer demo_held in
  handle demo_random 2 (DRAW_CARD room "p2") S1
  = (S1, [(2, ERROR "Not your turn")]) /\
  handle demo_random 1 (TAKE_DISCARD room "p1") S1
  = (S1, [(1, ERROR "Already drew a card this turn")]) /\
  games (handle demo_random 1 (DRAW_CARD room "p1") S0).1 !! room
  = Some (set_drawnCard (Some (mkCard Clubs VA))
            (set_deck (removelast (deck (demo_game demo_started)))
               (demo_game demo_started))) /\
  games (handle demo_random 1 (TAKE_DISCARD room "p1") S0).1 !! room
  = Some (set_drawnCard (Some (mkCard Clubs V10))
            (set_discardPile [] (demo_game demo_started))) /\
  handle demo_random 1 (REPLACE_CARD room "p1" 0) S0
  = (S0, [(1, ERROR "Invalid action")]).
Proof.
  cbn zeta.
  assert (games (run emptyServer demo_held) !! room
          = Some (demo_game demo_held)) as G1
    by (vm_compute; reflexivity).
  assert (games (run emptyServer demo_started) !! room
          = Some (demo_game demo_started)) as G0
    by (vm_compute; reflexivity).
  pose proof (acquire_and_resolve_guards demo_random 2 room "p2" _ _ G1)
    as A.
  pose proof (acquire_and_resolve_guards demo_random 1 room "p1" _ _ G1)
    as B.
  pose proof (acquire_and_resolve_guards demo_random 1 room "p1" _ _ G0)
    as C.
  split; [|split; [|split; [|split]]].
  - refine (proj1 (proj1 A _)). vm_compute. discriminate.
  - refine (proj2 (proj1 (proj2 B) _ _)); vm_compute;
      [reflexivity|now eexists].
  - refine (proj1 (proj1 (proj2 (proj2 C)) _ _) _ _ _); vm_compute;
      reflexivity.
  - refine (proj2 (proj1 (proj2 (proj2 C)) _ _) [] _ _); vm_compute;
      reflexivity.
  - refine (proj1 (proj2 (proj2 (proj2 C)) _) 0).
    right. vm_compute. reflexivity.
Defined.

(** * Acquiring from an empty pile *)

Lemma rejected_broadcast cl ws c m :
  is_error m = false -> rejected (emit cl ws c (Broadcast m)) = false.
Proof.
  intros Hm. unfold rejected, emit. rewrite existsb_app. simpl.
  rewrite Hm, !orb_false_r. unfold broadcast.
  induction cl as [|[k i] cl IH]; simpl; [reflexivity|].
  destruct (_ && _); simpl; [now rewrite Hm|exact IH].
Qed.

Lemma game_eta_piles_deck (g : Game) :
  deck g = [] -> drawnCard g = None ->
  set_drawnCard None (set_deck [] g) = g.
Proof. destruct g. simpl. now intros -> ->. Qed.

Lemma game_eta_piles_discard (g : Game) :
  discardPile g = [] -> drawnCard g = None ->
  set_drawnCard None (set_discardPile [] g) = g.
Proof. destruct g. simpl. now intros -> ->. Qed.

(** The current player who holds no card is never refused an acquire. *)
Lemma acquire_accepted r ws c playerId S g :
  games S !! c = Some g ->
  currentPlayerId g = Some playerId -> drawnCard g = None ->
  rejected (handle r ws (DRAW_CARD c playerId) S).2 = false /\
  rejected (handle r ws (TAKE_DISCARD c playerId) S).2 = false.
Proof.
  intros Hg Hturn Hheld.
  assert (~ is_Some (drawnCard g)) as Hn
    by (rewrite Hheld; now intros [? ?]).
  split; simpl; unfold with_game; rewrite Hg.
  - unfold draw_card. rewrite bool_decide_eq_true_2 by assumption.
    rewrite bool_decide_eq_false_2 by assumption. simpl.
    destruct (pop (deck g)) as [card d]. now apply rejected_broadcast.
  - unfold take_discard. rewrite bool_decide_eq_true_2 by assumption.
    rewrite bool_decide_eq_false_2 by assumption. simpl.
    destruct (pop (discardPile g)) as [card d].
    now apply rejected_broadcast.
Qed.

(** C10. When the current player, holding no card, sends DRAW_CARD on
    an empty deck (TAKE_DISCARD on an empty discard pile), no error is
    sent: the pop yields no card, the held card stays unset and the
    whole server state, piles and hands included, is as before; a
    CARD_DRAWN message without a card goes to every connection of the
    room and to the requester; and a further DRAW_CARD or TAKE_DISCARD
    of that player is again not refused. *)
Theorem acquire_from_empty_pile
  (r : Random) (ws : Conn) (c playerId : string) (S : Server) (g : Game) :
  games S !! c = Some g ->
  currentPlayerId g = Some playerId ->
  drawnCard g = None ->
  let sent := broadcast (clients S) c (CARD_DRAWN g None playerId) None
              ++ [(ws, CARD_DRAWN g None playerId)] in
  (deck g = [] ->
   handle r ws (DRAW_CARD c playerId) S = (S, sent) /\
   rejected sent = false /\
   forall r' ws',
     let S' := (handle r ws (DRAW_CARD c playerId) S).1 in
     rejected (handle r' ws' (DRAW_CARD c playerId) S').2 = false /\
     rejected (handle r' ws' (TAKE_DISCARD c playerId) S').2 = false) /\
  (discardPile g = [] ->
   handle r ws (TAKE_DISCARD c playerId) S = (S, sent) /\
   rejected sent = false /\
   forall r' ws',
     let S' := (handle r ws (TAKE_DISCARD c playerId) S).1 in
     rejected (handle r' ws' (DRAW_CARD c playerId) S').2 = false /\
     rejected (handle r' ws' (TAKE_DISCARD c playerId) S').2 = false).
Proof.
  intros Hg Hturn Hheld sent.
  assert (~ is_Some (drawnCard g)) as Hn
    by (rewrite Hheld; now intros [? ?]).
  assert (rejected sent = false) as Hsent
    by now apply (rejected_broadcast (clients S) ws c).
  split; intros Hempty.
  - assert (handle r ws (DRAW_CARD c playerId) S = (S, sent)) as E.
    { simpl.
      apply (with_game_unchanged _ _ _ _ _ g
               (Broadcast (CARD_DRAWN g None playerId)) Hg).
      unfold draw_card. rewrite bool_decide_eq_true_2 by assumption.
      rewrite bool_decide_eq_false_2 by assumption. cbn [negb].
      rewrite Hempty, pop_nil.
      now rewrite (game_eta_piles_deck g Hempty Hheld). }
    split; [exact E|]. split; [exact Hsent|].
    intros r' ws'. rewrite E. cbn zeta. simpl fst.
    now apply (acquire_accepted r' ws' c playerId S g).
  - assert (handle r ws (TAKE_DISCARD c playerId) S = (S, sent)) as E.
    { simpl.
      apply (with_game_unchanged _ _ _ _ _ g
               (Broadcast (CARD_DRAWN g None playerId)) Hg).
      unfold take_discard. rewrite bool_decide_eq_true_2 by assumption.
      rewrite bool_decide_eq_false_2 by assumption. cbn [negb].
      rewrite Hempty, pop_nil. cbn [mjoin option_join].
      now rewrite (game_eta_piles_discard g Hempty Hheld). }
    split; [exact E|]. split; [exact Hsent|].
    intros r' ws'. rewrite E. cbn zeta. simpl fst.
    now apply (acquire_accepted r' ws' c playerId S g).
Qed.

(** C10, witness: Bob draws from the exhausted deck of the example
    session, and Ann takes from the emptied discard pile. *)
Lemma acquire_from_empty_pile_witness :
  let S := run emptyServer demo_exhausted in
  let g := demo_game demo_exhausted in
  let sent := [(1, CARD_DRAWN g None "p2"); (2, CARD_DRAWN g None "p2");
               (2, CARD_DRAWN g None "p2")] in
  (handle demo_random 2 (DRAW_CARD room "p2") S = (S, sent) /\
   rejected sent = false /\
   rejected (handle demo_random 2 (TAKE_DISCARD room "p2")
               (handle demo_random 2 (DRAW_CARD room "p2") S).1).2
   = false) /\
  (handle demo_random 1 (TAKE_DISCARD room "p1") demo_no_discard).1
  = demo_no_discard.
Proof.
  cbn zeta.
  assert (games (run emptyServer demo_exhausted) !! room
          = Some (demo_game demo_exhausted)) as G
    by (vm_compute; reflexivity).
  assert (games demo_no_discard !! room
          = Some (set_discardPile [] (demo_game demo_started))) as G'
    by (vm_compute; reflexivity).
  pose proof (acquire_from_empty_pile demo_random 2 room "p2" _ _ G) as A.
  pose proof (acquire_from_empty_pile demo_random 1 room "p1" _ _ G') as B.
  cbn zeta in A, B.
  assert (currentPlayerId (demo_game demo_exhausted) = Some "p2") as H1
    by (vm_compute; reflexivity).
  assert (drawnCard (demo_game demo_exhausted) = None) as H2
    by (vm_compute; reflexivity).
  assert (deck (demo_game demo_exhausted) = []) as H3
    by (vm_compute; reflexivity).
  destruct (proj1 (A H1 H2) H3) as (A1 & A2 & A3).
  split; [split; [|split]|].
  - exact A1.
  - exact A2.
  - exact (proj2 (A3 demo_random 2)).
  - refine (f_equal fst (proj1 (proj2 (B _ _) _))); vm_compute; reflexivity.
Defined.

(** * Switching cards *)

Lemma seat_alter (f : list Slot -> list Slot) (k : nat)
  (ps : list Player) :
  seat <$> alter (fun p => set_cards (f (cards p)) p) k ps = seat <$> ps.
Proof.
  rewrite (list_fmap_alter seat _ (fun p => p)).
  - now rewrite list_alter_id.
  - now apply Forall_forall.
Qed.

(** C8. A SWITCH_CARDS request that names two players of the room and
    a slot of each, sent over any connection and whatever the turn,
    exchanges what the two named slots hold and changes nothing else:
    every other slot reads as before, every player keeps id, name, host
    flag and score, and the game keeps its deck, discard pile, held
    card, state, turn index, current player, Cabo caller, Cabo
    countdown and every other field; the room is sent the snapshot.
    When the two indices name existing slots every hand also keeps its
    number of slots. *)
Theorem switch_cards_exchanges_two_slots
  (r : Random) (ws : Conn) (c playerId opponentId : string) (i j : nat)
  (S : Server) (g : Game) (kp ko : nat) (player opponent : Player) :
  games S !! c = Some g ->
  find_player (players g) playerId = Some (kp, player) ->
  find_player (players g) opponentId = Some (ko, opponent) ->
  exists g',
    handle r ws (SWITCH_CARDS c playerId opponentId i j) S
    = (mkServer (<[c := g']> (games S)) (clients S),
       broadcast (clients S) c (CARDS_SWITCHED g') None
       ++ [(ws, CARDS_SWITCHED g')]) /\
    (forall q k,
        slot g' q k =
        if bool_decide ((q, k) = (ko, j)) then slot g kp i
        else if bool_decide ((q, k) = (kp, i)) then slot g ko j
        else slot g q k) /\
    (i < length (cards player) -> j < length (cards opponent) ->
     length <$> hands g' = length <$> hands g) /\
    seat <$> players g' = seat <$> players g /\
    deck g' = deck g /\
    discardPile g' = discardPile g /\
    drawnCard g' = drawnCard g /\
    state g' = state g /\
    currentTurn g' = currentTurn g /\
    currentPlayerId g' = currentPlayerId g /\
    caboCallerId g' = caboCallerId g /\
    turnsAfterCabo g' = turnsAfterCabo g /\
    set_players [] g' = set_players [] g.
Proof.
  intros Hg Hp Ho.
  cbn [handle]. unfold with_game, switch_cards. rewrite Hg, Hp, Ho.
  eexists. split; [reflexivity|].
  apply find_player_lookup in Hp as [Hp _].
  apply find_player_lookup in Ho as [Ho _].
  assert (hands g !! kp = Some (cards player)) as Hhp
    by (unfold hands; now rewrite list_lookup_fmap, Hp).
  assert (hands g !! ko = Some (cards opponent)) as Hho
    by (unfold hands; now rewrite list_lookup_fmap, Ho).
  split; [|split; [|split; [|now repeat split]]].
  - intros q k. unfold slot at 1. unfold hands at 1.
    cbn [players set_players].
    rewrite (hands_alter (fun cs => array_set cs j
                                      (array_get (cards player) i))).
    rewrite (hands_alter (fun cs => array_set cs i
                                      (array_get (cards opponent) j))).
    fold (hands g). rewrite !list_lookup_alter.
    unfold slot. rewrite Hhp, Hho. cbn [default from_option Datatypes.id].
    destruct (decide (ko = q)) as [<-|Hq1].
    + destruct (decide (kp = ko)) as [->|Hq2].
      * (* one hand *)
        assert (player = opponent) as -> by congruence.
        rewrite Hhp.
        cbn [fmap option_fmap option_map default from_option Datatypes.id].
        rewrite !array_get_set.
        repeat case_bool_decide; simplify_eq; reflexivity || congruence.
      * rewrite Hho.
        cbn [fmap option_fmap option_map default from_option Datatypes.id].
        rewrite array_get_set.
        repeat case_bool_decide; simplify_eq; reflexivity || congruence.
    + destruct (decide (kp = q)) as [<-|Hq2].
      * rewrite Hhp.
        cbn [fmap option_fmap option_map default from_option Datatypes.id].
        rewrite array_get_set.
        repeat case_bool_decide; simplify_eq; reflexivity || congruence.
      * repeat case_bool_decide; simplify_eq; reflexivity || congruence.
  - intros Hi Hj. unfold hands. cbn [players set_players].
    rewrite (hands_alter (fun cs => array_set cs j
                                      (array_get (cards player) i))).
    rewrite (hands_alter (fun cs => array_set cs i
                                      (array_get (cards opponent) j))).
    fold (hands g).
    apply list_eq. intros q. rewrite !list_lookup_fmap, !list_lookup_alter.
    destruct (decide (ko = q)) as [<-|Hq1].
    + destruct (decide (kp = ko)) as [->|Hq2].
      * assert (player = opponent) as -> by congruence.
        rewrite Hhp. cbn.
        rewrite array_set_length by (rewrite array_set_length; lia).
        now rewrite array_set_length.
      * rewrite Hho. cbn. now rewrite array_set_length.
    + destruct (decide (kp = q)) as [<-|Hq2]; [|reflexivity].
      rewrite Hhp. cbn. now rewrite array_set_length.
  - cbn [players set_players].
    rewrite (seat_alter (fun cs => array_set cs j
                                     (array_get (cards player) i))).
    now rewrite (seat_alter
                   (fun cs => array_set cs i
                                (array_get (cards opponent) j))).
Qed.

(** A SWITCH_CARDS that names somebody who is not seated raises before
    any write: nothing changes and nothing is sent. *)
Lemma switch_cards_unknown_player
  (r : Random) (ws : Conn) (c playerId opponentId : string) (i j : nat)
  (S : Server) (g : Game) :
  games S !! c = Some g ->
  find_player (players g) playerId = None \/
  find_player (players g) opponentId = None ->
  handle r ws (SWITCH_CARDS c playerId opponentId i j) S = (S, []).
Proof.
  intros Hg Hnone. cbn [handle].
  apply (with_game_unchanged _ _ _ _ _ g Thrown Hg).
  unfold switch_cards. destruct Hnone as [-> | ->]; [reflexivity|].
  now destruct (find_player (players g) playerId) as [[? ?]|].
Qed.

(** C8, witness: Bob's connection switches his first card with Ann's
    last one while it is Ann's turn. *)
Lemma switch_cards_exchanges_two_slots_witness :
  let S := run emptyServer demo_started in
  let g := demo_game demo_started in
  exists g',
    handle demo_random 2 (SWITCH_CARDS room "p2" "p1" 0 3) S
    = (mkServer (<[room := g']> (games S)) (clients S),
       broadcast (clients S) room (CARDS_SWITCHED g') None
       ++ [(2, CARDS_SWITCHED g')]) /\
    (forall q k,
        slot g' q k =
        if bool_decide ((q, k) = (0, 3)) then slot g 1 0
        else if bool_decide ((q, k) = (1, 0)) then slot g 0 3
        else slot g q k) /\
    length <$> hands g' = length <$> hands g /\
    seat <$> players g' = seat <$> players g /\
    deck g' = deck g /\
    discardPile g' = discardPile g /\
    drawnCard g' = drawnCard g /\
    state g' = state g /\
    currentTurn g' = currentTurn g /\
    currentPlayerId g' = currentPlayerId g /\
    caboCallerId g' = caboCallerId g /\
    turnsAfterCabo g' = turnsAfterCabo g /\
    set_players [] g' = set_players [] g.
Proof.
  cbn zeta.
  assert (games (run emptyServer demo_started) !! room
          = Some (demo_game demo_started)) as G
    by (vm_compute; reflexivity).
  destruct (switch_cards_exchanges_two_slots demo_random 2 room "p2" "p1"
              0 3 (run emptyServer demo_started) (demo_game demo_started)
              1 0
              (default (newPlayer "" "" false)
                 (players (demo_game demo_started) !! 1))
              (default (newPlayer "" "" false)
                 (players (demo_game demo_started) !! 0))
              G)
    as (g' & Hsent & Hslots & Hsizes & Hrest);
    [vm_compute; reflexivity|vm_compute; reflexivity|].
  exists g'. split; [exact Hsent|]. split; [exact Hslots|].
  split; [|exact Hrest].
  apply Hsizes; vm_compute; lia.
Defined.

(** * The deck *)

Lemma swap_Permutation (d : list Card) (i j : nat) : swap d i j ≡ₚ d.
Proof.
  unfold swap. destruct (d !! i) as [a|] eqn:Hi; [|reflexivity].
  destruct (d !! j) as [b|] eqn:Hj; [|reflexivity].
  now apply Permutation_insert_swap.
Qed.

Lemma shuffle_Permutation (rnd : nat -> nat) (i : nat) (d : list Card) :
  shuffle rnd i d ≡ₚ d.
Proof.
  revert d. induction i as [|i IH]; intros d; simpl; [reflexivity|].
  now rewrite IH, swap_Permutation.
Qed.

Lemma orderedDeck_complete (c : Card) : c ∈ orderedDeck.
Proof.
  destruct c as [[] []]; apply (bool_decide_unpack _); vm_compute;
    exact I.
Qed.

Lemma orderedDeck_NoDup : NoDup orderedDeck.
Proof. apply (bool_decide_unpack _). vm_compute. exact I. Qed.

(** X1. Whatever the random draws, [createDeck] returns the 52 cards of
    the ordered deck in some order: every suit and value pair is in the
    deck, and none is there twice. *)
Theorem createDeck_is_full_deck (rnd : nat -> nat) :
  createDeck rnd ≡ₚ orderedDeck /\
  length (createDeck rnd) = 52 /\
  NoDup (createDeck rnd) /\
  forall c : Card, c ∈ createDeck rnd.
Proof.
  assert (createDeck rnd ≡ₚ orderedDeck) as Hp
    by apply shuffle_Permutation.
  split; [exact Hp|]. split; [apply length_createDeck|]. split.
  - rewrite Hp. apply orderedDeck_NoDup.
  - intros c. rewrite Hp. apply orderedDeck_complete.
Qed.

(** * Scoring arrays with holes and undefined elements *)

Lemma calculateScore_from_slots (cs : list Slot) (total : Z) :
  calculateScore_from total cs =
  if has_undefined cs then None
  else Some (total + foldr Z.add 0 (cardScore <$> cards_in cs))%Z.
Proof.
  revert total. induction cs as [|[|[c|]] cs IH]; intros total; simpl.
  - f_equal. lia.
  - rewrite IH. now destruct (has_undefined cs).
  - rewrite IH. unfold cards_in. csimpl.
    destruct (has_undefined cs); [reflexivity|]. f_equal.
    change (list_fmap Card Z cardScore) with (fmap (M:=list) cardScore).
    lia.
  - reflexivity.
Qed.

(** X2. [calculateScore] raises exactly when the array holds an
    explicit undefined element; otherwise it skips the holes and
    returns the sum of what [cardScore] gives for the cards the array
    holds. *)
Theorem calculateScore_raises_on_undefined (cs : list Slot) :
  calculateScore cs =
  if has_undefined cs then None
  else Some (foldr Z.add 0 (cardScore <$> cards_in cs))%Z.
Proof. unfold calculateScore. now rewrite calculateScore_from_slots. Qed.

(** * The client's card helpers *)

Lemma getCardValue_cardScore (c : Card) : getCardValue c = Some (cardScore c).
Proof. destruct c as [[] []]; reflexivity. Qed.

(** X3. The client's [getCardValue] gives every card the amount the
    server's [calculateScore] adds for it: the score of the hand of that
    one card. *)
Theorem getCardValue_agrees_with_server (c : Card) :
  getCardValue c = Some (cardScore c) /\
  getCardValue c = calculateScore [Elem (Some c)].
Proof.
  rewrite getCardValue_cardScore. split; [reflexivity|].
  unfold calculateScore. simpl. f_equal.
Qed.

(** X4. The client's [hasSpecialPower] holds of exactly the cards that
    score 6 points or more and of the red kings, the only cards that
    score less than 1; and [isRedCard] singles out hearts and
    diamonds. *)
Theorem hasSpecialPower_by_value (c : Card) :
  (hasSpecialPower c = true <->
   (6 <= cardScore c)%Z \/ (cardScore c < 1)%Z) /\
  ((cardScore c < 1)%Z <-> value c = VK /\ isRedCard c = true) /\
  (isRedCard c = true <-> suit c = Hearts \/ suit c = Diamonds).
Proof.
  destruct c as [[] []]; vm_compute; repeat split; intros;
    try discriminate; try tauto; try (now left); try (now right);
    try (exfalso; intuition discriminate).
Qed.

(** X5. [getCardDisplay] shows different cards differently. *)
Theorem getCardDisplay_injective (c1 c2 : Card) :
  getCardDisplay c1 = getCardDisplay c2 <-> c1 = c2.
Proof.
  split; [|now intros ->].
  destruct c1 as [[] []], c2 as [[] []]; vm_compute; intros H;
    (reflexivity || discriminate H).
Qed.

(** * Starting a game *)

Lemma pop_Permutation {A} (l : list A) (n : nat) :
  length l = S n ->
  exists x l', pop l = (Some x, l') /\ length l' = n /\ l ≡ₚ x :: l'.
Proof.
  intros Hl. destruct (pop_cases l) as [[-> _]|(l' & x & -> & Hp)];
    [discriminate|].
  exists x, l'. split; [assumption|]. split.
  - rewrite length_app in Hl. simpl in Hl. lia.
  - now rewrite Permutation_app_comm.
Qed.

Lemma deal_Permutation (d : list Card) (n : nat) :
  length d = 4 + n -> d ≡ₚ cards_in (deal d).1 ++ (deal d).2.
Proof.
  intros Hd. unfold deal.
  destruct (pop_Permutation d (3 + n) Hd) as (c1 & d1 & -> & H1 & P1).
  destruct (pop_Permutation d1 (2 + n) H1) as (c2 & d2 & -> & H2 & P2).
  destruct (pop_Permutation d2 (1 + n) H2) as (c3 & d3 & -> & H3 & P3).
  destruct (pop_Permutation d3 n H3) as (c4 & d4 & -> & H4 & P4).
  simpl. now rewrite P1, P2, P3, P4.
Qed.

Lemma deal_all_Permutation (ps : list Player) (d : list Card) (n : nat) :
  length d = 4 * length ps + n ->
  d ≡ₚ concat (cards_in <$> (cards <$> (deal_all ps d).1))
       ++ (deal_all ps d).2.
Proof.
  revert d. induction ps as [|p ps IH]; intros d Hd; cbn [deal_all].
  - reflexivity.
  - pose proof (deal_Permutation d (4 * length ps + n)) as Hp.
    destruct (deal_full d (4 * length ps + n)) as [_ Hl].
    { simpl in Hd. lia. }
    destruct (deal d) as [hand d1]. simpl in Hp, Hl.
    specialize (IH d1 Hl).
    destruct (deal_all ps d1) as [rest d2]. csimpl in *.
    rewrite Hp by (simpl in Hd; lia). rewrite IH at 1.
    now rewrite app_assoc.
Qed.

(** What the players are after the deal, apart from the hands. *)
Lemma deal_all_seats (ps : list Player) (d : list Card) :
  seat <$> (deal_all ps d).1
  = (fun p => (id p, name p, isHost p, 0%Z, true)) <$> ps.
Proof.
  revert d. induction ps as [|p ps IH]; intros d; cbn [deal_all].
  - reflexivity.
  - destruct (deal d) as [hand d1]. specialize (IH d1).
    destruct (deal_all ps d1) as [rest d2]. csimpl in *. now rewrite IH.
Qed.

(** X6. START_GAME for a room that is not registered, or that has fewer
    than 2 players, answers the requester alone with "Need at least 2
    players" and changes nothing. *)
Theorem start_game_needs_two_players
  (r : Random) (ws : Conn) (c : string) (S : Server) :
  (games S !! c = None \/
   exists g, games S !! c = Some g /\ length (players g) < 2) ->
  handle r ws (START_GAME c) S
  = (S, [(ws, ERROR "Need at least 2 players")]).
Proof.
  intros [Hnone|(g & Hg & Hn)]; cbn [handle].
  - unfold with_game. now rewrite Hnone.
  - apply (with_game_unchanged _ _ _ _ _ g
             (Reply (ERROR "Need at least 2 players")) Hg).
    unfold start_game. now rewrite bool_decide_eq_true_2.
Qed.

(** X6, witness: Ann alone in her room. *)
Lemma start_game_needs_two_players_witness :
  let S := run emptyServer [(demo_random, 1, CREATE_GAME "ann" "p1")] in
  handle demo_random 1 (START_GAME room) S
  = (S, [(1, ERROR "Need at least 2 players")]).
Proof.
  apply (start_game_needs_two_players demo_random 1 room).
  right. eexists. split; [vm_compute; reflexivity|vm_compute; lia].
Defined.

(** X7. START_GAME in a room of 2 to 12 players sets the state to
    playing, makes the first player the current one, puts one card on
    the discard pile and deals four cards to every player, whose score
    becomes 0 and who may see the corner cards; the deck keeps the
    other 51 - 4n cards.  Deck, discard pile and hands together are the
    52 cards of the full deck, each once.  The turn index, the held
    card, the Cabo caller and the Cabo countdown are left as they
    were, and the room and the requester are sent the snapshot. *)
Theorem start_game_deals_full_deck
  (r : Random) (ws : Conn) (c : string) (S : Server) (g : Game) :
  games S !! c = Some g ->
  2 <= length (players g) <= 12 ->
  exists g',
    handle r ws (START_GAME c) S
    = (mkServer (<[c := g']> (games S)) (clients S),
       broadcast (clients S) c (GAME_STARTED g') None
       ++ [(ws, GAME_STARTED g')]) /\
    state g' = playing /\
    currentPlayerId g' = id <$> players g !! 0 /\
    length (discardPile g') = 1 /\
    length (deck g') = 51 - 4 * length (players g) /\
    Forall full_hand (hands g') /\
    seat <$> players g'
    = (fun p => (id p, name p, isHost p, 0%Z, true)) <$> players g /\
    deck g' ++ omap (fun x => x) (discardPile g')
    ++ concat (cards_in <$> hands g') ≡ₚ orderedDeck /\
    currentTurn g' = currentTurn g /\
    drawnCard g' = drawnCard g /\
    caboCallerId g' = caboCallerId g /\
    turnsAfterCabo g' = turnsAfterCabo g.
Proof.
  intros Hg Hn. cbn [handle]. unfold with_game, start_game. rewrite Hg.
  rewrite bool_decide_eq_false_2 by lia.
  destruct (pop_Permutation (createDeck (randomIndex r)) 51
              (length_createDeck _)) as (top & d1 & -> & H1 & P1).
  destruct (deal_all_full (players g) d1 (51 - 4 * length (players g)))
    as (Hf & Hl & Hd); [lia|].
  pose proof (deal_all_Permutation (players g) d1
                (51 - 4 * length (players g))) as P2.
  pose proof (deal_all_seats (players g) d1) as Hs.
  destruct (deal_all (players g) d1) as [ps d2].
  simpl in Hf, Hl, Hd, P2, Hs.
  eexists. split; [reflexivity|]. unfold hands. cbn.
  repeat split; try assumption.
  transitivity (createDeck (randomIndex r));
    [|apply shuffle_Permutation].
  transitivity (top :: d1); [|now symmetry].
  transitivity (top :: concat (cards_in <$> (cards <$> ps)) ++ d2).
  - apply (Permutation_app_comm d2 (top :: _)).
  - apply Permutation_cons; [reflexivity|]. symmetry. apply P2. lia.
Qed.

(** X7, witness: the start of the example room. *)
Lemma start_game_deals_full_deck_witness :
  let S := run emptyServer demo_lobby in
  let g := demo_game demo_lobby in
  exists g',
    handle demo_random 1 (START_GAME room) S
    = (mkServer (<[room := g']> (games S)) (clients S),
       broadcast (clients S) room (GAME_STARTED g') None
       ++ [(1, GAME_STARTED g')]) /\
    state g' = playing /\
    currentPlayerId g' = id <$> players g !! 0 /\
    length (discardPile g') = 1 /\
    length (deck g') = 51 - 4 * length (players g) /\
    Forall full_hand (hands g') /\
    seat <$> players g'
    = (fun p => (id p, name p, isHost p, 0%Z, true)) <$> players g /\
    deck g' ++ omap (fun x => x) (discardPile g')
    ++ concat (cards_in <$> hands g') ≡ₚ orderedDeck /\
    currentTurn g' = currentTurn g /\
    drawnCard g' = drawnCard g /\
    caboCallerId g' = caboCallerId g /\
    turnsAfterCabo g' = turnsAfterCabo g.
Proof.
  apply (start_game_deals_full_deck demo_random 1 room
           (run emptyServer demo_lobby) (demo_game demo_lobby)).
  - vm_compute. reflexivity.
  - vm_compute. lia.
Defined.

(** * The cards on the table under play *)

Lemma array_get_Some (cs : list Slot) (i : nat) (c : Card) :
  array_get cs i = Some c <-> cs !! i = Some (Elem (Some c)).
Proof.
  unfold array_get. split.
  - destruct (cs !! i) as [[|[c'|]]|]; intros; simplify_eq; reflexivity.
  - now intros ->.
Qed.

(** Writing a card over a card in a hand. *)
Lemma cards_in_array_set (cs : list Slot) (i : nat) (old c : Card) :
  array_get cs i = Some old ->
  old :: cards_in (array_set cs i (Some c)) ≡ₚ c :: cards_in cs.
Proof.
  intros Hold. apply array_get_Some in Hold.
  pose proof (lookup_lt_Some _ _ _ Hold) as Hi.
  unfold array_set. rewrite bool_decide_eq_true_2 by assumption.
  rewrite insert_take_drop by assumption.
  rewrite <- (take_drop_middle cs i _ Hold) at 3.
  unfold cards_in. rewrite !omap_app. simpl.
  rewrite <- !Permutation_middle. apply perm_swap.
Qed.

Lemma hands_cards_alter (f : list Slot -> list Slot)
  (hs : list (list Slot)) (k : nat) (cs : list Slot) (old c : Card) :
  hs !! k = Some cs ->
  old :: cards_in (f cs) ≡ₚ c :: cards_in cs ->
  old :: concat (cards_in <$> alter f k hs)
  ≡ₚ c :: concat (cards_in <$> hs).
Proof.
  revert k. induction hs as [|h hs IH]; intros [|k] Hk Hf;
    try discriminate; csimpl in *.
  - injection Hk as ->.
    now rewrite app_comm_cons, Hf.
  - rewrite Permutation_middle, (IH k Hk Hf).
    now rewrite <- Permutation_middle.
Qed.

Lemma same_table_cards g g' :
  same_table g g' -> table_cards g' = table_cards g.
Proof.
  intros (H1 & H2 & H3 & H4 & _). unfold table_cards.
  now rewrite H1, H2, H3, H4.
Qed.

Lemma full_hand_lookup (g : Game) (k : nat) (p : Player) :
  tidy g -> players g !! k = Some p ->
  hands g !! k = Some (cards p) /\ full_hand (cards p).
Proof.
  intros [Hh _] Hk.
  assert (hands g !! k = Some (cards p)) as Hl
    by (unfold hands; now rewrite list_lookup_fmap, Hk).
  split; [exact Hl|]. exact (proj1 (Forall_lookup _ _) Hh k _ Hl).
Qed.

(** One legal play request moves cards between the piles, the hands and
    the held card, and neither loses nor doubles any. *)
Lemma play_table_cards (m : Request) (g : Game) :
  legal_play m = true -> tidy g ->
  table_cards (play m g).1 ≡ₚ table_cards g.
Proof.
  intros Hm Ht. pose proof Ht as [Hh Hd].
  destruct m; simpl in Hm; try discriminate; cbn [play].
  - (* DRAW_CARD *)
    unfold draw_card. destruct (negb _); [reflexivity|].
    case_bool_decide as Hheld; [reflexivity|].
    assert (drawnCard g = None) as Hnone.
    { destruct (drawnCard g); [exfalso; apply Hheld; now eexists|reflexivity]. }
    destruct (pop_cases (deck g)) as [[E ->]|(l & x & E & ->)];
      unfold table_cards, hands; cbn; rewrite E, Hnone; [reflexivity|].
    cbn. rewrite app_nil_r, <- !app_assoc.
    apply Permutation_app_head. cbn. solve_Permutation.
  - (* TAKE_DISCARD *)
    unfold take_discard. destruct (negb _); [reflexivity|].
    case_bool_decide as Hheld; [reflexivity|].
    assert (drawnCard g = None) as Hnone.
    { destruct (drawnCard g); [exfalso; apply Hheld; now eexists|reflexivity]. }
    destruct (pop_cases (discardPile g)) as [[E ->]|(l & x & E & ->)];
      unfold table_cards, hands; cbn; rewrite E, Hnone; [reflexivity|].
    rewrite E in Hd. apply Forall_app in Hd as [_ Hx].
    apply Forall_inv in Hx as [c ->].
    rewrite omap_app. cbn. rewrite app_nil_r, <- !app_assoc.
    apply Permutation_app_head. cbn. solve_Permutation.
  - (* REPLACE_CARD *)
    apply bool_decide_eq_true in Hm.
    unfold replace_card.
    destruct (negb (bool_decide (currentPlayerId g = Some playerId)));
      [reflexivity|].
    cbn [orb]. case_bool_decide as Hheld; cbn [negb]; [|reflexivity].
    destruct Hheld as [c Hc].
    destruct (find_player (players g) playerId) as [[k player]|] eqn:Hf;
      [|reflexivity].
    apply find_player_lookup in Hf as [Hk _].
    destruct (full_hand_lookup g k player Ht Hk) as [Hl Hfull].
    destruct (array_get_full_hand (cards player) cardIndex Hm Hfull)
      as [old Hold].
    match goal with |- context [end_of_turn ?mk ?x] =>
      rewrite (same_table_cards _ _ (end_of_turn_same_table mk x)) end.
    unfold table_cards, hands. cbn. rewrite Hc, Hold.
    rewrite (hands_alter (fun cs => array_set cs cardIndex (Some c))).
    fold (hands g). unfold push. rewrite omap_app. cbn.
    rewrite !app_nil_r, <- !app_assoc.
    apply Permutation_app_head, Permutation_app_head. cbn.
    rewrite <- Permutation_cons_append.
    rewrite (hands_cards_alter _ (hands g) k (cards player) old c Hl).
    + reflexivity.
    + now apply cards_in_array_set.
  - (* DISCARD_DRAWN *)
    unfold discard_drawn.
    destruct (negb (bool_decide (currentPlayerId g = Some playerId)));
      [reflexivity|].
    cbn [orb]. case_bool_decide as Hheld; cbn [negb]; [|reflexivity].
    destruct Hheld as [c Hc].
    match goal with |- context [end_of_turn ?mk ?x] =>
      rewrite (same_table_cards _ _ (end_of_turn_same_table mk x)) end.
    unfold table_cards, hands. cbn. rewrite Hc.
    unfold push. rewrite omap_app. cbn.
    rewrite !app_nil_r, <- !app_assoc.
    apply Permutation_app_head. cbn. solve_Permutation.
  - (* CALL_CABO *)
    unfold call_cabo. destruct (negb _); [reflexivity|].
    destruct (truthy _); [reflexivity|].
    now destruct (find_player _ _) as [[? ?]|].
  - (* PEEK_OWN_CARD *)
    unfold peek_own_card. now destruct (find_player _ _) as [[? ?]|].
  - (* PEEK_OPPONENT_CARD *)
    unfold peek_opponent_card. now destruct (find_player _ _) as [[? ?]|].
  - (* SWITCH_CARDS *)
    apply andb_true_iff in Hm as [Hi Hj].
    apply bool_decide_eq_true in Hi, Hj.
    unfold switch_cards.
    destruct (find_player (players g) playerId) as [[kp player]|] eqn:Hp;
      [|reflexivity].
    destruct (find_player (players g) opponentId) as [[ko opponent]|] eqn:Ho;
      [|reflexivity].
    apply find_player_lookup in Hp as [Hp _].
    apply find_player_lookup in Ho as [Ho _].
    destruct (full_hand_lookup g kp player Ht Hp) as [Hlp Hfp].
    destruct (full_hand_lookup g ko opponent Ht Ho) as [Hlo Hfo].
    destruct (array_get_full_hand _ _ Hi Hfp) as [a Ha].
    destruct (array_get_full_hand _ _ Hj Hfo) as [b Hb].
    unfold table_cards, hands. cbn. rewrite Ha, Hb.
    rewrite (hands_alter (fun cs => array_set cs opponentCardIndex (Some a))).
    rewrite (hands_alter (fun cs => array_set cs playerCardIndex (Some b))).
    fold (hands g).
    apply Permutation_app_head, Permutation_app_head, Permutation_app_tail.
    set (hs1 := alter (fun cs => array_set cs playerCardIndex (Some b))
                  kp (hands g)).
    assert (a :: concat (cards_in <$> hs1)
            ≡ₚ b :: concat (cards_in <$> hands g)) as P1.
    { apply (hands_cards_alter _ (hands g) kp (cards player) a b Hlp).
      now apply cards_in_array_set. }
    assert (exists cs1, hs1 !! ko = Some cs1 /\
                        array_get cs1 opponentCardIndex = Some b)
      as (cs1 & Hcs1 & Hb1).
    { unfold hs1. rewrite list_lookup_alter.
      destruct (decide (kp = ko)) as [->|Hne].
      - assert (player = opponent) as -> by congruence.
        rewrite Hlp. eexists. split; [reflexivity|].
        rewrite array_get_set. now case_bool_decide.
      - eexists. split; [exact Hlo|exact Hb]. }
    assert (b :: concat (cards_in <$>
                           alter (fun cs => array_set cs opponentCardIndex
                                              (Some a)) ko hs1)
            ≡ₚ a :: concat (cards_in <$> hs1)) as P2.
    { apply (hands_cards_alter _ hs1 ko cs1 b a Hcs1).
      now apply cards_in_array_set. }
    rewrite P1 in P2. exact (Permutation_cons_inv P2).
Qed.

Lemma play_all_table_cards (ms : list Request) (g : Game) :
  Forall (fun m => legal_play m = true) ms -> tidy g ->
  table_cards (play_all ms g) ≡ₚ table_cards g.
Proof.
  intros Hms. revert g. induction Hms as [|m ms Hm _ IH]; intros g Hg.
  - reflexivity.
  - destruct (play_invariant m g Hm Hg) as (Ht & _).
    unfold play_all in *. simpl. rewrite (IH _ Ht).
    now apply play_table_cards.
Qed.

Lemma start_game_table (rnd : nat -> nat) (g : Game) :
  2 <= length (players g) <= 12 ->
  let g' := (start_game rnd g).1 in
  drawnCard g' = drawnCard g /\
  deck g' ++ omap (fun x => x) (discardPile g')
  ++ concat (cards_in <$> hands g') ≡ₚ orderedDeck.
Proof.
  intros Hn. unfold start_game.
  rewrite bool_decide_eq_false_2 by lia.
  destruct (pop_Permutation (createDeck rnd) 51 (length_createDeck _))
    as (top & d1 & -> & H1 & P1).
  pose proof (deal_all_Permutation (players g) d1
                (51 - 4 * length (players g))) as P2.
  destruct (deal_all (players g) d1) as [ps d2]. simpl in P2.
  unfold hands. cbn. split; [reflexivity|].
  transitivity (createDeck rnd); [|apply shuffle_Permutation].
  transitivity (top :: d1); [|now symmetry].
  transitivity (top :: concat (cards_in <$> (cards <$> ps)) ++ d2).
  - apply (Permutation_app_comm d2 (top :: _)).
  - apply Permutation_cons; [reflexivity|]. symmetry. apply P2. lia.
Qed.

(** X8. Take a room in the lobby of a server state that can be reached,
    with at least 2 players, and let a START_GAME and any run of play
    requests follow whose slot indices name one of the four hand slots.
    After every such run the cards of the deck, of the discard pile, of
    the hands and the held card are the 52 cards of the full deck: no
    card is lost and none is there twice. *)
Theorem table_holds_the_full_deck
  (S : Server) (c : string) (g : Game) (r : Random) (ws : Conn)
  (es : list Event) :
  reachable S ->
  games S !! c = Some g ->
  state g = lobby ->
  2 <= length (players g) ->
  Forall (plays_in c) es ->
  exists g',
    games (run S ((r, ws, START_GAME c) :: es)) !! c = Some g' /\
    table_cards g' ≡ₚ orderedDeck /\
    NoDup (table_cards g').
Proof.
  intros HS Hg Hlobby Hn Hes.
  destruct (reachable_registry_ok S HS c g Hg) as (_ & Hmax & Hl).
  destruct (Hl Hlobby) as [Hheld _].
  destruct (run_from_start S c g r ws es Hg Hes) as [Hrun Hms].
  destruct (start_game_deals (randomIndex r) g) as (Ht & _); [lia|].
  pose proof (play_all_table_cards _ _ Hms Ht) as Hp.
  assert (table_cards (start_game (randomIndex r) g).1 ≡ₚ orderedDeck)
    as Hstart.
  { destruct (start_game_table (randomIndex r) g) as [E P]; [lia|].
    unfold table_cards. rewrite E, Hheld. cbn.
    rewrite !app_nil_r in *. exact P. }
  eexists. split; [exact Hrun|]. rewrite Hp, Hstart.
  split; [reflexivity|apply orderedDeck_NoDup].
Qed.

(** X8, witness: the example room after Ann has drawn a card. *)
Lemma table_holds_the_full_deck_witness :
  exists g',
    games (run (run emptyServer demo_lobby)
             ((demo_random, 1, START_GAME room)
              :: [(demo_random, 1, DRAW_CARD room "p1");
                  (demo_random, 1, REPLACE_CARD room "p1" 2);
                  (demo_random, 2, SWITCH_CARDS room "p2" "p1" 0 3)]))
      !! room = Some g' /\
    table_cards g' ≡ₚ orderedDeck /\
    NoDup (table_cards g').
Proof.
  apply (table_holds_the_full_deck (run emptyServer demo_lobby) room
           (demo_game demo_lobby) demo_random 1).
  - now exists demo_lobby.
  - vm_compute. reflexivity.
  - vm_compute. reflexivity.
  - vm_compute. lia.
  - repeat constructor.
Defined.

(** * Who sits in a room *)

Lemma badge_alter (f : Player -> list Slot) (k : nat) (ps : list Player) :
  badge <$> alter (fun p => set_cards (f p) p) k ps = badge <$> ps.
Proof.
  rewrite (list_fmap_alter badge _ (fun p => p)).
  - now rewrite list_alter_id.
  - now apply Forall_forall.
Qed.

Lemma score_all_badges (ps : list Player) :
  badge <$> (score_all ps).1 = badge <$> ps.
Proof.
  induction ps as [|p ps IH]; [reflexivity|]. simpl.
  destruct (calculateScore (cards p)); [|reflexivity].
  destruct (score_all ps) as [rest ok]. csimpl in *. now rewrite IH.
Qed.

Lemma deal_all_badges (ps : list Player) (d : list Card) :
  badge <$> (deal_all ps d).1 = badge <$> ps.
Proof.
  revert d. induction ps as [|p ps IH]; intros d; cbn [deal_all].
  - reflexivity.
  - destruct (deal d) as [hand d1]. specialize (IH d1).
    destruct (deal_all ps d1) as [rest d2]. csimpl in *. now rewrite IH.
Qed.

Lemma same_seats_refl g : same_seats g g.
Proof. now repeat split. Qed.

Lemma same_seats_trans g1 g2 g3 :
  same_seats g1 g2 -> same_seats g2 g3 -> same_seats g1 g3.
Proof.
  intros (A1 & A2 & A3 & A4) (B1 & B2 & B3 & B4).
  repeat split; congruence.
Qed.

Lemma advance_same_seats mk g : same_seats g (advance mk g).1.
Proof.
  unfold advance. case_bool_decide; [|apply same_seats_refl].
  destruct (players (nextTurn g) !! currentTurn (nextTurn g));
    now repeat split.
Qed.

Lemma end_of_turn_same_seats mk g : same_seats g (end_of_turn mk g).1.
Proof.
  unfold end_of_turn. destruct (truthy (caboCallerId g)).
  2: apply advance_same_seats.
  case_bool_decide.
  2: { apply (same_seats_trans _ (set_turnsAfterCabo (turnsAfterCabo g + 1) g));
         [now repeat split|apply advance_same_seats]. }
  cbn [players set_turnsAfterCabo].
  pose proof (score_all_badges (players g)) as Hb.
  destruct (score_all (players g)) as [ps [|]]; simpl in Hb.
  - eapply same_seats_trans; [|apply advance_same_seats].
    now repeat split.
  - now repeat split.
Qed.

Lemma play_same_seats (m : Request) (g : Game) : same_seats g (play m g).1.
Proof.
  destruct m; cbn [play]; try apply same_seats_refl.
  - unfold draw_card. destruct (negb _); [apply same_seats_refl|].
    destruct (bool_decide _); [apply same_seats_refl|].
    now destruct (pop (deck g)).
  - unfold take_discard. destruct (negb _); [apply same_seats_refl|].
    destruct (bool_decide _); [apply same_seats_refl|].
    now destruct (pop (discardPile g)).
  - unfold replace_card. destruct (_ || _); [apply same_seats_refl|].
    destruct (find_player _ _) as [[k p]|]; [|apply same_seats_refl].
    eapply same_seats_trans; [|apply end_of_turn_same_seats].
    repeat split. unfold badges. cbn.
    apply (badge_alter (fun p => array_set (cards p) cardIndex (drawnCard g))).
  - unfold discard_drawn. destruct (_ || _); [apply same_seats_refl|].
    eapply same_seats_trans; [|apply end_of_turn_same_seats].
    now repeat split.
  - unfold call_cabo. destruct (negb _); [apply same_seats_refl|].
    destruct (truthy _); [apply same_seats_refl|].
    now destruct (find_player _ _) as [[k p]|].
  - unfold peek_own_card.
    destruct (find_player _ _) as [[k p]|]; apply same_seats_refl.
  - unfold peek_opponent_card.
    destruct (find_player _ _) as [[k p]|]; apply same_seats_refl.
  - unfold switch_cards.
    destruct (find_player _ playerId) as [[kp p]|];
      [|apply same_seats_refl].
    destruct (find_player _ opponentId) as [[ko o]|];
      [|apply same_seats_refl].
    repeat split. unfold badges. cbn.
    rewrite (badge_alter (fun _ => array_set _ _ _)).
    apply (badge_alter (fun q => array_set (cards q) playerCardIndex
                                   (array_get (cards o) opponentCardIndex))).
Qed.

Lemma start_game_same_seats rnd g : same_seats g (start_game rnd g).1.
Proof.
  unfold start_game. case_bool_decide; [apply same_seats_refl|].
  destruct (pop (createDeck rnd)) as [top d1].
  pose proof (deal_all_badges (players g) d1) as Hb.
  destruct (deal_all (players g) d1) as [ps d2]. now repeat split.
Qed.

Lemma with_game_clients S ws c missing body :
  clients (with_game S ws c missing body).1 = clients S.
Proof.
  unfold with_game. destruct (games S !! c) as [g|]; [|reflexivity].
  now destruct (body g).
Qed.

(** X9. START_GAME and the play requests (draw, take-discard, replace,
    discard, call-cabo, the peeks, switch) never change who sits in
    the room they address: the ids, names and host marks of its
    players, in order, its code, its host and its round number are
    what they were, and so are the registered connections. *)
Theorem play_never_changes_the_seats
  (r : Random) (ws : Conn) (m : Request) (S : Server) (c : string)
  (g : Game) :
  keeps_seats c m ->
  games S !! c = Some g ->
  exists g',
    games (handle r ws m S).1 !! c = Some g' /\
    badges g' = badges g /\ host g' = host g /\ code g' = code g /\
    round g' = round g /\
    clients (handle r ws m S).1 = clients S.
Proof.
  intros [Hm| ->] Hg.
  - exists (play m g).1. split; [|split].
    + rewrite (handle_play r ws m S c c Hm), Hg.
      now rewrite bool_decide_eq_true_2.
    + apply play_same_seats.
    + destruct (play_same_seats m g) as (_ & H2 & H3 & H4).
      repeat split; try assumption.
      destruct m; try discriminate; apply with_game_clients.
  - exists (start_game (randomIndex r) g).1. cbn [handle].
    split; [now apply with_game_changed|].
    destruct (start_game_same_seats (randomIndex r) g) as (H1 & H2 & H3 & H4).
    repeat split; try assumption.
    apply with_game_clients.
Qed.

(** X9, witness: Ann's draw in the started example room. *)
Lemma play_never_changes_the_seats_witness :
  exists g',
    games (handle demo_random 1 (DRAW_CARD room "p1")
             (run emptyServer demo_started)).1 !! room = Some g' /\
    badges g' = badges (demo_game demo_started) /\
    host g' = host (demo_game demo_started) /\
    code g' = code (demo_game demo_started) /\
    round g' = round (demo_game demo_started) /\
    clients (handle demo_random 1 (DRAW_CARD room "p1")
               (run emptyServer demo_started)).1
    = clients (run emptyServer demo_started).
Proof.
  apply (play_never_changes_the_seats demo_random 1 (DRAW_CARD room "p1")
           (run emptyServer demo_started) room (demo_game demo_started)).
  - left. reflexivity.
  - vm_compute. reflexivity.
Defined.

(** * What holds of every room of a running server *)

(** The rooms after LEAVE_GAME or a close event: untouched, or the room
    of the connection after the handoff. *)
Lemma leave_lookup S ws ex c g' :
  games (leave S ws ex).1 !! c = Some g' ->
  games S !! c = Some g' \/
  exists info g,
    clients_get (clients S) ws = Some info /\
    client_gameCode info = c /\
    games S !! c = Some g /\
    players (without (client_playerId info) g) <> [] /\
    g' = handoff (client_playerId info) g.
Proof.
  unfold leave.
  destruct (clients_get (clients S) ws) as [info|]; [|now left].
  destruct (games S !! client_gameCode info) as [game|] eqn:E;
    [|now left].
  case_bool_decide as Hempty; simpl; intros Hg.
  - apply lookup_delete_Some in Hg as [_ Hg]. now left.
  - apply lookup_insert_Some in Hg as [[<- <-]|[_ Hg]]; [|now left].
    right. exists info, game. repeat split; try assumption.
    intros Hnil. apply Hempty. unfold without in Hnil. simpl in Hnil.
    now rewrite Hnil.
Qed.

Section RoomInvariant.
Variable P : Game -> Prop.
Hypothesis P_new : forall c playerId playerName,
  P (newGame c playerId playerName).
Hypothesis P_join : forall playerName playerId g,
  P g -> P (join_game playerName playerId g).1.
Hypothesis P_start : forall rnd g, P g -> P (start_game rnd g).1.
Hypothesis P_play : forall m g, P g -> P (play m g).1.
Hypothesis P_handoff : forall playerId g,
  P g -> players (without playerId g) <> [] -> P (handoff playerId g).

Let all_rooms (S : Server) : Prop :=
  forall c g, games S !! c = Some g -> P g.

Lemma with_game_invariant S ws c missing body :
  all_rooms S -> (forall g, P g -> P (body g).1) ->
  all_rooms (with_game S ws c missing body).1.
Proof.
  intros HS Hbody c' g' Hg'. rewrite with_game_lookup in Hg'.
  case_bool_decide.
  - destruct (games S !! c) as [g|] eqn:E; [|discriminate].
    simpl in Hg'. injection Hg' as <-. apply Hbody. now apply (HS c).
  - now apply (HS c').
Qed.

Lemma leave_invariant S ws ex : all_rooms S -> all_rooms (leave S ws ex).1.
Proof.
  intros HS c g' Hg'.
  apply leave_lookup in Hg' as [Hg|(info & g & _ & _ & Hg & Hne & ->)].
  - now apply (HS c).
  - apply P_handoff; [now apply (HS c)|exact Hne].
Qed.

Lemma handle_invariant r ws m S :
  all_rooms S -> all_rooms (handle r ws m S).1.
Proof.
  intros HS.
  destruct m; cbn [handle];
    try (apply with_game_invariant; [exact HS|]; intros g Hg).
  - intros c g Hg. simpl in Hg.
    apply lookup_insert_Some in Hg as [[_ <-]|[_ Hg]];
      [apply P_new|now apply (HS c)].
  - destruct (games S !! gameCode) as [game|] eqn:E; [|exact HS].
    pose proof (P_join playerName playerId game (HS _ _ E)) as Hok.
    destruct (join_game playerName playerId game) as [game' [| | | |]];
      try exact HS.
    intros c g Hg. simpl in Hg, Hok.
    apply lookup_insert_Some in Hg as [[_ <-]|[_ Hg]];
      [exact Hok|now apply (HS c)].
  - now apply P_start.
  - now apply (P_play (DRAW_CARD gameCode playerId)).
  - now apply (P_play (TAKE_DISCARD gameCode playerId)).
  - now apply (P_play (REPLACE_CARD gameCode playerId cardIndex)).
  - now apply (P_play (DISCARD_DRAWN gameCode playerId)).
  - now apply (P_play (CALL_CABO gameCode playerId)).
  - now apply (P_play (PEEK_OWN_CARD gameCode playerId cardIndex)).
  - now apply (P_play
                 (PEEK_OPPONENT_CARD gameCode playerId opponentId cardIndex)).
  - now apply (P_play
                 (SWITCH_CARDS gameCode playerId opponentId
                    playerCardIndex opponentCardIndex)).
  - pose proof (leave_invariant S ws None HS) as H.
    now destruct (leave S ws None).
  - now apply leave_invariant.
  - exact HS.
Qed.

Lemma reachable_invariant S :
  reachable S -> forall c g, games S !! c = Some g -> P g.
Proof.
  intros [es ->].
  assert (forall S0, all_rooms S0 -> all_rooms (run S0 es)) as Hrun.
  { induction es as [|[[r ws] m] es IH]; intros S0 HS; simpl.
    - exact HS.
    - apply IH. now apply handle_invariant. }
  apply Hrun. intros c g Hg. simpl in Hg.
  now rewrite lookup_empty in Hg.
Qed.
End RoomInvariant.

(** ** The host *)

Lemma filter_host_badges (ps ps' : list Player) :
  badge <$> ps' = badge <$> ps ->
  badge <$> filter (fun q => isHost q = true) ps'
  = badge <$> filter (fun q => isHost q = true) ps.
Proof.
  revert ps'. induction ps as [|p ps IH]; intros [|p' ps'] H;
    try discriminate; [reflexivity|].
  csimpl in H. injection H as Hid Hname Hhost Hrest.
  rewrite !filter_cons. rewrite Hhost.
  destruct (decide (isHost p = true)); csimpl; rewrite (IH _ Hrest);
    [|reflexivity].
  unfold badge. now rewrite Hid, Hname, Hhost.
Qed.

Lemma one_host_same_seats g g' :
  same_seats g g' -> one_host g -> one_host g'.
Proof.
  intros (Hb & Hh & _) (p & Hf & Hid).
  pose proof (filter_host_badges _ _ Hb) as H. rewrite Hf in H.
  destruct (filter _ (players g')) as [|p' [|? ?]] eqn:E;
    try discriminate.
  exists p'. split; [exact E|].
  injection H as H _ _. congruence.
Qed.

Lemma filter_swap {A} (P Q : A -> Prop)
  `{!forall x, Decision (P x)} `{!forall x, Decision (Q x)} (l : list A) :
  filter P (filter Q l) = filter Q (filter P l).
Proof.
  induction l as [|x l IH]; [reflexivity|].
  rewrite !filter_cons.
  destruct (decide (Q x)), (decide (P x)); rewrite ?filter_cons;
    repeat (destruct (decide _); try contradiction); now rewrite IH.
Qed.

Lemma handoff_one_host playerId g :
  one_host g -> players (without playerId g) <> [] ->
  one_host (handoff playerId g).
Proof.
  intros (p & Hf & Hid) Hne. unfold handoff.
  assert (filter (fun q => isHost q = true) (players (without playerId g))
          = filter (fun q => id q <> playerId) [p]) as Hw.
  { unfold without. cbn. now rewrite filter_swap, Hf. }
  change (host (without playerId g)) with (host g).
  case_bool_decide as Hhost.
  - rewrite filter_cons_False in Hw by (intros H; apply H; congruence).
    unfold promote.
    destruct (players (without playerId g)) as [|q rest] eqn:E;
      [contradiction|].
    rewrite filter_cons in Hw.
    destruct (decide (isHost q = true)); [discriminate|].
    exists (set_isHost true q). split; [|reflexivity].
    cbn [players set_players].
    rewrite filter_cons_True by reflexivity. now rewrite Hw.
  - rewrite filter_cons_True in Hw by congruence.
    exists p. split; [exact Hw|exact Hid].
Qed.

(** ** A game nobody has started *)

Lemma cards_in_nil (cs : list Slot) :
  cards_in cs = [] <-> Forall (fun s => card_in s = None) cs.
Proof.
  unfold cards_in. induction cs as [|s cs IH]; simpl.
  - split; [constructor|reflexivity].
  - destruct (card_in s) eqn:E; simpl.
    + split; [discriminate|]. intros H. apply Forall_inv in H. congruence.
    + rewrite IH. split; [now constructor|apply Forall_inv_tail].
Qed.

Lemma array_get_no_card (cs : list Slot) (i : nat) :
  cards_in cs = [] -> array_get cs i = None.
Proof.
  rewrite cards_in_nil. intros H. unfold array_get.
  destruct (cs !! i) as [[|[c|]]|] eqn:E; try reflexivity.
  now apply (proj1 (Forall_lookup _ _) H) in E.
Qed.

Lemma array_set_no_card (cs : list Slot) (i : nat) :
  cards_in cs = [] -> cards_in (array_set cs i None) = [].
Proof.
  rewrite !cards_in_nil. intros H. unfold array_set.
  case_bool_decide.
  - now apply Forall_insert.
  - apply Forall_app. split; [exact H|].
    apply Forall_app. split; [|now repeat constructor].
    now apply Forall_replicate.
Qed.

Lemma play_state (m : Request) (g : Game) :
  state (play m g).1 = state g \/ state (play m g).1 = finished.
Proof.
  destruct m; cbn [play]; try now left.
  - unfold draw_card. destruct (negb _); [now left|].
    destruct (bool_decide _); [now left|].
    left. now destruct (pop (deck g)).
  - unfold take_discard. destruct (negb _); [now left|].
    destruct (bool_decide _); [now left|].
    left. now destruct (pop (discardPile g)).
  - unfold replace_card. destruct (_ || _); [now left|].
    destruct (find_player _ _) as [[k p]|]; [|now left].
    match goal with |- context [end_of_turn ?mk ?x] =>
      destruct (end_of_turn_state mk x) as [Hs|Hs] end;
      rewrite Hs; [now left|now right].
  - unfold discard_drawn. destruct (_ || _); [now left|].
    match goal with |- context [end_of_turn ?mk ?x] =>
      destruct (end_of_turn_state mk x) as [Hs|Hs] end;
      rewrite Hs; [now left|now right].
  - unfold call_cabo. destruct (negb _); [now left|].
    destruct (truthy _); [now left|].
    left. now destruct (find_player _ _) as [[k p]|].
  - unfold peek_own_card. left. now destruct (find_player _ _) as [[k p]|].
  - unfold peek_opponent_card. left.
    now destruct (find_player _ _) as [[k p]|].
  - unfold switch_cards. left.
    destruct (find_player _ playerId) as [[kp p]|]; [|reflexivity].
    now destruct (find_player _ opponentId) as [[ko o]|].
Qed.

Lemma undealt_alter (ps : list Player) (k i : nat) :
  Forall undealt ps ->
  Forall undealt
    (alter (fun p => set_cards (array_set (cards p) i None) p) k ps).
Proof.
  intros H. apply Forall_alter; [exact H|].
  intros p _ (H1 & H2 & H3).
  repeat split; try assumption. cbn. now apply array_set_no_card.
Qed.

(** In a game nobody has started nobody is to move, so that the
    requests guarded by the turn are turned down; the peeks read and a
    switch writes [undefined] over [undefined]. *)
Lemma play_fresh (m : Request) (g : Game) : fresh g -> fresh (play m g).1.
Proof.
  intros Hf. pose proof Hf as (H1 & H2 & H3 & H4 & H5 & H6 & H7 & H8 & H9).
  destruct m; cbn [play]; try exact Hf.
  - unfold draw_card. rewrite H5.
    now rewrite bool_decide_eq_false_2 by discriminate.
  - unfold take_discard. rewrite H5.
    now rewrite bool_decide_eq_false_2 by discriminate.
  - unfold replace_card. rewrite H5.
    now rewrite bool_decide_eq_false_2 by discriminate.
  - unfold discard_drawn. rewrite H5.
    now rewrite bool_decide_eq_false_2 by discriminate.
  - unfold call_cabo. rewrite H5.
    now rewrite bool_decide_eq_false_2 by discriminate.
  - unfold peek_own_card. now destruct (find_player _ _) as [[k p]|].
  - unfold peek_opponent_card. now destruct (find_player _ _) as [[k p]|].
  - unfold switch_cards.
    destruct (find_player _ playerId) as [[kp p]|] eqn:Ep; [|exact Hf].
    destruct (find_player _ opponentId) as [[ko o]|] eqn:Eo; [|exact Hf].
    apply find_player_lookup in Ep as [Ep _].
    apply find_player_lookup in Eo as [Eo _].
    assert (forall k q, players g !! k = Some q -> cards_in (cards q) = [])
      as Hno.
    { intros k q Hq. apply (proj1 (Forall_lookup _ _) H9) in Hq.
      apply Hq. }
    rewrite (array_get_no_card _ _ (Hno _ _ Ep)).
    rewrite (array_get_no_card _ _ (Hno _ _ Eo)).
    repeat split; try assumption. cbn.
    now apply undealt_alter, undealt_alter.
Qed.

Lemma new_room_inv c playerId playerName :
  room_inv (newGame c playerId playerName).
Proof.
  split; [|split].
  - repeat split; cbn; try discriminate. lia.
  - exists (newPlayer playerId playerName true). now split.
  - intros _. repeat split. repeat constructor.
Qed.

Lemma join_room_inv playerName playerId g :
  room_inv g -> room_inv (join_game playerName playerId g).1.
Proof.
  intros (Hok & Hhost & Hfresh).
  split; [now apply join_game_room_ok|].
  unfold join_game.
  case_bool_decide; [now split|].
  destruct (existsb _ _); [now split|]. split.
  - destruct Hhost as (p & Hf & Hid). exists p. cbn.
    split; [|exact Hid]. unfold push.
    rewrite filter_app, Hf.
    now rewrite filter_cons_False by discriminate.
  - cbn. intros Hs.
    destruct (Hfresh Hs) as (H1 & H2 & H3 & H4 & H5 & H6 & H7 & H8 & H9).
    repeat split; try assumption. cbn. unfold push.
    apply Forall_app. split; [exact H9|]. now repeat constructor.
Qed.

Lemma start_room_inv rnd g : room_inv g -> room_inv (start_game rnd g).1.
Proof.
  intros (Hok & Hhost & Hfresh).
  split; [now apply start_game_room_ok|]. split.
  - exact (one_host_same_seats _ _ (start_game_same_seats rnd g) Hhost).
  - unfold start_game. case_bool_decide; [exact Hfresh|].
    destruct (pop (createDeck rnd)) as [top d1].
    destruct (deal_all (players g) d1) as [ps d2]. discriminate.
Qed.

Lemma play_room_inv m g : room_inv g -> room_inv (play m g).1.
Proof.
  intros (Hok & Hhost & Hfresh).
  split; [now apply play_room_ok|]. split.
  - exact (one_host_same_seats _ _ (play_same_seats m g) Hhost).
  - intros Hs. apply play_fresh, Hfresh.
    destruct (play_state m g) as [E|E]; congruence.
Qed.

Lemma handoff_room_inv playerId g :
  room_inv g -> players (without playerId g) <> [] ->
  room_inv (handoff playerId g).
Proof.
  intros ((Hne & Hmax & Hlobby) & Hhost & Hfresh) Hleft.
  split; [|split].
  - assert (room_ok (without playerId g)) as Hok.
    { repeat split; cbn; try (now apply Hlobby); [exact Hleft|].
      etransitivity; [apply length_filter|exact Hmax]. }
    unfold handoff. case_bool_decide; [now apply promote_room_ok|exact Hok].
  - now apply handoff_one_host.
  - assert (state (handoff playerId g) = state g) as ->.
    { unfold handoff. case_bool_decide; [|reflexivity].
      now rewrite promote_state. }
    intros Hs.
    destruct (Hfresh Hs) as (H1 & H2 & H3 & H4 & H5 & H6 & H7 & H8 & H9).
    assert (Forall undealt (players (without playerId g))) as Hw.
    { apply Forall_forall. intros q Hq. unfold without in Hq. cbn in Hq.
      apply list_elem_of_filter in Hq as [_ Hq].
      exact (proj1 (Forall_forall _ _) H9 q Hq). }
    unfold handoff. case_bool_decide; [|now repeat split].
    unfold promote.
    destruct (players (without playerId g)) as [|q rest] eqn:E;
      [contradiction|].
    repeat split; try assumption. cbn.
    apply Forall_cons in Hw as [Hq Hrest].
    constructor; [exact Hq|exact Hrest].
Qed.

Lemma reachable_room_inv S c g :
  reachable S -> games S !! c = Some g -> room_inv g.
Proof.
  intros HS. revert c g.
  apply (reachable_invariant room_inv); try assumption.
  - apply new_room_inv.
  - apply join_room_inv.
  - apply start_room_inv.
  - apply play_room_inv.
  - apply handoff_room_inv.
Qed.

(** X10. In every state the server can reach, every room has exactly
    one player marked as host, and that player's id is [game.host]. *)
Theorem every_room_has_one_host (S : Server) (c : string) (g : Game) :
  reachable S ->
  games S !! c = Some g ->
  exists p,
    filter (fun q => isHost q = true) (players g) = [p] /\
    id p = host g /\
    p ∈ players g.
Proof.
  intros HS Hg.
  destruct (reachable_room_inv S c g HS Hg) as (_ & Hhost & _).
  destruct Hhost as (p & Hf & Hid). exists p.
  split; [exact Hf|]. split; [exact Hid|].
  apply (list_elem_of_filter (fun q => isHost q = true)).
  rewrite Hf. apply list_elem_of_here.
Qed.

(** X10, witness: the example room with Ann and Bob. *)
Lemma every_room_has_one_host_witness :
  exists p,
    filter (fun q => isHost q = true) (players (demo_game demo_lobby)) = [p] /\
    id p = host (demo_game demo_lobby) /\
    p ∈ players (demo_game demo_lobby).
Proof.
  apply (every_room_has_one_host (run emptyServer demo_lobby) room).
  - now exists demo_lobby.
  - vm_compute. reflexivity.
Defined.

(** X11. In every state the server can reach, a room in the lobby is a
    game nobody has started: deck and discard pile are empty, no card is
    held, the turn index is 0, nobody is to move, Cabo is not called, the
    round is 1, and every player has score 0, no sight of the corner
    cards and no card in the hand. *)
Theorem lobby_rooms_are_fresh (S : Server) (c : string) (g : Game) :
  reachable S ->
  games S !! c = Some g ->
  state g = lobby ->
  fresh g.
Proof.
  intros HS Hg Hs.
  destruct (reachable_room_inv S c g HS Hg) as (_ & _ & Hfresh).
  now apply Hfresh.
Qed.

(** X11, witness: the example room before the start. *)
Lemma lobby_rooms_are_fresh_witness : fresh (demo_game demo_lobby).
Proof.
  apply (lobby_rooms_are_fresh (run emptyServer demo_lobby) room).
  - now exists demo_lobby.
  - vm_compute. reflexivity.
  - vm_compute. reflexivity.
Defined.

(** * Whose turn it is *)

Lemma ids_badges g g' :
  badges g' = badges g -> id <$> players g' = id <$> players g.
Proof.
  unfold badges. intros H.
  apply (f_equal (fmap (fun b : string * string * bool => b.1.1))) in H.
  rewrite <- !list_fmap_compose in H. exact H.
Qed.

Lemma lookup_ids g g' k :
  badges g' = badges g ->
  id <$> players g' !! k = id <$> players g !! k.
Proof.
  intros H. rewrite <- !list_lookup_fmap. now rewrite (ids_badges _ _ H).
Qed.

Lemma advance_turn mk x :
  0 < length (players x) ->
  let g' := (advance mk x).1 in
  (advance mk x).2 = Broadcast (mk g') /\
  state g' = state x /\
  if bool_decide (state x = playing) then
    currentTurn g' = (currentTurn x + 1) mod length (players x) /\
    currentPlayerId g' = id <$> players g' !! currentTurn g'
  else
    currentTurn g' = currentTurn x /\ currentPlayerId g' = currentPlayerId x.
Proof.
  intros Hn. unfold advance. case_bool_decide as Hs; [|now repeat split].
  unfold nextTurn. cbn [players currentTurn set_currentTurn].
  destruct (lookup_lt_is_Some_2 (players x)
              ((currentTurn x + 1) mod length (players x))) as [p Hp].
  { apply Nat.mod_upper_bound. lia. }
  rewrite Hp. cbn. rewrite Hp. now repeat split.
Qed.

(** The end of a turn on a table of full hands: the room is told, and
    a game that is still playing afterwards has passed the turn to the
    next seat, while a game that is not leaves the turn where it was. *)
Lemma end_of_turn_turn mk x :
  0 < length (players x) ->
  tidy (end_of_turn mk x).1 ->
  let g' := (end_of_turn mk x).1 in
  (end_of_turn mk x).2 = Broadcast (mk g') /\
  if bool_decide (state g' = playing) then
    state x = playing /\
    currentTurn g' = (currentTurn x + 1) mod length (players x) /\
    currentPlayerId g' = id <$> players g' !! currentTurn g'
  else
    currentTurn g' = currentTurn x /\ currentPlayerId g' = currentPlayerId x.
Proof.
  intros Hn [Hfull _].
  destruct (end_of_turn_same_table mk x) as (Hh & _).
  rewrite Hh in Hfull. clear Hh. cbn zeta.
  unfold end_of_turn. destruct (truthy (caboCallerId x)).
  - case_bool_decide as Hend.
    + cbn [players set_turnsAfterCabo].
      destruct (score_all_full (players x) Hfull) as [Hok _].
      pose proof (score_all_length (players x)) as Hl.
      destruct (score_all (players x)) as [ps ok]. simpl in Hok, Hl.
      subst ok.
      match goal with |- context [advance mk ?y] =>
        destruct (advance_turn mk y) as (Ho & Hs & Ht) end.
      { cbn. lia. }
      split; [exact Ho|]. rewrite Hs. cbn [state set_state] in *.
      rewrite bool_decide_eq_false_2 in Ht by discriminate.
      rewrite bool_decide_eq_false_2 by discriminate. exact Ht.
    + destruct (advance_turn mk
                  (set_turnsAfterCabo (turnsAfterCabo x + 1) x))
        as (Ho & Hs & Ht); [exact Hn|].
      split; [exact Ho|]. rewrite Hs. cbn [state set_turnsAfterCabo] in *.
      case_bool_decide; [|exact Ht]. now split.
  - destruct (advance_turn mk x) as (Ho & Hs & Ht); [exact Hn|].
    split; [exact Ho|]. rewrite Hs.
    case_bool_decide; [|exact Ht]. now split.
Qed.

(** One legal play request on a table of full hands: a request that is
    not an accepted resolve step leaves the turn and the state alone. *)
Lemma play_turn_cases (m : Request) (g : Game) :
  legal_play m = true -> tidy g -> 0 < length (players g) ->
  let g' := (play m g).1 in
  (resolved m g = false /\
   currentTurn g' = currentTurn g /\
   currentPlayerId g' = currentPlayerId g /\ state g' = state g) \/
  (resolved m g = true /\
   if bool_decide (state g' = playing) then
     state g = playing /\
     currentTurn g' = (currentTurn g + 1) mod length (players g) /\
     currentPlayerId g' = id <$> players g' !! currentTurn g'
   else
     currentTurn g' = currentTurn g /\
     currentPlayerId g' = currentPlayerId g).
Proof.
  intros Hm Ht Hn.
  destruct (play_invariant m g Hm Ht) as (Ht' & _). revert Ht'.
  cbn zeta. unfold resolved.
  destruct m; simpl in Hm; try discriminate; cbn [play].
  - unfold draw_card. destruct (negb _); [now left|].
    destruct (bool_decide _); [now left|].
    destruct (pop (deck g)). now left.
  - unfold take_discard. destruct (negb _); [now left|].
    destruct (bool_decide _); [now left|].
    destruct (pop (discardPile g)). now left.
  - unfold replace_card. destruct (_ || _); [now left|].
    destruct (find_player _ _) as [[k p]|]; [|now left].
    intros Ht'. right.
    match goal with |- context [end_of_turn ?mk ?x] =>
      destruct (end_of_turn_turn mk x) as [Ho Hif] end;
      [cbn; now rewrite length_alter|exact Ht'|].
    rewrite Ho. split; [reflexivity|].
    cbn [players set_drawnCard set_discardPile set_players] in Hif.
    rewrite length_alter in Hif. exact Hif.
  - unfold discard_drawn. destruct (_ || _); [now left|].
    intros Ht'. right.
    match goal with |- context [end_of_turn ?mk ?x] =>
      destruct (end_of_turn_turn mk x) as [Ho Hif] end;
      [exact Hn|exact Ht'|].
    rewrite Ho. split; [reflexivity|]. exact Hif.
  - unfold call_cabo. destruct (negb _); [now left|].
    destruct (truthy _); [now left|].
    destruct (find_player _ _) as [[k p]|]; now left.
  - unfold peek_own_card.
    destruct (find_player _ _) as [[k p]|]; now left.
  - unfold peek_opponent_card.
    destruct (find_player _ _) as [[k p]|]; now left.
  - unfold switch_cards.
    destruct (find_player _ playerId) as [[kp p]|]; [|now left].
    destruct (find_player _ opponentId) as [[ko o]|]; now left.
Qed.

Lemma play_turn (m : Request) (g : Game) :
  legal_play m = true -> tidy g -> turn_ok g ->
  let g' := (play m g).1 in
  turn_ok g' /\
  (state g' = playing ->
   state g = playing /\
   currentTurn g' =
   (currentTurn g + (if resolved m g then 1 else 0))
     mod length (players g)).
Proof.
  intros Hm Ht [Hlt Hcur].
  destruct (play_invariant m g Hm Ht) as (_ & Hlen & _).
  destruct (play_same_seats m g) as (Hb & _).
  destruct (play_turn_cases m g Hm Ht) as
    [(-> & H1 & H2 & H3)|(-> & Hif)]; [lia| |]; cbn zeta in *.
  - split.
    + split; [lia|]. now rewrite H2, H1, (lookup_ids _ _ _ Hb).
    + intros Hs. split; [congruence|].
      rewrite H1, Nat.add_0_r. symmetry. now apply Nat.mod_small.
  - case_bool_decide as Hs.
    + destruct Hif as (Hs0 & H1 & H2). split.
      * split; [|exact H2]. rewrite H1, Hlen.
        apply Nat.mod_upper_bound. lia.
      * intros _. now split.
    + destruct Hif as (H1 & H2). split; [|contradiction].
      split; [lia|]. now rewrite H2, H1, (lookup_ids _ _ _ Hb).
Qed.

Lemma play_all_turn (ms : list Request) (g : Game) :
  Forall (fun m => legal_play m = true) ms -> tidy g -> turn_ok g ->
  let g' := play_all ms g in
  turn_ok g' /\
  length (players g') = length (players g) /\
  (state g' = playing ->
   state g = playing /\
   currentTurn g' =
   (currentTurn g + count_resolved ms g) mod length (players g)).
Proof.
  intros Hms. revert g.
  induction Hms as [|m ms Hm _ IH]; intros g Ht Hok; cbn zeta.
  - split; [exact Hok|]. split; [reflexivity|]. intros Hs.
    split; [exact Hs|]. simpl. rewrite Nat.add_0_r. symmetry.
    apply Nat.mod_small, Hok.
  - destruct (play_invariant m g Hm Ht) as (Ht1 & Hl1 & _).
    destruct (play_turn m g Hm Ht Hok) as (Hok1 & Hstep).
    destruct (IH _ Ht1 Hok1) as (Hok' & Hl' & Hrest).
    cbn zeta in *. unfold play_all in *. simpl.
    split; [exact Hok'|]. split; [lia|]. intros Hs.
    destruct (Hrest Hs) as [Hs1 Hcur]. destruct (Hstep Hs1) as [Hs0 Hcur1].
    split; [exact Hs0|].
    rewrite Hcur, Hl1, Hcur1.
    rewrite Nat.Div0.add_mod_idemp_l.
    f_equal. lia.
Qed.

Lemma start_game_turn (rnd : nat -> nat) (g : Game) :
  2 <= length (players g) ->
  let g' := (start_game rnd g).1 in
  currentTurn g' = currentTurn g /\
  currentPlayerId g' = id <$> players g !! 0.
Proof.
  intros Hn. unfold start_game. rewrite bool_decide_eq_false_2 by lia.
  destruct (pop (createDeck rnd)) as [top d1].
  now destruct (deal_all (players g) d1) as [ps d2].
Qed.

(** X12. From a room in the lobby of a state the server can reach, with
    at least 2 players, after START_GAME and any run of play requests
    with slot indices below 4: the turn index names a seat and
    [currentPlayerId] is the id of the player in that seat; and as long
    as the game is playing, the turn index is the number of resolve
    steps (REPLACE_CARD, DISCARD_DRAWN) that went through, modulo the
    number of players, so that the turn goes round the table one seat
    per resolve step, starting from the first player. *)
Theorem turn_goes_round_the_table
  (S : Server) (c : string) (g : Game) (r : Random) (ws : Conn)
  (es : list Event) :
  reachable S ->
  games S !! c = Some g ->
  state g = lobby ->
  2 <= length (players g) ->
  Forall (plays_in c) es ->
  exists g',
    games (run S ((r, ws, START_GAME c) :: es)) !! c = Some g' /\
    length (players g') = length (players g) /\
    currentTurn g' < length (players g') /\
    currentPlayerId g' = id <$> players g' !! currentTurn g' /\
    match state g' with
    | playing =>
        currentTurn g' =
        count_resolved (snd <$> es) (start_game (randomIndex r) g).1
          mod length (players g)
    | _ => True
    end.
Proof.
  intros HS Hg Hlobby Hn Hes.
  destruct (reachable_room_inv S c g HS Hg) as ((_ & Hmax & _) & _ & Hfresh).
  destruct (Hfresh Hlobby) as (_ & _ & _ & Hzero & _).
  destruct (run_from_start S c g r ws es Hg Hes) as [Hrun Hms].
  destruct (start_game_deals (randomIndex r) g) as (Ht & _ & _ & Hl & _);
    [lia|].
  destruct (start_game_turn (randomIndex r) g Hn) as [Hcur Hpid].
  destruct (start_game_same_seats (randomIndex r) g) as (Hb & _).
  cbn zeta in *.
  assert (turn_ok (start_game (randomIndex r) g).1) as Hok.
  { split; [lia|]. now rewrite Hpid, Hcur, Hzero, (lookup_ids _ _ _ Hb). }
  destruct (play_all_turn _ _ Hms Ht Hok) as ([H1 H2] & H3 & H4).
  cbn zeta in *.
  eexists. split; [exact Hrun|]. split; [lia|].
  split; [exact H1|]. split; [exact H2|].
  destruct (state (play_all _ _)) eqn:Hs; try exact I.
  destruct (H4 eq_refl) as [_ H5].
  now rewrite H5, Hcur, Hzero, Hl.
Qed.

(** X12, witness: in the example room Ann draws and discards, then Bob
    draws and replaces a card. *)
Lemma turn_goes_round_the_table_witness :
  let g := demo_game demo_lobby in
  let es := [(demo_random, 1, DRAW_CARD room "p1");
             (demo_random, 1, DISCARD_DRAWN room "p1");
             (demo_random, 2, DRAW_CARD room "p2");
             (demo_random, 2, REPLACE_CARD room "p2" 1)] in
  exists g',
    games (run (run emptyServer demo_lobby)
             ((demo_random, 1, START_GAME room) :: es)) !! room = Some g' /\
    length (players g') = length (players g) /\
    currentTurn g' < length (players g') /\
    currentPlayerId g' = id <$> players g' !! currentTurn g' /\
    match state g' with
    | playing =>
        currentTurn g' =
        count_resolved (snd <$> es) (start_game (randomIndex demo_random) g).1
          mod length (players g)
    | _ => True
    end.
Proof.
  apply (turn_goes_round_the_table (run emptyServer demo_lobby) room
           (demo_game demo_lobby) demo_random 1).
  - now exists demo_lobby.
  - vm_compute. reflexivity.
  - vm_compute. reflexivity.
  - vm_compute. lia.
  - repeat constructor.
Defined.

(** * One request on the registry *)

(** The game object a room holds after a request is the one it held
    before, or a new game, or what one handler body made of the one it
    held before. *)
Lemma handle_lookup r ws m S c g' :
  games (handle r ws m S).1 !! c = Some g' ->
  games S !! c = Some g' \/
  (exists playerName playerId,
      m = CREATE_GAME playerName playerId /\ randomCode r = c /\
      g' = newGame c playerId playerName) \/
  exists g,
    games S !! c = Some g /\
    ((exists playerName playerId,
         m = JOIN_GAME playerName playerId c /\
         g' = (join_game playerName playerId g).1) \/
     (m = START_GAME c /\ g' = (start_game (randomIndex r) g).1) \/
     (play_room m = Some c /\ g' = (play m g).1) \/
     (exists playerId,
         (m = LEAVE_GAME \/ m = Close) /\
         players (without playerId g) <> [] /\
         g' = handoff playerId g)).
Proof.
  assert (forall missing body gameCode,
             games (with_game S ws gameCode missing body).1 !! c = Some g' ->
             games S !! c = Some g' \/
             exists g, games S !! c = Some g /\ gameCode = c /\
                       g' = (body g).1) as Hwith.
  { intros missing body gameCode H. rewrite with_game_lookup in H.
    case_bool_decide as Hc; [|now left]. subst gameCode.
    destruct (games S !! c) as [g|]; [|discriminate].
    injection H as <-. right. now exists g. }
  assert (forall ex,
             games (leave S ws ex).1 !! c = Some g' ->
             games S !! c = Some g' \/
             exists g, games S !! c = Some g /\
                       exists playerId,
                         players (without playerId g) <> [] /\
                         g' = handoff playerId g) as Hleave.
  { intros ex H.
    apply leave_lookup in H as [H|(info & g & _ & _ & Hg & Hne & ->)];
      [now left|].
    right. exists g. split; [exact Hg|]. now eexists. }
  destruct m; cbn [handle]; intros H;
    try (apply Hwith in H as [H|(g & Hg & -> & ->)]; [now left|];
         right; right; exists g; split; [exact Hg|]).
  - simpl in H. apply lookup_insert_Some in H as [[<- <-]|[_ H]];
      [|now left].
    right. left. now exists playerName, playerId.
  - destruct (games S !! gameCode) as [game|] eqn:E; [|now left].
    destruct (join_game playerName playerId game) as [game' o] eqn:Ej.
    destruct o; try now left.
    simpl in H. apply lookup_insert_Some in H as [[<- <-]|[_ H]];
      [|now left].
    right. right. exists game. split; [exact E|]. left.
    exists playerName, playerId. now rewrite Ej.
  - right. now left.
  - right. right. now left.
  - right. right. now left.
  - right. right. now left.
  - right. right. now left.
  - right. right. now left.
  - right. right. now left.
  - right. right. now left.
  - right. right. now left.
  - assert (games (leave S ws None).1 !! c = Some g') as H'
      by now destruct (leave S ws None).
    apply Hleave in H' as [H'|(g & Hg & pid & Hne & ->)]; [now left|].
    right. right. exists g. split; [exact Hg|].
    right. right. right. exists pid. split; [now left|now split].
  - apply Hleave in H as [H|(g & Hg & pid & Hne & ->)]; [now left|].
    right. right. exists g. split; [exact Hg|].
    right. right. right. exists pid. split; [now right|now split].
  - now left.
Qed.

(** Only LEAVE_GAME and the close event take a room off the registry. *)
Lemma handle_lookup_None r ws m S c :
  games (handle r ws m S).1 !! c = None ->
  games S !! c = None \/ m = LEAVE_GAME \/ m = Close.
Proof.
  assert (forall missing body gameCode,
             games (with_game S ws gameCode missing body).1 !! c = None ->
             games S !! c = None) as Hwith.
  { intros missing body gameCode H. rewrite with_game_lookup in H.
    case_bool_decide as Hc; [|exact H]. subst gameCode.
    now destruct (games S !! c). }
  destruct m; cbn [handle]; intros H;
    try (left; now apply Hwith in H);
    try (right; now auto).
  - simpl in H. apply lookup_insert_None in H as [H _]. now left.
  - destruct (games S !! gameCode) as [game|] eqn:E; [|now left].
    destruct (join_game playerName playerId game) as [game' o].
    destruct o; try now left.
    simpl in H. apply lookup_insert_None in H as [H _]. now left.
  - now left.
Qed.

(** * Cabo, once called *)

Lemma advance_turnsAfterCabo mk g :
  turnsAfterCabo (advance mk g).1 = turnsAfterCabo g.
Proof.
  unfold advance. case_bool_decide; [|reflexivity].
  now destruct (players (nextTurn g) !! currentTurn (nextTurn g)).
Qed.

Lemma end_of_turn_turnsAfterCabo mk g :
  turnsAfterCabo g <= turnsAfterCabo (end_of_turn mk g).1.
Proof.
  unfold end_of_turn. destruct (truthy (caboCallerId g)).
  2: now rewrite advance_turnsAfterCabo.
  case_bool_decide.
  2: { rewrite advance_turnsAfterCabo. cbn. lia. }
  destruct (score_all _) as [ps [|]].
  - rewrite advance_turnsAfterCabo. cbn. lia.
  - cbn. lia.
Qed.

(** No play request changes a Cabo call that has been made, and none
    sets the countdown back. *)
Lemma play_cabo (m : Request) (g : Game) :
  truthy (caboCallerId g) = true ->
  caboCallerId (play m g).1 = caboCallerId g /\
  turnsAfterCabo g <= turnsAfterCabo (play m g).1.
Proof.
  intros Hc. destruct m; cbn [play]; try now split.
  - unfold draw_card. destruct (negb _); [now split|].
    destruct (bool_decide _); [now split|].
    now destruct (pop (deck g)).
  - unfold take_discard. destruct (negb _); [now split|].
    destruct (bool_decide _); [now split|].
    now destruct (pop (discardPile g)).
  - unfold replace_card. destruct (_ || _); [now split|].
    destruct (find_player _ _) as [[k p]|]; [|now split].
    match goal with |- context [end_of_turn ?mk ?x] =>
      destruct (end_of_turn_same_table mk x) as (_ & _ & _ & _ & H1);
      pose proof (end_of_turn_turnsAfterCabo mk x) as H2 end.
    split; [exact H1|exact H2].
  - unfold discard_drawn. destruct (_ || _); [now split|].
    match goal with |- context [end_of_turn ?mk ?x] =>
      destruct (end_of_turn_same_table mk x) as (_ & _ & _ & _ & H1);
      pose proof (end_of_turn_turnsAfterCabo mk x) as H2 end.
    split; [exact H1|exact H2].
  - unfold call_cabo. destruct (negb _); [now split|].
    rewrite Hc. now split.
  - unfold peek_own_card. now destruct (find_player _ _) as [[k p]|].
  - unfold peek_opponent_card. now destruct (find_player _ _) as [[k p]|].
  - unfold switch_cards.
    destruct (find_player _ playerId) as [[kp p]|]; [|now split].
    now destruct (find_player _ opponentId) as [[ko o]|].
Qed.

Lemma start_game_fields (rnd : nat -> nat) (g : Game) :
  2 <= length (players g) <= 12 ->
  let g' := (start_game rnd g).1 in
  state g' = playing /\
  currentPlayerId g' = id <$> players g !! 0 /\
  length (deck g') = 51 - 4 * length (players g) /\
  length (discardPile g') = 1.
Proof.
  intros Hn. unfold start_game. rewrite bool_decide_eq_false_2 by lia.
  destruct (pop_length (createDeck rnd) 51 (length_createDeck rnd))
    as (top & d1 & -> & H1).
  destruct (deal_all_full (players g) d1 (51 - 4 * length (players g)))
    as (_ & _ & Hd); [lia|].
  destruct (deal_all (players g) d1) as [ps d2]. now repeat split.
Qed.

Lemma start_game_cabo (rnd : nat -> nat) (g : Game) :
  caboCallerId (start_game rnd g).1 = caboCallerId g /\
  turnsAfterCabo (start_game rnd g).1 = turnsAfterCabo g.
Proof.
  unfold start_game. case_bool_decide; [now split|].
  destruct (pop (createDeck rnd)) as [top d1].
  now destruct (deal_all (players g) d1) as [ps d2].
Qed.

Lemma handoff_cabo playerId g :
  caboCallerId (handoff playerId g) = caboCallerId g /\
  turnsAfterCabo (handoff playerId g) = turnsAfterCabo g.
Proof.
  unfold handoff, promote. case_bool_decide; [|now split].
  now destruct (players (without playerId g)).
Qed.

Lemma join_game_cabo playerName playerId g :
  caboCallerId (join_game playerName playerId g).1 = caboCallerId g /\
  turnsAfterCabo (join_game playerName playerId g).1 = turnsAfterCabo g.
Proof.
  unfold join_game. case_bool_decide; [now split|].
  now destruct (existsb _ _).
Qed.

(** X13. Once Cabo has been called in a room, no request takes the call
    back or hands it to another player, and none sets the countdown
    back: whatever the server is sent (START_GAME included), the room
    keeps its [caboCallerId] and its [turnsAfterCabo] does not go down,
    unless the room is given up by its last player or overwritten by a
    CREATE_GAME that draws its code. *)
Theorem cabo_call_is_permanent
  (r : Random) (ws : Conn) (m : Request) (S : Server) (c : string)
  (g : Game) :
  games S !! c = Some g ->
  truthy (caboCallerId g) = true ->
  (forall playerName playerId, m <> CREATE_GAME playerName playerId) \/
  randomCode r <> c ->
  match games (handle r ws m S).1 !! c with
  | Some g' =>
      caboCallerId g' = caboCallerId g /\
      turnsAfterCabo g <= turnsAfterCabo g'
  | None => m = LEAVE_GAME \/ m = Close
  end.
Proof.
  intros Hg Hc Hm.
  destruct (games (handle r ws m S).1 !! c) as [g'|] eqn:E.
  - apply handle_lookup in E
      as [E|[(pn & pid & -> & Hr & _)|(g0 & Hg0 & E)]].
    + assert (g' = g) as -> by congruence. now split.
    + destruct Hm as [Hm|Hm]; [now destruct (Hm pn pid)|contradiction].
    + assert (g0 = g) as -> by congruence.
      destruct E as [(pn & pid & _ & ->)|[[_ ->]|[[_ ->]|(pid & _ & _ & ->)]]].
      * destruct (join_game_cabo pn pid g) as [-> ->]. now split.
      * destruct (start_game_cabo (randomIndex r) g) as [-> ->]. now split.
      * now apply play_cabo.
      * destruct (handoff_cabo pid g) as [-> ->]. now split.
  - apply handle_lookup_None in E as [E|E]; [congruence|exact E].
Qed.

(** X13, witness: the finished example room is started again. *)
Lemma cabo_call_is_permanent_witness :
  match games (handle demo_random 1 (START_GAME room)
                 (run emptyServer demo_finished)).1 !! room with
  | Some g' =>
      caboCallerId g' = caboCallerId (demo_game demo_finished) /\
      turnsAfterCabo (demo_game demo_finished) <= turnsAfterCabo g'
  | None => START_GAME room = LEAVE_GAME \/ START_GAME room = Close
  end.
Proof.
  apply (cabo_call_is_permanent demo_random 1 (START_GAME room)
           (run emptyServer demo_finished) room (demo_game demo_finished)).
  - vm_compute. reflexivity.
  - vm_compute. reflexivity.
  - left. discriminate.
Defined.

Lemma end_of_turn_finishes mk x :
  truthy (caboCallerId x) = true ->
  length (players x) <= turnsAfterCabo x + 1 ->
  Forall full_hand (hands x) ->
  let g' := (end_of_turn mk x).1 in
  (end_of_turn mk x).2 = Broadcast (mk g') /\
  state g' = finished /\ scored g' /\
  turnsAfterCabo g' = turnsAfterCabo x + 1.
Proof.
  intros Hc Hn Hfull. unfold end_of_turn. rewrite Hc.
  cbn [players turnsAfterCabo set_turnsAfterCabo].
  rewrite bool_decide_eq_true_2 by exact Hn.
  destruct (score_all_full (players x) Hfull) as [Hok Hscored].
  destruct (score_all (players x)) as [ps ok]. simpl in Hok, Hscored.
  subst ok. unfold advance. cbn [state set_state].
  rewrite bool_decide_eq_false_2 by discriminate.
  now repeat split.
Qed.

(** X14. START_GAME does not reset the Cabo call.  In a room where Cabo
    has been called and the countdown has reached the number of players
    less one (as it has in every game finished by the countdown), a new
    START_GAME deals again, and the first resolve step of the new game
    ends it at once: after the first player has drawn and discarded,
    the state is finished again and every player is scored. *)
Theorem restarted_game_ends_at_first_resolve
  (S : Server) (c : string) (g : Game) (p0 : Player)
  (r r1 r2 : Random) (ws ws1 ws2 : Conn) :
  games S !! c = Some g ->
  2 <= length (players g) <= 12 ->
  players g !! 0 = Some p0 ->
  truthy (caboCallerId g) = true ->
  length (players g) <= turnsAfterCabo g + 1 ->
  exists g',
    games (run S [(r, ws, START_GAME c);
                  (r1, ws1, DRAW_CARD c (id p0));
                  (r2, ws2, DISCARD_DRAWN c (id p0))]) !! c = Some g' /\
    state g' = finished /\
    scored g' /\
    caboCallerId g' = caboCallerId g /\
    turnsAfterCabo g' = turnsAfterCabo g + 1.
Proof.
  intros Hg Hn Hp0 Hc Hturns.
  destruct (run_from_start S c g r ws
              [(r1, ws1, DRAW_CARD c (id p0));
               (r2, ws2, DISCARD_DRAWN c (id p0))] Hg) as [Hrun _].
  { repeat constructor. }
  eexists. split; [exact Hrun|]. clear Hrun.
  destruct (start_game_deals (randomIndex r) g Hn) as (Ht & _ & _ & Hl & _).
  destruct (start_game_fields (randomIndex r) g Hn) as (_ & Hpid & Hdeck & _).
  destruct (start_game_cabo (randomIndex r) g) as [Hc1 Ht1].
  cbn zeta in *. rewrite Hp0 in Hpid. cbn in Hpid.
  set (g1 := (start_game (randomIndex r) g).1) in *.
  unfold play_all. cbn [fmap list_fmap snd fold_left play].
  assert (exists g2,
             (draw_card (id p0) g1).1 = g2 /\ is_Some (drawnCard g2) /\
             hands g2 = hands g1 /\ players g2 = players g1 /\
             currentPlayerId g2 = currentPlayerId g1 /\
             caboCallerId g2 = caboCallerId g1 /\
             turnsAfterCabo g2 = turnsAfterCabo g1) as
    (g2 & -> & Hheld & Hh2 & Hp2 & Hcur2 & Hc2 & Ht2).
  { unfold draw_card. rewrite Hpid.
    rewrite bool_decide_eq_true_2 by reflexivity. cbn [negb].
    case_bool_decide as Hd; [eexists; now repeat split|].
    destruct (pop_cases (deck g1)) as [[E _]|(l & x & _ & ->)].
    - rewrite E in Hdeck. simpl in Hdeck. lia.
    - eexists. split; [reflexivity|]. now repeat split. }
  unfold discard_drawn. rewrite Hcur2, Hpid.
  rewrite bool_decide_eq_true_2 by reflexivity.
  rewrite (bool_decide_eq_true_2 _ Hheld). cbn [negb orb].
  match goal with |- context [end_of_turn ?mk ?x] =>
    destruct (end_of_turn_finishes mk x) as (_ & Hs & Hsc & Hta);
    [| | |destruct (end_of_turn_same_table mk x) as (_ & _ & _ & _ & Hcc)]
  end.
  - cbn. now rewrite Hc2, Hc1.
  - cbn. rewrite Hp2, Ht2, Ht1. lia.
  - unfold hands. cbn. fold (hands g2). rewrite Hh2. apply Ht.
  - cbn zeta in *. split; [exact Hs|]. split; [exact Hsc|].
    split.
    + rewrite Hcc. cbn. now rewrite Hc2, Hc1.
    + rewrite Hta. cbn. now rewrite Ht2, Ht1.
Qed.

(** X14, witness: the finished example room is started again. *)
Lemma restarted_game_ends_at_first_resolve_witness :
  exists g',
    games (run (run emptyServer demo_finished)
             [(demo_random, 1, START_GAME room);
              (demo_random, 1, DRAW_CARD room "p1");
              (demo_random, 1, DISCARD_DRAWN room "p1")]) !! room = Some g' /\
    state g' = finished /\
    scored g' /\
    caboCallerId g' = caboCallerId (demo_game demo_finished) /\
    turnsAfterCabo g' = turnsAfterCabo (demo_game demo_finished) + 1.
Proof.
  apply (restarted_game_ends_at_first_resolve
           (run emptyServer demo_finished) room (demo_game demo_finished)
           (mkPlayer "p1" "ann" true
              (cards (default (newPlayer "" "" false)
                        (players (demo_game demo_finished) !! 0)))
              (score (default (newPlayer "" "" false)
                        (players (demo_game demo_finished) !! 0)))
              true)
           demo_random demo_random demo_random 1 1 1).
  - vm_compute. reflexivity.
  - vm_compute. lia.
  - vm_compute. reflexivity.
  - vm_compute. reflexivity.
  - vm_compute. lia.
Defined.

(** * Connections and rooms *)

Lemma clients_get_set_ne cl ws ws' info :
  ws' <> ws -> clients_get (clients_set cl ws info) ws' = clients_get cl ws'.
Proof.
  intros Hne. induction cl as [|[c i] cl IH]; simpl.
  - now rewrite bool_decide_eq_false_2 by congruence.
  - case_bool_decide as E; simpl.
    + subst c. now rewrite !bool_decide_eq_false_2 by congruence.
    + now rewrite IH.
Qed.

Lemma clients_get_delete_ne cl ws ws' :
  ws' <> ws -> clients_get (clients_delete cl ws) ws' = clients_get cl ws'.
Proof.
  intros Hne. unfold clients_delete.
  induction cl as [|[c i] cl IH]; [reflexivity|].
  rewrite filter_cons. simpl. destruct (decide (c <> ws)) as [E|E]; simpl.
  - now rewrite IH.
  - assert (c = ws) as -> by (destruct (decide (c = ws)); tauto).
    now rewrite bool_decide_eq_false_2 by congruence.
Qed.

Lemma clients_get_delete cl ws : clients_get (clients_delete cl ws) ws = None.
Proof.
  unfold clients_delete. induction cl as [|[c i] cl IH]; [reflexivity|].
  rewrite filter_cons. simpl. destruct (decide (c <> ws)) as [E|E]; simpl.
  - now rewrite bool_decide_eq_false_2.
  - exact IH.
Qed.

Lemma clients_set_elem cl ws info conn i :
  (conn, i) ∈ clients_set cl ws info -> conn <> ws -> (conn, i) ∈ cl.
Proof.
  intros H Hne. induction cl as [|[c j] cl IH]; simpl in H.
  - apply list_elem_of_singleton in H. congruence.
  - case_bool_decide as E.
    + apply elem_of_cons in H as [H|H]; [congruence|].
      now apply list_elem_of_further.
    + apply elem_of_cons in H as [H|H].
      * rewrite H. apply list_elem_of_here.
      * apply list_elem_of_further. now apply IH.
Qed.

Lemma leave_clients S ws ex ws' :
  ws' <> ws ->
  clients_get (clients (leave S ws ex).1) ws' = clients_get (clients S) ws'.
Proof.
  intros Hne. unfold leave.
  destruct (clients_get (clients S) ws) as [info|]; [|reflexivity].
  destruct (games S !! client_gameCode info) as [game|]; simpl.
  - case_bool_decide; simpl; now apply clients_get_delete_ne.
  - now apply clients_get_delete_ne.
Qed.

Lemma leave_games_ne S ws ex c :
  client_gameCode <$> clients_get (clients S) ws <> Some c ->
  games (leave S ws ex).1 !! c = games S !! c.
Proof.
  intros Hne. unfold leave.
  destruct (clients_get (clients S) ws) as [info|]; [|reflexivity].
  assert (client_gameCode info <> c) as Hc by (simpl in Hne; congruence).
  destruct (games S !! client_gameCode info) as [game|]; simpl;
    [|reflexivity].
  case_bool_decide; simpl.
  - now apply lookup_delete_ne.
  - now apply lookup_insert_ne.
Qed.

(** X15. A request touches one room and one registration: every room
    other than the one the request addresses holds the game object it
    held, and every connection other than the sender is registered as
    it was. *)
Theorem request_touches_one_room
  (r : Random) (ws : Conn) (m : Request) (S : Server) (c : string)
  (ws' : Conn) :
  addressed r ws m S <> Some c ->
  ws' <> ws ->
  games (handle r ws m S).1 !! c = games S !! c /\
  clients_get (clients (handle r ws m S).1) ws' = clients_get (clients S) ws'.
Proof.
  intros Hc Hws.
  destruct m; cbn [handle addressed play_room] in *;
    try (split; [rewrite with_game_lookup;
                 now rewrite bool_decide_eq_false_2 by congruence
                |now rewrite with_game_clients]).
  - simpl. split.
    + apply lookup_insert_ne. congruence.
    + now apply clients_get_set_ne.
  - destruct (games S !! gameCode) as [game|]; [|now split].
    destruct (join_game playerName playerId game) as [game' o].
    destruct o; try now split.
    simpl. split.
    + apply lookup_insert_ne. congruence.
    + now apply clients_get_set_ne.
  - pose proof (leave_games_ne S ws None c Hc) as H1.
    pose proof (leave_clients S ws None ws' Hws) as H2.
    now destruct (leave S ws None).
  - split; [now apply leave_games_ne|now apply leave_clients].
  - now split.
Qed.

(** X15, witness: Ann's draw in the example room, seen from a room that
    does not exist and from Bob's connection. *)
Lemma request_touches_one_room_witness :
  let S := run emptyServer demo_started in
  games (handle demo_random 1 (DRAW_CARD room "p1") S).1 !! "OTHER"
  = games S !! "OTHER" /\
  clients_get (clients (handle demo_random 1 (DRAW_CARD room "p1") S).1) 2
  = clients_get (clients S) 2.
Proof.
  apply (request_touches_one_room demo_random 1 (DRAW_CARD room "p1")
           (run emptyServer demo_started) "OTHER" 2).
  - vm_compute. discriminate.
  - lia.
Defined.

(** * Who is sent what *)

Lemma broadcast_elem cl c m ex conn msg :
  (conn, msg) ∈ broadcast cl c m ex ->
  msg = m /\ ex <> Some conn /\
  exists info, (conn, info) ∈ cl /\ client_gameCode info = c.
Proof.
  unfold broadcast. intros H.
  apply list_elem_of_omap in H as ([conn' info] & Hin & H). simpl in H.
  destruct (bool_decide (client_gameCode info = c)) eqn:E1; [|discriminate].
  destruct (bool_decide (ex = Some conn')) eqn:E2; [discriminate|].
  simpl in H. injection H as <- <-.
  apply bool_decide_eq_true in E1. apply bool_decide_eq_false in E2.
  split; [reflexivity|]. split; [exact E2|]. now exists info.
Qed.

Lemma emit_elem cl ws c o conn msg :
  (conn, msg) ∈ emit cl ws c o -> conn <> ws ->
  exists info, (conn, info) ∈ cl /\ client_gameCode info = c.
Proof.
  intros H Hne. destruct o; simpl in H.
  - apply list_elem_of_singleton in H. congruence.
  - apply elem_of_app in H as [H|H].
    + now apply broadcast_elem in H as (_ & _ & H).
    + apply list_elem_of_singleton in H. congruence.
  - apply elem_of_cons in H as [H|H]; [congruence|].
    now apply broadcast_elem in H as (_ & _ & H).
  - now apply elem_of_nil in H.
  - now apply elem_of_nil in H.
Qed.

Lemma with_game_elem S ws c body conn msg (e : string) (quiet : bool) :
  (conn, msg) ∈ (with_game S ws c
                   (if quiet then [] else [(ws, ERROR e)]) body).2 ->
  conn <> ws ->
  exists info, (conn, info) ∈ clients S /\ client_gameCode info = c.
Proof.
  unfold with_game. intros H Hne.
  destruct (games S !! c) as [g|].
  - destruct (body g) as [g' o]. simpl in H. now apply emit_elem in H.
  - simpl in H. destruct quiet.
    + now apply elem_of_nil in H.
    + apply list_elem_of_singleton in H. congruence.
Qed.

Lemma leave_elem S ws ex conn msg :
  (conn, msg) ∈ (leave S ws ex).2 ->
  exists info,
    (conn, info) ∈ clients S /\
    client_gameCode <$> clients_get (clients S) ws
    = Some (client_gameCode info).
Proof.
  unfold leave.
  destruct (clients_get (clients S) ws) as [info|];
    [|intros H; now apply elem_of_nil in H].
  destruct (games S !! client_gameCode info) as [game|]; simpl;
    [|intros H; now apply elem_of_nil in H].
  case_bool_decide; simpl; intros Hm; [now apply elem_of_nil in Hm|].
  apply broadcast_elem in Hm as (_ & _ & info' & Hin & Hc).
  exists info'. split; [exact Hin|]. now rewrite Hc.
Qed.

(** X16. Whatever the request, a message goes to the sender or to a
    connection registered in the room the request addresses: nothing is
    ever sent into another room, and a request that addresses no room
    is answered to the sender alone. *)
Theorem messages_stay_in_the_room
  (r : Random) (ws : Conn) (m : Request) (S : Server) (conn : Conn)
  (msg : ServerMsg) :
  (conn, msg) ∈ (handle r ws m S).2 ->
  conn <> ws ->
  exists info,
    (conn, info) ∈ clients S /\
    addressed r ws m S = Some (client_gameCode info).
Proof.
  intros H Hne.
  destruct m; cbn [handle addressed play_room] in *;
    try (apply (with_game_elem S ws _ _ conn msg _ false) in H
           as (info & Hin & <-); [now exists info|exact Hne]);
    try (apply (with_game_elem S ws _ _ conn msg "" true) in H
           as (info & Hin & <-); [now exists info|exact Hne]).
  - simpl in H. apply list_elem_of_singleton in H. congruence.
  - destruct (games S !! gameCode) as [game|].
    2: { simpl in H. apply list_elem_of_singleton in H. congruence. }
    destruct (join_game playerName playerId game) as [game' o].
    destruct o; simpl in H;
      try (apply list_elem_of_singleton in H; congruence);
      try (now apply elem_of_nil in H).
    + apply elem_of_app in H as [H|H];
        [|apply list_elem_of_singleton in H; congruence].
      apply broadcast_elem in H as (_ & _ & info & Hin & <-).
      now exists info.
    + apply elem_of_cons in H as [H|H]; [congruence|].
      apply broadcast_elem in H as (_ & _ & info & Hin & <-).
      exists info. split; [|reflexivity].
      now apply clients_set_elem in Hin.
  - assert ((conn, msg) ∈ (leave S ws None).2) as H'.
    { destruct (leave S ws None) as [S' out]. simpl in *.
      apply elem_of_app in H as [H|H]; [exact H|].
      apply list_elem_of_singleton in H. congruence. }
    now apply leave_elem in H'.
  - now apply leave_elem in H.
  - now apply elem_of_nil in H.
Qed.

(** X16, witness: Ann's draw in the example room reaches Bob, who is
    registered in that room. *)
Lemma messages_stay_in_the_room_witness :
  let S := run emptyServer demo_started in
  exists info,
    (2, info) ∈ clients S /\
    addressed demo_random 1 (DRAW_CARD room "p1") S
    = Some (client_gameCode info).
Proof.
  apply (messages_stay_in_the_room demo_random 1 (DRAW_CARD room "p1")
           (run emptyServer demo_started) 2
           (default GAME_LEFT
              (snd <$> head (handle demo_random 1 (DRAW_CARD room "p1")
                               (run emptyServer demo_started)).2))).
  - vm_compute. apply list_elem_of_further, list_elem_of_here.
  - lia.
Defined.

(** X17. The server never checks who sends a play request or a
    START_GAME: the state it leaves is the same whichever connection
    the request comes from, registered in the room or not, so that any
    connection can move for any player whose id it names. *)
Theorem any_connection_may_play
  (r : Random) (ws ws' : Conn) (m : Request) (S : Server) (c : string) :
  keeps_seats c m ->
  (handle r ws m S).1 = (handle r ws' m S).1.
Proof.
  intros [Hm| ->].
  - destruct m; try discriminate; cbn [handle]; unfold with_game;
      destruct (games S !! _) as [g|]; try reflexivity;
      match goal with |- context [let '(_, _) := ?b in _] =>
        now destruct b end.
  - cbn [handle]. unfold with_game.
    destruct (games S !! c) as [g|]; [|reflexivity].
    now destruct (start_game (randomIndex r) g).
Qed.

(** X17, witness: Ann's draw sent over a connection nobody registered. *)
Lemma any_connection_may_play_witness :
  (handle demo_random 1 (DRAW_CARD room "p1")
     (run emptyServer demo_started)).1
  = (handle demo_random 99 (DRAW_CARD room "p1")
       (run emptyServer demo_started)).1.
Proof.
  apply (any_connection_may_play demo_random 1 99 (DRAW_CARD room "p1")
           (run emptyServer demo_started) room).
  left. reflexivity.
Defined.

(** X18. The two peeks only read: they leave the whole server state as
    it was, never answer with an error, and send at most one message,
    to the sender alone. *)
Theorem peeks_only_read
  (r : Random) (ws : Conn) (m : Request) (S : Server) :
  is_peek m = true ->
  (handle r ws m S).1 = S /\
  length (handle r ws m S).2 <= 1 /\
  Forall (fun o => o.1 = ws /\ is_error o.2 = false) (handle r ws m S).2.
Proof.
  intros Hm.
  destruct m; try discriminate; cbn [handle]; unfold with_game;
    destruct (games S !! gameCode) as [g|] eqn:Hg;
    try (split; [reflexivity|split; [simpl; lia|constructor]]).
  - unfold peek_own_card.
    destruct (find_player _ _) as [[k p]|]; simpl;
      rewrite (insert_id _ _ _ Hg), server_eta;
      (split; [reflexivity|split; [lia|now repeat constructor]]).
  - unfold peek_opponent_card.
    destruct (find_player _ _) as [[k p]|]; simpl;
      rewrite (insert_id _ _ _ Hg), server_eta;
      (split; [reflexivity|split; [lia|now repeat constructor]]).
Qed.

(** X18, witness: Bob looks at Ann's second card. *)
Lemma peeks_only_read_witness :
  let m := PEEK_OPPONENT_CARD room "p2" "p1" 1 in
  let S := run emptyServer demo_started in
  (handle demo_random 2 m S).1 = S /\
  length (handle demo_random 2 m S).2 <= 1 /\
  Forall (fun o => o.1 = 2 /\ is_error o.2 = false) (handle demo_random 2 m S).2.
Proof.
  apply (peeks_only_read demo_random 2 (PEEK_OPPONENT_CARD room "p2" "p1" 1)
           (run emptyServer demo_started)).
  reflexivity.
Defined.

(** * Leaving a room *)

Lemma leave_room S ws ex info g :
  clients_get (clients S) ws = Some info ->
  games S !! client_gameCode info = Some g ->
  (leave S ws ex).1
  = mkServer
      (if bool_decide (length (players (without (client_playerId info) g)) = 0)
       then delete (client_gameCode info) (games S)
       else <[client_gameCode info := handoff (client_playerId info) g]>
              (games S))
      (clients_delete (clients S) ws).
Proof.
  intros Hi Hg. unfold leave. rewrite Hi, Hg.
  unfold handoff, without. cbn [players set_players].
  now case_bool_decide.
Qed.

Lemma handoff_guests playerId g :
  guest <$> players (handoff playerId g)
  = guest <$> filter (fun p => id p <> playerId) (players g).
Proof.
  unfold handoff, promote, without. cbn [players set_players host].
  case_bool_decide; [|reflexivity].
  now destruct (filter _ (players g)).
Qed.

Lemma handoff_same_play playerId g : same_play g (handoff playerId g).
Proof.
  unfold handoff, promote. case_bool_decide; [|now repeat split].
  destruct (players (without playerId g)); now repeat split.
Qed.

(** X19. LEAVE_GAME from a connection registered in a room: the
    connection is no longer registered, and the sender is told GAME_LEFT
    last.  Every player with the connection's player id is taken out
    of the room.  If nobody is left the room is taken off the
    registry.  Otherwise the room stays: the players left keep their
    order, hands and scores, and the game keeps its state, piles, held
    card, turn index, current player and Cabo call as they were, also
    when the player who left was the one to move.  The close event
    leaves the same state and sends the closed connection nothing. *)
Theorem leaving_removes_the_player
  (r : Random) (ws : Conn) (S : Server) (info : ClientInfo) (g : Game) :
  clients_get (clients S) ws = Some info ->
  games S !! client_gameCode info = Some g ->
  (handle r ws Close S).1 = (handle r ws LEAVE_GAME S).1 /\
  clients_get (clients (handle r ws LEAVE_GAME S).1) ws = None /\
  last (handle r ws LEAVE_GAME S).2 = Some (ws, GAME_LEFT) /\
  Forall (fun o => o.1 <> ws) (handle r ws Close S).2 /\
  match filter (fun p => id p <> client_playerId info) (players g) with
  | [] => games (handle r ws LEAVE_GAME S).1 !! client_gameCode info = None
  | p :: rest =>
      exists g',
        games (handle r ws LEAVE_GAME S).1 !! client_gameCode info
        = Some g' /\
        guest <$> players g' = guest <$> p :: rest /\
        same_play g g'
  end.
Proof.
  intros Hi Hg. cbn [handle].
  pose proof (leave_room S ws None info g Hi Hg) as E1.
  pose proof (leave_room S ws (Some ws) info g Hi Hg) as E2.
  assert (forall ex, Forall (fun o => ex <> Some o.1) (leave S ws ex).2)
    as Hout.
  { intros ex. apply Forall_forall. intros [conn msg] Hin.
    unfold leave in Hin. rewrite Hi, Hg in Hin.
    destruct (bool_decide _); simpl in Hin; [now apply elem_of_nil in Hin|].
    now apply broadcast_elem in Hin as (_ & Hne & _). }
  specialize (Hout (Some ws)).
  destruct (leave S ws None) as [S1 out1].
  destruct (leave S ws (Some ws)) as [S2 out2].
  simpl in *. subst S1 S2.
  split; [reflexivity|]. split; [apply clients_get_delete|].
  split; [apply last_snoc|]. split.
  { eapply Forall_impl; [exact Hout|]. intros o Ho. simpl in Ho. congruence. }
  cbn [games]. pose proof (handoff_guests (client_playerId info) g) as Hgs.
  unfold without. cbn [players set_players].
  destruct (filter (fun p => id p <> client_playerId info) (players g))
    as [|p rest].
  - rewrite bool_decide_eq_true_2 by reflexivity. apply lookup_delete_eq.
  - rewrite bool_decide_eq_false_2 by discriminate.
    eexists. split; [apply lookup_insert_eq|].
    split; [exact Hgs|apply handoff_same_play].
Qed.

(** X19, witness: Bob leaves the started example room. *)
Lemma leaving_removes_the_player_witness :
  let S := run emptyServer demo_started in
  let g := demo_game demo_started in
  (handle demo_random 2 Close S).1 = (handle demo_random 2 LEAVE_GAME S).1 /\
  clients_get (clients (handle demo_random 2 LEAVE_GAME S).1) 2 = None /\
  last (handle demo_random 2 LEAVE_GAME S).2 = Some (2, GAME_LEFT) /\
  Forall (fun o => o.1 <> 2) (handle demo_random 2 Close S).2 /\
  match filter (fun p => id p <> "p2") (players g) with
  | [] => games (handle demo_random 2 LEAVE_GAME S).1 !! room = None
  | p :: rest =>
      exists g',
        games (handle demo_random 2 LEAVE_GAME S).1 !! room = Some g' /\
        guest <$> players g' = guest <$> p :: rest /\
        same_play g g'
  end.
Proof.
  apply (leaving_removes_the_player demo_random 2
           (run emptyServer demo_started) (mkClientInfo "p2" room)
           (demo_game demo_started)).
  - vm_compute. reflexivity.
  - vm_compute. reflexivity.
Defined.

(** The turn guard: a request guarded by the turn, sent for a player
    who is not the one to move, is turned down and changes nothing. *)
Lemma turn_guard r ws m S c g playerId :
  games S !! c = Some g ->
  currentPlayerId g <> Some playerId ->
  turn_request c playerId m ->
  exists e, handle r ws m S = (S, [(ws, ERROR e)]).
Proof.
  intros Hg Hcur [-> | [-> | [[i ->] | [-> | ->]]]]; cbn [handle];
    eexists;
    apply (with_game_unchanged _ _ _ _ _ g (Reply (ERROR _)) Hg).
  - unfold draw_card. now rewrite bool_decide_eq_false_2.
  - unfold take_discard. now rewrite bool_decide_eq_false_2.
  - unfold replace_card. now rewrite bool_decide_eq_false_2.
  - unfold discard_drawn. now rewrite bool_decide_eq_false_2.
  - unfold call_cabo. now rewrite bool_decide_eq_false_2.
Qed.

(** X20. When the player whose turn it is leaves a room and somebody
    stays, [currentPlayerId] goes on naming the player who left: every
    draw, take-discard, replace, discard and Cabo call sent for a player
    still in the room is turned down with an error and changes
    nothing. *)
Theorem game_stalls_when_current_player_leaves
  (r r' : Random) (ws ws' : Conn) (S : Server) (info : ClientInfo)
  (g : Game) (q : Player) (m : Request) :
  clients_get (clients S) ws = Some info ->
  games S !! client_gameCode info = Some g ->
  currentPlayerId g = Some (client_playerId info) ->
  q ∈ players g ->
  id q <> client_playerId info ->
  turn_request (client_gameCode info) (id q) m ->
  exists g' e,
    games (handle r ws LEAVE_GAME S).1 !! client_gameCode info = Some g' /\
    guest q ∈ guest <$> players g' /\
    currentPlayerId g' = Some (client_playerId info) /\
    Forall (fun p => id p <> client_playerId info) (players g') /\
    handle r' ws' m (handle r ws LEAVE_GAME S).1
    = ((handle r ws LEAVE_GAME S).1, [(ws', ERROR e)]).
Proof.
  intros Hi Hg Hcur Hq Hne Hm. cbn [handle].
  pose proof (leave_room S ws None info g Hi Hg) as E.
  destruct (leave S ws None) as [S1 out1]. simpl in E. subst S1.
  cbn [fst].
  assert (q ∈ filter (fun p => id p <> client_playerId info) (players g))
    as Hq' by (apply list_elem_of_filter; now split).
  rewrite bool_decide_eq_false_2.
  2: { unfold without. cbn. intros Hl. apply nil_length_inv in Hl.
       rewrite Hl in Hq'. now apply elem_of_nil in Hq'. }
  set (S' := mkServer _ _).
  assert (games S' !! client_gameCode info
          = Some (handoff (client_playerId info) g)) as Hg'
    by apply lookup_insert_eq.
  destruct (handoff_same_play (client_playerId info) g)
    as (_ & _ & _ & _ & _ & _ & _ & Hc & _).
  destruct (turn_guard r' ws' m S' _ _ (id q) Hg') as [e He];
    [rewrite Hc, Hcur; congruence|exact Hm|].
  exists (handoff (client_playerId info) g), e.
  split; [exact Hg'|]. split; [|split; [|split]].
  - rewrite handoff_guests. now apply list_elem_of_fmap_2.
  - now rewrite Hc.
  - apply Forall_forall. intros p Hp.
    apply (list_elem_of_fmap_2 guest) in Hp. rewrite handoff_guests in Hp.
    apply list_elem_of_fmap in Hp as (p' & Hpp & Hin).
    apply list_elem_of_filter in Hin as [Hin _].
    unfold guest in Hpp. injection Hpp as Hid _ _ _ _. congruence.
  - exact He.
Qed.

(** X20, witness: Ann, whose turn it is, leaves the started example
    room; Bob's draw is turned down. *)
Lemma game_stalls_when_current_player_leaves_witness :
  let S := run emptyServer demo_started in
  let bob := default (newPlayer "" "" false)
               (players (demo_game demo_started) !! 1) in
  exists g' e,
    games (handle demo_random 1 LEAVE_GAME S).1 !! room = Some g' /\
    guest bob ∈ guest <$> players g' /\
    currentPlayerId g' = Some "p1" /\
    Forall (fun p => id p <> "p1") (players g') /\
    handle demo_random 2 (DRAW_CARD room "p2")
      (handle demo_random 1 LEAVE_GAME S).1
    = ((handle demo_random 1 LEAVE_GAME S).1, [(2, ERROR e)]).
Proof.
  apply (game_stalls_when_current_player_leaves demo_random demo_random 1 2
           (run emptyServer demo_started) (mkClientInfo "p1" room)
           (demo_game demo_started)
           (default (newPlayer "" "" false)
              (players (demo_game demo_started) !! 1))
           (DRAW_CARD room "p2")).
  - vm_compute. reflexivity.
  - vm_compute. reflexivity.
  - vm_compute. reflexivity.
  - vm_compute. apply list_elem_of_further, list_elem_of_here.
  - vm_compute. discriminate.
  - left. reflexivity.
Defined.

(** * A hand that cannot be scored *)

Lemma score_all_raises (ps : list Player) :
  Exists (fun p => has_undefined (cards p) = true) ps ->
  (score_all ps).2 = false.
Proof.
  induction ps as [|p ps IH]; intros H; [now apply Exists_nil in H|].
  simpl. unfold calculateScore. rewrite calculateScore_from_slots.
  destruct (has_undefined (cards p)) eqn:E; [reflexivity|].
  apply Exists_cons in H as [H|H]; [congruence|].
  specialize (IH H). now destruct (score_all ps) as [rest ok].
Qed.

(** X21. When the Cabo countdown runs out while some hand holds an
    explicit [undefined] (as a SWITCH_CARDS with an index past the end
    of the opponent's hand leaves behind), the scoring raises: the
    DISCARD_DRAWN that should end the round discards the held card and
    counts the turn, but the state is not set to finished, the turn is
    not passed, and nobody is sent anything, not even the sender. *)
Theorem scoring_error_blocks_the_end
  (r : Random) (ws : Conn) (S : Server) (c : string) (g : Game)
  (playerId : string) (card : Card) :
  games S !! c = Some g ->
  currentPlayerId g = Some playerId ->
  drawnCard g = Some card ->
  truthy (caboCallerId g) = true ->
  length (players g) <= turnsAfterCabo g + 1 ->
  Exists (fun p => has_undefined (cards p) = true) (players g) ->
  exists g',
    handle r ws (DISCARD_DRAWN c playerId) S
    = (mkServer (<[c := g']> (games S)) (clients S), []) /\
    state g' = state g /\
    turnsAfterCabo g' = turnsAfterCabo g + 1 /\
    drawnCard g' = None /\
    discardPile g' = discardPile g ++ [Some card] /\
    deck g' = deck g /\ hands g' = hands g /\
    currentTurn g' = currentTurn g /\
    currentPlayerId g' = currentPlayerId g.
Proof.
  intros Hg Hcur Hheld Hc Hn Hundef. cbn [handle].
  unfold with_game, discard_drawn. rewrite Hg, Hcur, Hheld.
  rewrite bool_decide_eq_true_2 by reflexivity.
  rewrite bool_decide_eq_true_2 by (now eexists). cbn [negb orb].
  unfold end_of_turn.
  cbn [caboCallerId players turnsAfterCabo set_drawnCard set_discardPile
       set_turnsAfterCabo].
  rewrite Hc. rewrite bool_decide_eq_true_2 by exact Hn.
  pose proof (score_all_raises _ Hundef) as Hraise.
  pose proof (score_all_cards (players g)) as Hcards.
  destruct (score_all (players g)) as [ps ok]. simpl in Hraise, Hcards.
  subst ok. eexists. split; [reflexivity|].
  unfold hands. cbn. now repeat split.
Qed.

(** X21, witness: Ann has switched her first card with a slot Bob does
    not have and called Cabo; Bob's discard should end the round. *)
Lemma scoring_error_blocks_the_end_witness :
  let S := run emptyServer demo_undefined in
  let g := demo_game demo_undefined in
  let card := default (mkCard Spades VA) (drawnCard g) in
  exists g',
    handle demo_random 2 (DISCARD_DRAWN room "p2") S
    = (mkServer (<[room := g']> (games S)) (clients S), []) /\
    state g' = state g /\
    turnsAfterCabo g' = turnsAfterCabo g + 1 /\
    drawnCard g' = None /\
    discardPile g' = discardPile g ++ [Some card] /\
    deck g' = deck g /\ hands g' = hands g /\
    currentTurn g' = currentTurn g /\
    currentPlayerId g' = currentPlayerId g.
Proof.
  apply (scoring_error_blocks_the_end demo_random 2
           (run emptyServer demo_undefined) room (demo_game demo_undefined)
           "p2"
           (default (mkCard Spades VA)
              (drawnCard (demo_game demo_undefined)))).
  - vm_compute. reflexivity.
  - vm_compute. reflexivity.
  - vm_compute. reflexivity.
  - vm_compute. reflexivity.
  - vm_compute. lia.
  - vm_compute. apply Exists_cons_hd. reflexivity.
Defined.

(** * Calling Cabo *)

(** X22. CALL_CABO is turned down with "Not your turn" when the room
    does not exist or the request does not name the player to move, and
    with "Cabo already called" when [caboCallerId] is set; either way
    nothing changes.  Otherwise it records the caller and sets the
    countdown to 0, and touches nothing else: the caller's turn goes
    on, and a held card stays held.  The call counts as made from then
    on unless the caller's id is the empty string.  The room is told
    the caller's name if the caller sits in the room; if not, nobody is
    told. *)
Theorem call_cabo_guards_and_effect
  (r : Random) (ws : Conn) (S : Server) (c playerId : string) :
  match games S !! c with
  | None =>
      handle r ws (CALL_CABO c playerId) S
      = (S, [(ws, ERROR "Not your turn")])
  | Some g =>
      if negb (bool_decide (currentPlayerId g = Some playerId)) then
        handle r ws (CALL_CABO c playerId) S
        = (S, [(ws, ERROR "Not your turn")])
      else if truthy (caboCallerId g) then
        handle r ws (CALL_CABO c playerId) S
        = (S, [(ws, ERROR "Cabo already called")])
      else
        exists g',
          (handle r ws (CALL_CABO c playerId) S).1
          = mkServer (<[c := g']> (games S)) (clients S) /\
          caboCallerId g' = Some playerId /\
          turnsAfterCabo g' = 0 /\
          same_turn g g' /\
          truthy (caboCallerId g') = negb (bool_decide (playerId = "")) /\
          (handle r ws (CALL_CABO c playerId) S).2
          = match find_player (players g) playerId with
            | Some (_, p) =>
                broadcast (clients S) c (CABO_CALLED g' (name p)) None
                ++ [(ws, CABO_CALLED g' (name p))]
            | None => []
            end
  end.
Proof.
  cbn [handle]. destruct (games S !! c) as [g|] eqn:Hg.
  2: { unfold with_game. now rewrite Hg. }
  destruct (negb (bool_decide (currentPlayerId g = Some playerId))) eqn:E1.
  { apply (with_game_unchanged _ _ _ _ _ g (Reply (ERROR _)) Hg).
    unfold call_cabo. now rewrite E1. }
  destruct (truthy (caboCallerId g)) eqn:E2.
  { apply (with_game_unchanged _ _ _ _ _ g (Reply (ERROR _)) Hg).
    unfold call_cabo. now rewrite E1, E2. }
  unfold with_game, call_cabo. rewrite Hg, E1, E2.
  cbn [players set_turnsAfterCabo set_caboCallerId].
  exists (set_turnsAfterCabo 0 (set_caboCallerId (Some playerId) g)).
  destruct (find_player (players g) playerId) as [[k p]|];
    (split; [reflexivity|]); now repeat split.
Qed.

(** * Replacing a card *)

Lemma slot_alter (g g' : Game) (f : list Slot -> list Slot) (k q : nat) :
  hands g' = alter f k (hands g) ->
  default [] (hands g' !! q)
  = if bool_decide (q = k) then
      match hands g !! k with Some cs => f cs | None => [] end
    else default [] (hands g !! q).
Proof.
  intros ->. case_bool_decide as E.
  - subst q. rewrite list_lookup_alter.
    destruct (decide (k = k)); [|congruence].
    now destruct (hands g !! k).
  - now rewrite list_lookup_alter_ne by congruence.
Qed.

(** X23. An accepted REPLACE_CARD (sent for the player to move while a
    card is held) writes the held card into the named slot of that
    player's hand and pushes what the slot held onto the discard pile,
    [undefined] when the index names no slot; every other slot of every
    hand reads as before, the deck is untouched, no card is held
    afterwards, and the players keep their ids, names and host
    marks. *)
Theorem replace_card_exchanges_held_and_slot
  (r : Random) (ws : Conn) (S : Server) (c : string) (g : Game)
  (playerId : string) (i : nat) (card : Card) (k : nat) (p : Player) :
  games S !! c = Some g ->
  currentPlayerId g = Some playerId ->
  drawnCard g = Some card ->
  find_player (players g) playerId = Some (k, p) ->
  exists g',
    games (handle r ws (REPLACE_CARD c playerId i) S).1 !! c = Some g' /\
    (forall q j,
        slot g' q j
        = if bool_decide (q = k /\ j = i) then Some card else slot g q j) /\
    discardPile g' = discardPile g ++ [slot g k i] /\
    drawnCard g' = None /\
    deck g' = deck g /\
    badges g' = badges g.
Proof.
  intros Hg Hcur Hheld Hfind. cbn [handle].
  exists (replace_card playerId i g).1.
  split; [now apply with_game_changed|].
  destruct (play_same_seats (REPLACE_CARD c playerId i) g) as (Hb & _).
  cbn [play] in Hb. revert Hb.
  unfold replace_card. rewrite Hcur, Hheld, Hfind.
  rewrite bool_decide_eq_true_2 by reflexivity.
  rewrite bool_decide_eq_true_2 by (now eexists). cbn [negb orb].
  intros Hb.
  apply find_player_lookup in Hfind as [Hk _].
  assert (hands g !! k = Some (cards p)) as Hl
    by (unfold hands; now rewrite list_lookup_fmap, Hk).
  match goal with |- context [end_of_turn ?mk ?x] =>
    destruct (end_of_turn_same_table mk x) as (H1 & H2 & H3 & H4 & _) end.
  cbn in H2, H3, H4. unfold hands in H1 at 2. cbn in H1.
  rewrite (hands_alter (fun cs => array_set cs i (Some card))) in H1.
  fold (hands g) in H1.
  split; [|split; [|split; [|split]]].
  - intros q j. unfold slot.
    rewrite (slot_alter g _ _ k q H1).
    case_bool_decide as Eq.
    + subst q. rewrite Hl. cbn [default from_option].
      rewrite array_get_set.
      case_bool_decide as Ej.
      * subst j. now rewrite bool_decide_eq_true_2.
      * now rewrite bool_decide_eq_false_2 by tauto.
    + now rewrite bool_decide_eq_false_2 by tauto.
  - rewrite H3. unfold push, slot. now rewrite Hl.
  - exact H4.
  - exact H2.
  - exact Hb.
Qed.

(** X23, witness: Ann holds a card in the example room and puts it in
    her third slot. *)
Lemma replace_card_exchanges_held_and_slot_witness :
  let S := run emptyServer demo_held in
  let g := demo_game demo_held in
  let card := default (mkCard Spades VA) (drawnCard g) in
  exists g',
    games (handle demo_random 1 (REPLACE_CARD room "p1" 2) S).1 !! room
    = Some g' /\
    (forall q j,
        slot g' q j
        = if bool_decide (q = 0 /\ j = 2) then Some card else slot g q j) /\
    discardPile g' = discardPile g ++ [slot g 0 2] /\
    drawnCard g' = None /\
    deck g' = deck g /\
    badges g' = badges g.
Proof.
  apply (replace_card_exchanges_held_and_slot demo_random 1
           (run emptyServer demo_held) room (demo_game demo_held) "p1" 2
           (default (mkCard Spades VA) (drawnCard (demo_game demo_held)))
           0
           (default (newPlayer "" "" false)
              (players (demo_game demo_held) !! 0))).
  - vm_compute. reflexivity.
  - vm_compute. reflexivity.
  - vm_compute. reflexivity.
  - vm_compute. reflexivity.
Defined.

(** * Acquiring and discarding at once *)

Lemma discard_drawn_table playerId g card :
  currentPlayerId g = Some playerId ->
  drawnCard g = Some card ->
  let g' := (discard_drawn playerId g).1 in
  hands g' = hands g /\ deck g' = deck g /\
  discardPile g' = discardPile g ++ [Some card] /\ drawnCard g' = None.
Proof.
  intros Hcur Hheld. unfold discard_drawn. rewrite Hcur, Hheld.
  rewrite bool_decide_eq_true_2 by reflexivity.
  rewrite bool_decide_eq_true_2 by (now eexists). cbn [negb orb].
  match goal with |- context [end_of_turn ?mk ?x] =>
    destruct (end_of_turn_same_table mk x) as (H1 & H2 & H3 & H4 & _) end.
  now repeat split.
Qed.

Lemma discard_drawn_nothing_held playerId g :
  drawnCard g = None -> (discard_drawn playerId g).1 = g.
Proof.
  intros Hheld. unfold discard_drawn. rewrite Hheld.
  rewrite (bool_decide_eq_false_2 (is_Some None)) by (intros [? ?]; discriminate).
  now rewrite orb_true_r.
Qed.

(** X24. The player to move, holding no card, acquires a card and
    discards it at once.  After DRAW_CARD and DISCARD_DRAWN the top
    card of the deck lies on top of the discard pile (nothing moves
    when the deck is empty); after TAKE_DISCARD and DISCARD_DRAWN on a
    discard pile of cards the deck, the discard pile and the hands are
    what they were.  Either way no card is held and the hands are
    untouched. *)
Theorem acquire_then_discard
  (r1 r2 : Random) (ws1 ws2 : Conn) (S : Server) (c : string) (g : Game)
  (playerId : string) :
  games S !! c = Some g ->
  currentPlayerId g = Some playerId ->
  drawnCard g = None ->
  Forall is_Some (discardPile g) ->
  exists g1 g2,
    games (run S [(r1, ws1, DRAW_CARD c playerId);
                  (r2, ws2, DISCARD_DRAWN c playerId)]) !! c = Some g1 /\
    games (run S [(r1, ws1, TAKE_DISCARD c playerId);
                  (r2, ws2, DISCARD_DRAWN c playerId)]) !! c = Some g2 /\
    deck g1 = (pop (deck g)).2 /\
    discardPile g1
    = discardPile g ++ (Some <$> option_list (pop (deck g)).1) /\
    hands g1 = hands g /\ drawnCard g1 = None /\
    deck g2 = deck g /\ discardPile g2 = discardPile g /\
    hands g2 = hands g /\ drawnCard g2 = None.
Proof.
  intros Hg Hcur Hheld Hpile.
  pose proof (run_plays c [(r1, ws1, DRAW_CARD c playerId);
                           (r2, ws2, DISCARD_DRAWN c playerId)] S g Hg)
    as Hrun1.
  pose proof (run_plays c [(r1, ws1, TAKE_DISCARD c playerId);
                           (r2, ws2, DISCARD_DRAWN c playerId)] S g Hg)
    as Hrun2.
  eexists _, _.
  split; [apply Hrun1; now repeat constructor|].
  split; [apply Hrun2; now repeat constructor|].
  clear Hrun1 Hrun2. unfold play_all.
  cbn [fmap list_fmap snd fold_left play].
  unfold draw_card, take_discard. rewrite Hcur, Hheld.
  rewrite bool_decide_eq_true_2 by reflexivity.
  rewrite (bool_decide_eq_false_2 (is_Some None))
    by (intros [? ?]; discriminate).
  cbn [negb]. split; [|split; [|split; [|split]]].
  1-4: destruct (pop_cases (deck g)) as [[E ->]|(l & x & E & ->)];
    cbn [fst snd option_list fmap list_fmap];
    [rewrite discard_drawn_nothing_held by reflexivity; cbn;
     rewrite ?app_nil_r; try reflexivity; now rewrite E
    |destruct (discard_drawn_table playerId
                 (set_drawnCard (Some x) (set_deck l g)) x Hcur eq_refl)
       as (H1 & H2 & H3 & H4); assumption].
  destruct (pop_cases (discardPile g)) as [[E ->]|(l & x & E & ->)];
    cbn [fst snd mjoin].
  - rewrite discard_drawn_nothing_held by reflexivity. cbn.
    rewrite E. now repeat split.
  - rewrite E in Hpile. apply Forall_app in Hpile as [_ Hx].
    apply Forall_inv in Hx as [card ->]. cbn [mjoin option_join].
    destruct (discard_drawn_table playerId
                (set_drawnCard (Some card) (set_discardPile l g)) card
                Hcur eq_refl) as (H1 & H2 & H3 & H4).
    rewrite E. now repeat split.
Qed.

(** X24, witness: Ann's first turn in the started example room. *)
Lemma acquire_then_discard_witness :
  let S := run emptyServer demo_started in
  let g := demo_game demo_started in
  exists g1 g2,
    games (run S [(demo_random, 1, DRAW_CARD room "p1");
                  (demo_random, 1, DISCARD_DRAWN room "p1")]) !! room
    = Some g1 /\
    games (run S [(demo_random, 1, TAKE_DISCARD room "p1");
                  (demo_random, 1, DISCARD_DRAWN room "p1")]) !! room
    = Some g2 /\
    deck g1 = (pop (deck g)).2 /\
    discardPile g1
    = discardPile g ++ (Some <$> option_list (pop (deck g)).1) /\
    hands g1 = hands g /\ drawnCard g1 = None /\
    deck g2 = deck g /\ discardPile g2 = discardPile g /\
    hands g2 = hands g /\ drawnCard g2 = None.
Proof.
  apply (acquire_then_discard demo_random demo_random 1 1
           (run emptyServer demo_started) room (demo_game demo_started)
           "p1").
  - vm_compute. reflexivity.
  - vm_compute. reflexivity.
  - vm_compute. reflexivity.
  - vm_compute. repeat constructor. now eexists.
Defined.

(** * What the sender is sent *)

Lemma clients_set_keys cl ws info :
  (clients_set cl ws info).*1
  = if bool_decide (ws ∈ cl.*1) then cl.*1 else cl.*1 ++ [ws].
Proof.
  induction cl as [|[c i] cl IH]; [reflexivity|]. cbn [clients_set].
  destruct (decide (c = ws)) as [E|E].
  - subst c. rewrite (bool_decide_eq_true_2 (ws = ws)) by reflexivity.
    csimpl. rewrite bool_decide_eq_true_2 by apply list_elem_of_here.
    reflexivity.
  - rewrite (bool_decide_eq_false_2 (c = ws)) by exact E.
    csimpl. rewrite IH. destruct (decide (ws ∈ cl.*1)) as [Hin|Hin].
    + rewrite (bool_decide_eq_true_2 (ws ∈ cl.*1)) by exact Hin.
      rewrite bool_decide_eq_true_2 by now apply list_elem_of_further.
      reflexivity.
    + rewrite (bool_decide_eq_false_2 (ws ∈ cl.*1)) by exact Hin.
      rewrite bool_decide_eq_false_2; [reflexivity|].
      intros H. apply elem_of_cons in H as [H|H]; congruence.
Qed.

Lemma clients_set_NoDup cl ws info :
  NoDup cl.*1 -> NoDup (clients_set cl ws info).*1.
Proof.
  intros H. rewrite clients_set_keys. case_bool_decide as Hin; [exact H|].
  apply NoDup_app. split; [exact H|]. split.
  - intros x Hx Hx'. apply list_elem_of_singleton in Hx'. congruence.
  - apply NoDup_singleton.
Qed.

Lemma clients_delete_NoDup cl ws :
  NoDup cl.*1 -> NoDup (clients_delete cl ws).*1.
Proof.
  unfold clients_delete. induction cl as [|[c i] cl IH]; [trivial|].
  csimpl. intros H. apply NoDup_cons in H as [Hc H].
  rewrite filter_cons. destruct (decide _); [|now apply IH].
  csimpl. apply NoDup_cons. split; [|now apply IH].
  intros Hin. apply Hc.
  apply list_elem_of_fmap in Hin as ([c' i'] & -> & Hin).
  apply list_elem_of_filter in Hin as [_ Hin].
  now apply (list_elem_of_fmap_2 fst) in Hin.
Qed.

(** A connection has one entry in [clients], as a key of the [Map]. *)
Lemma reachable_clients_NoDup S : reachable S -> NoDup (clients S).*1.
Proof.
  intros [es ->].
  assert (forall S0, NoDup (clients S0).*1 ->
                     NoDup (clients (run S0 es)).*1) as Hrun.
  { induction es as [|[[r ws] m] es IH]; intros S0 HS; [exact HS|].
    simpl. apply IH. unfold step. cbn [fst snd].
    destruct m; cbn [handle]; try (now rewrite with_game_clients).
    - now apply clients_set_NoDup.
    - destruct (games S0 !! gameCode) as [game|]; [|exact HS].
      destruct (join_game playerName playerId game) as [game' o].
      destruct o; try exact HS. now apply clients_set_NoDup.
    - assert (NoDup (clients (leave S0 ws None).1).*1) as H.
      { unfold leave.
        destruct (clients_get (clients S0) ws) as [info|]; [|exact HS].
        destruct (games S0 !! client_gameCode info) as [game|];
          [case_bool_decide|]; now apply clients_delete_NoDup. }
      now destruct (leave S0 ws None).
    - unfold leave.
      destruct (clients_get (clients S0) ws) as [info|]; [|exact HS].
      destruct (games S0 !! client_gameCode info) as [game|];
        [case_bool_decide|]; now apply clients_delete_NoDup.
    - exact HS. }
  apply Hrun. constructor.
Qed.

Lemma clients_get_None cl ws : ws ∉ cl.*1 -> clients_get cl ws = None.
Proof.
  induction cl as [|[c i] cl IH]; [reflexivity|]. csimpl. intros H.
  apply not_elem_of_cons in H as [Hne H].
  rewrite bool_decide_eq_false_2 by congruence. now apply IH.
Qed.

Lemma broadcast_cons conn i cl c msg ex :
  broadcast ((conn, i) :: cl) c msg ex
  = (if bool_decide (client_gameCode i = c)
        && negb (bool_decide (ex = Some conn))
     then [(conn, msg)] else [])
    ++ broadcast cl c msg ex.
Proof. unfold broadcast. simpl. now destruct (_ && _). Qed.

Lemma broadcast_not_registered cl c msg ex ws :
  ws ∉ cl.*1 -> filter (fun o => o.1 = ws) (broadcast cl c msg ex) = [].
Proof.
  intros H. induction cl as [|[conn i] cl IH]; [reflexivity|].
  csimpl in H. apply not_elem_of_cons in H as [Hne H].
  rewrite broadcast_cons, filter_app, (IH H), app_nil_r.
  destruct (_ && _); [|reflexivity].
  rewrite filter_cons_False by (simpl; congruence). reflexivity.
Qed.

(** The broadcast reaches a connection registered in the room once. *)
Lemma broadcast_registered cl c msg ws info :
  NoDup cl.*1 ->
  clients_get cl ws = Some info ->
  filter (fun o => o.1 = ws) (broadcast cl c msg None)
  = if bool_decide (client_gameCode info = c) then [(ws, msg)] else [].
Proof.
  intros Hnd Hget.
  induction cl as [|[conn i] cl IH]; [discriminate|].
  csimpl in Hnd. apply NoDup_cons in Hnd as [Hconn Hnd].
  rewrite broadcast_cons, filter_app. simpl in Hget.
  destruct (decide (conn = ws)) as [E|E].
  - subst conn. rewrite bool_decide_eq_true_2 in Hget by reflexivity.
    injection Hget as ->.
    rewrite (broadcast_not_registered cl c msg None ws Hconn), app_nil_r.
    rewrite (bool_decide_eq_false_2 (None = Some ws)) by discriminate.
    rewrite andb_true_r. destruct (bool_decide _); [|reflexivity].
    rewrite filter_cons_True by reflexivity. reflexivity.
  - rewrite bool_decide_eq_false_2 in Hget by exact E.
    rewrite (IH Hnd Hget).
    destruct (_ && _); [|reflexivity].
    rewrite filter_cons_False by (simpl; congruence). reflexivity.
Qed.

(** X25. The sender of a request whose answer is broadcast to the room
    is not left out of the broadcast: a connection registered in the
    room that sends START_GAME or a play request that goes through is
    sent the answer twice, once by the broadcast and once
    directly, while a sender registered in another room or in none is
    sent it once. *)
Theorem sender_in_the_room_is_told_twice
  (r : Random) (ws : Conn) (m : Request) (S : Server) (c : string)
  (g : Game) (msg : ServerMsg) :
  reachable S ->
  games S !! c = Some g ->
  (play_room m = Some c /\ (play m g).2 = Broadcast msg) \/
  (m = START_GAME c /\ (start_game (randomIndex r) g).2 = Broadcast msg) ->
  sent_to ws (handle r ws m S).2
  = match clients_get (clients S) ws with
    | Some info =>
        if bool_decide (client_gameCode info = c) then [msg; msg]
        else [msg]
    | None => [msg]
    end.
Proof.
  intros HS Hg Hm.
  assert ((handle r ws m S).2 = broadcast (clients S) c msg None ++ [(ws, msg)])
    as ->.
  { destruct Hm as [[Hm Ho]| [-> Ho]].
    - destruct m; try discriminate; simpl in Hm; injection Hm as ->;
        cbn [handle play] in *; unfold with_game; rewrite Hg;
        match goal with |- context [let '(_, _) := ?b in _] =>
          destruct b as [g' o] end; simpl in Ho; now subst o.
    - cbn [handle]. unfold with_game. rewrite Hg.
      destruct (start_game (randomIndex r) g) as [g' o].
      simpl in Ho. now subst o. }
  unfold sent_to. rewrite filter_app, fmap_app.
  rewrite (filter_cons_True _ (ws, msg)) by reflexivity.
  pose proof (reachable_clients_NoDup S HS) as Hnd.
  destruct (clients_get (clients S) ws) as [info|] eqn:Hget.
  - rewrite (broadcast_registered _ c msg ws info Hnd Hget).
    now case_bool_decide.
  - rewrite broadcast_not_registered; [reflexivity|].
    intros Hin. apply list_elem_of_fmap in Hin as ([conn i] & Hc & Hin).
    simpl in Hc. subst conn. clear Hnd.
    induction (clients S) as [|[c' i'] cl IH]; [now apply elem_of_nil in Hin|].
    simpl in Hget. case_bool_decide; [discriminate|].
    apply elem_of_cons in Hin as [Hin|Hin]; [congruence|now apply IH].
Qed.

(** X25, witness: Ann's draw in the started example room. *)
Lemma sender_in_the_room_is_told_twice_witness :
  let S := run emptyServer demo_started in
  let m := DRAW_CARD room "p1" in
  let msg := default GAME_LEFT (snd <$> head (handle demo_random 1 m S).2) in
  sent_to 1 (handle demo_random 1 m S).2
  = match clients_get (clients S) 1 with
    | Some info =>
        if bool_decide (client_gameCode info = room) then [msg; msg]
        else [msg]
    | None => [msg]
    end.
Proof.
  apply (sender_in_the_room_is_told_twice demo_random 1
           (DRAW_CARD room "p1") (run emptyServer demo_started) room
           (demo_game demo_started)).
  - now exists demo_started.
  - vm_compute. reflexivity.
  - left. split; vm_compute; reflexivity.
Defined.

(** * The mock server of the client *)

Lemma mock_createDeck rnd : Mock.createDeck rnd = createDeck rnd.
Proof. unfold Mock.createDeck, createDeck. reflexivity. Qed.

(** X26. On the game objects the mock server of the client does what
    the real server does, as far as the mock's game object goes: the
    game of [createGame] is the one of CREATE_GAME, [joinGame] applies
    the guards of JOIN_GAME in the same order and seats the same
    player, and [startGame] shuffles and deals as START_GAME does for
    the same random draws, without the fields the mock does not have.
    A join is turned down by the one exactly when it is by the other;
    a start with fewer than 2 players, which the server answers with an
    error, is passed over in silence by the mock. *)
Theorem mock_game_objects_agree_with_server :
  (forall c playerId playerName,
      Mock.createGame c playerId playerName
      = lobby_view (newGame c playerId playerName)) /\
  (forall playerName playerId g,
      (Mock.joinGame playerName playerId (lobby_view g)).1
      = lobby_view (join_game playerName playerId g).1 /\
      is_mock_failed (Mock.joinGame playerName playerId (lobby_view g)).2
      = is_reply_error (join_game playerName playerId g).2) /\
  (forall rnd g,
      (Mock.startGame rnd (lobby_view g)).1
      = lobby_view (start_game rnd g).1 /\
      ((Mock.startGame rnd (lobby_view g)).2 = Mock.Nothing <->
       is_reply_error (start_game rnd g).2 = true)).
Proof.
  split; [reflexivity|]. split.
  - intros playerName playerId g. unfold Mock.joinGame, join_game.
    cbn [Mock.players lobby_view].
    case_bool_decide; [now split|].
    destruct (existsb _ _); now split.
  - intros rnd g. unfold Mock.startGame, start_game.
    rewrite mock_createDeck. cbn [Mock.players lobby_view].
    case_bool_decide; [now split|].
    destruct (pop (createDeck rnd)) as [top d1].
    destruct (deal_all (players g) d1) as [ps d2].
    split; [reflexivity|]. split; discriminate.
Qed.

Lemma mock_join_view playerName playerId g :
  (Mock.joinGame playerName playerId (lobby_view g)).1
  = lobby_view (join_game playerName playerId g).1 /\
  match (join_game playerName playerId g).2 with
  | ReplyAndOthers _ =>
      exists response,
        (Mock.joinGame playerName playerId (lobby_view g)).2
        = Mock.Sent response
  | _ =>
      (exists response,
          (Mock.joinGame playerName playerId (lobby_view g)).2
          = Mock.Failed response) /\
      (join_game playerName playerId g).1 = g
  end.
Proof.
  unfold Mock.joinGame, join_game. cbn [Mock.players lobby_view].
  case_bool_decide; [split; [reflexivity|split; [now eexists|reflexivity]]|].
  destruct (existsb _ _);
    [split; [reflexivity|split; [now eexists|reflexivity]]|].
  split; [reflexivity|now eexists].
Qed.

Lemma mock_start_view rnd g :
  (Mock.startGame rnd (lobby_view g)).1 = lobby_view (start_game rnd g).1 /\
  match (start_game rnd g).2 with
  | Broadcast _ =>
      exists response,
        (Mock.startGame rnd (lobby_view g)).2 = Mock.Sent response
  | _ =>
      (Mock.startGame rnd (lobby_view g)).2 = Mock.Nothing /\
      (start_game rnd g).1 = g
  end.
Proof.
  unfold Mock.startGame, start_game.
  rewrite mock_createDeck. cbn [Mock.players lobby_view].
  case_bool_decide; [now repeat split|].
  destruct (pop (createDeck rnd)) as [top d1].
  destruct (deal_all (players g) d1) as [ps d2].
  split; [reflexivity|now eexists].
Qed.

(** One lobby request on the mock's storage and on the server's
    registry. *)
Lemma mock_step r ws instances m S :
  lobby_request m = true ->
  (Mock.handleMessage r ws instances m (lobby_view <$> games S)).1
  = lobby_view <$> games (handle r ws m S).1.
Proof.
  intros Hm. destruct m; try discriminate; cbn [Mock.handleMessage handle].
  - simpl. now rewrite fmap_insert.
  - rewrite lookup_fmap.
    destruct (games S !! gameCode) as [g|] eqn:Hg; [|reflexivity].
    cbn [fmap option_fmap option_map].
    destruct (mock_join_view playerName playerId g) as [H1 H2].
    destruct (Mock.joinGame playerName playerId (lobby_view g)) as [mg mo].
    destruct (join_game playerName playerId g) as [g' o].
    simpl in H1, H2. subst mg.
    destruct o; try destruct H2 as [[response ->] ->];
      try destruct H2 as [response ->]; try reflexivity.
    simpl. now rewrite fmap_insert.
  - rewrite lookup_fmap. unfold with_game.
    destruct (games S !! gameCode) as [g|] eqn:Hg; [|reflexivity].
    cbn [fmap option_fmap option_map].
    destruct (mock_start_view (randomIndex r) g) as [H1 H2].
    destruct (Mock.startGame (randomIndex r) (lobby_view g)) as [mg mo].
    destruct (start_game (randomIndex r) g) as [g' o].
    simpl in H1, H2. subst mg.
    destruct o; try destruct H2 as [-> ->];
      try destruct H2 as [response ->]; simpl;
      try (now rewrite fmap_insert);
      now rewrite (insert_id _ _ _ Hg).
Qed.

(** X27. The mock's storage follows the server's registry through
    every run of CREATE_GAME, JOIN_GAME and START_GAME requests: started
    from the view of the server's rooms and given the same requests and
    the same random draws, it ends as the view of the server's rooms,
    whichever instances send the requests. *)
Theorem mock_storage_follows_the_server
  (instances : list Conn) (S : Server) (es : list Event) :
  Forall (fun e => lobby_request e.2 = true) es ->
  Mock.run instances (lobby_view <$> games S) es
  = lobby_view <$> games (run S es).
Proof.
  intros Hes. revert S.
  induction Hes as [|[[r ws] m] es Hm _ IH]; intros S; [reflexivity|].
  unfold Mock.run in *. simpl. unfold step. cbn [fst snd] in *.
  rewrite (mock_step r ws instances m S Hm). apply IH.
Qed.

(** X27, witness: Ann opens the example room, Bob joins, Ann starts. *)
Lemma mock_storage_follows_the_server_witness :
  Mock.run [1; 2] (lobby_view <$> games emptyServer) demo_started
  = lobby_view <$> games (run emptyServer demo_started).
Proof.
  apply (mock_storage_follows_the_server [1; 2] emptyServer demo_started).
  repeat constructor.
Defined.

(** X28. The mock knows no rooms when it answers.  What it sends is
    nothing, or one error to the sender alone, or an answer that is not
    an error to the sender and then to every other instance, in
    whatever game it is: an error is never handed to another instance.
    LEAVE_GAME takes nobody out of any game and tells every instance
    GAME_LEFT; the play requests are passed over. *)
Theorem mock_tells_every_instance
  (r : Random) (me : Conn) (instances : list Conn) (m : Request)
  (store : gmap string Mock.Game) :
  ((Mock.handleMessage r me instances m store).2 = [] \/
   (exists e,
       (Mock.handleMessage r me instances m store).2 = [(me, Mock.ERROR e)]) \/
   (exists msg,
       is_mock_error msg = false /\
       (Mock.handleMessage r me instances m store).2
       = (me, msg)
         :: ((fun i => (i, msg)) <$> filter (fun i => i <> me) instances))) /\
  Mock.handleMessage r me instances LEAVE_GAME store
  = (store,
     (me, Mock.GAME_LEFT)
     :: ((fun i => (i, Mock.GAME_LEFT))
           <$> filter (fun i => i <> me) instances)) /\
  match m with
  | CREATE_GAME _ _ | JOIN_GAME _ _ _ | START_GAME _ | LEAVE_GAME => True
  | _ => Mock.handleMessage r me instances m store = (store, [])
  end.
Proof.
  split; [|split; [reflexivity|]].
  - destruct m; cbn [Mock.handleMessage]; try (now left).
    + right. right. eexists. split; [|reflexivity]. reflexivity.
    + destruct (store !! gameCode) as [g|]; [|right; left; now eexists].
      unfold Mock.joinGame. case_bool_decide; [right; left; now eexists|].
      destruct (existsb _ _); [right; left; now eexists|].
      right. right. eexists. split; [|reflexivity]. reflexivity.
    + destruct (store !! gameCode) as [g|]; [|now left].
      unfold Mock.startGame. case_bool_decide; [now left|].
      destruct (pop _) as [top d1].
      destruct (deal_all _ d1) as [ps d2].
      right. right. eexists. split; [|reflexivity]. reflexivity.
    + right. right. eexists. split; [|reflexivity]. reflexivity.
  - now destruct m.
Qed.

(** * The client's state *)

(** Handling a message a second time changes nothing. *)
Lemma handleServerMessage_twice (m : ServerMsg) (s : Client.GameState) :
  Client.handleServerMessage m (Client.handleServerMessage m s)
  = Client.handleServerMessage m s.
Proof.
  destruct m; cbn; try reflexivity.
  - f_equal. now case_bool_decide.
  - f_equal. now case_bool_decide.
  - f_equal. now case_bool_decide.
  - f_equal. apply insert_insert_eq.
  - f_equal. apply insert_insert_eq.
Qed.

(** The answer a play request or START_GAME broadcasts carries the game
    object as the request leaves it. *)
Lemma play_broadcasts_the_game (m : Request) (g : Game) (msg : ServerMsg) :
  (play m g).2 = Broadcast msg -> game_of msg = Some (play m g).1.
Proof.
  destruct m; cbn [play]; try discriminate.
  - unfold draw_card. destruct (negb _); [discriminate|].
    destruct (bool_decide _); [discriminate|].
    destruct (pop (deck g)). now intros [= <-].
  - unfold take_discard. destruct (negb _); [discriminate|].
    destruct (bool_decide _); [discriminate|].
    destruct (pop (discardPile g)). now intros [= <-].
  - unfold replace_card. destruct (_ || _); [discriminate|].
    destruct (find_player _ _) as [[k p]|]; [|discriminate].
    unfold end_of_turn, advance.
    repeat (first [case_bool_decide | destruct (truthy _)
                  | destruct (score_all _) as [? []]
                  | destruct (_ !! _)]; cbn);
      try discriminate; now intros [= <-].
  - unfold discard_drawn. destruct (_ || _); [discriminate|].
    unfold end_of_turn, advance.
    repeat (first [case_bool_decide | destruct (truthy _)
                  | destruct (score_all _) as [? []]
                  | destruct (_ !! _)]; cbn);
      try discriminate; now intros [= <-].
  - unfold call_cabo. destruct (negb _); [discriminate|].
    destruct (truthy _); [discriminate|].
    destruct (find_player _ _) as [[k p]|]; [|discriminate].
    now intros [= <-].
  - unfold peek_own_card.
    destruct (find_player _ _) as [[k p]|]; discriminate.
  - unfold peek_opponent_card.
    destruct (find_player _ _) as [[k p]|]; discriminate.
  - unfold switch_cards.
    destruct (find_player _ playerId) as [[kp p]|]; [|discriminate].
    destruct (find_player _ opponentId) as [[ko o]|]; [|discriminate].
    now intros [= <-].
Qed.

Lemma start_broadcasts_the_game rnd (g : Game) (msg : ServerMsg) :
  (start_game rnd g).2 = Broadcast msg ->
  game_of msg = Some (start_game rnd g).1.
Proof.
  unfold start_game. case_bool_decide; [discriminate|].
  destruct (pop (createDeck rnd)) as [top d1].
  destruct (deal_all (players g) d1) as [ps d2]. now intros [= <-].
Qed.

Lemma handleServerMessage_game (m : ServerMsg) (s : Client.GameState) g :
  game_of m = Some g ->
  Client.currentGame (Client.handleServerMessage (receive m) s)
  = Some (wire g).
Proof. destruct m; try discriminate; now intros [= <-]. Qed.

(** X29. The clients of a room follow the server.  When START_GAME or a
    play request goes through, every connection registered in the room
    is sent the answer, the sender twice; a client that handles what it
    is sent ends in the state in which handling the answer once leaves
    it, and the game it shows is the game object the server holds for
    the room, as JSON carries it. *)
Theorem clients_follow_the_server
  (r : Random) (ws conn : Conn) (m : Request) (S : Server) (c : string)
  (g : Game) (msg : ServerMsg) (info : ClientInfo) (s : Client.GameState) :
  reachable S ->
  games S !! c = Some g ->
  (play_room m = Some c /\ (play m g).2 = Broadcast msg) \/
  (m = START_GAME c /\ (start_game (randomIndex r) g).2 = Broadcast msg) ->
  clients_get (clients S) conn = Some info ->
  client_gameCode info = c ->
  Client.handle_all (sent_to conn (handle r ws m S).2) s
  = Client.handleServerMessage (receive msg) s /\
  Client.currentGame (Client.handle_all (sent_to conn (handle r ws m S).2) s)
  = wire <$> games (handle r ws m S).1 !! c.
Proof.
  intros HS Hg Hm Hconn Hc.
  assert ((handle r ws m S).2 = broadcast (clients S) c msg None ++ [(ws, msg)]
          /\ exists g', games (handle r ws m S).1 !! c = Some g' /\
                        game_of msg = Some g') as (Hout & g' & Hg' & Hmsg).
  { destruct Hm as [[Hm Ho]| [-> Ho]].
    - split.
      + destruct m; try discriminate; simpl in Hm; injection Hm as ->;
          cbn [handle play] in *; unfold with_game; rewrite Hg;
          match goal with |- context [let '(_, _) := ?b in _] =>
            destruct b as [g' o] end; simpl in Ho; now subst o.
      + exists (play m g).1. split.
        * rewrite (handle_play r ws m S c c Hm), Hg.
          now rewrite bool_decide_eq_true_2.
        * now apply play_broadcasts_the_game.
    - split.
      + cbn [handle]. unfold with_game. rewrite Hg.
        destruct (start_game (randomIndex r) g) as [g' o].
        simpl in Ho. now subst o.
      + exists (start_game (randomIndex r) g).1. split.
        * cbn [handle]. now apply with_game_changed.
        * now apply start_broadcasts_the_game. }
  assert (Client.handle_all (sent_to conn (handle r ws m S).2) s
          = Client.handleServerMessage (receive msg) s) as Hs.
  { rewrite Hout. unfold sent_to. rewrite filter_app, fmap_app.
    rewrite (broadcast_registered _ c msg conn info
               (reachable_clients_NoDup S HS) Hconn).
    rewrite bool_decide_eq_true_2 by exact Hc.
    destruct (decide (ws = conn)) as [->|Hne].
    - rewrite filter_cons_True by reflexivity. cbn.
      apply handleServerMessage_twice.
    - rewrite filter_cons_False by (simpl; congruence). reflexivity. }
  split; [exact Hs|].
  rewrite Hs, Hg'. now apply handleServerMessage_game.
Qed.

(** X29, witness: Ann draws in the started example room; Bob's client
    was at the start of the game. *)
Lemma clients_follow_the_server_witness :
  let S := run emptyServer demo_started in
  let m := DRAW_CARD room "p1" in
  let msg := default GAME_LEFT (snd <$> head (handle demo_random 1 m S).2) in
  let s := Client.mkGameState Client.screen_game "bob" room (Some "p2") false
             None None None ∅ false in
  Client.handle_all (sent_to 2 (handle demo_random 1 m S).2) s
  = Client.handleServerMessage (receive msg) s /\
  Client.currentGame (Client.handle_all (sent_to 2 (handle demo_random 1 m S).2) s)
  = wire <$> games (handle demo_random 1 m S).1 !! room.
Proof.
  apply (clients_follow_the_server demo_random 1 2 (DRAW_CARD room "p1")
           (run emptyServer demo_started) room (demo_game demo_started)
           _ (mkClientInfo "p2" room)).
  - now exists demo_started.
  - vm_compute. reflexivity.
  - left. split; vm_compute; reflexivity.
  - vm_compute. reflexivity.
  - reflexivity.
Defined.

(** * The game-over screen *)

Lemma insert_by_score_Permutation p l : insert_by_score p l ≡ₚ p :: l.
Proof.
  induction l as [|q l IH]; [reflexivity|]. simpl.
  case_bool_decide; [reflexivity|].
  rewrite IH. apply perm_swap.
Qed.

Lemma insert_by_score_sorted p l :
  StronglySorted (fun a b => (score a <= score b)%Z) l ->
  StronglySorted (fun a b => (score a <= score b)%Z) (insert_by_score p l).
Proof.
  induction l as [|q l IH]; intros Hs; simpl.
  - repeat constructor.
  - apply StronglySorted_inv in Hs as [Hl Hq].
    case_bool_decide as Hle.
    + constructor; [now constructor|].
      constructor; [exact Hle|].
      eapply Forall_impl; [exact Hq|]. intros x Hx. simpl in Hx. lia.
    + constructor; [now apply IH|].
      rewrite insert_by_score_Permutation.
      constructor; [lia|exact Hq].
Qed.

Lemma sorted_head (ps : list Player) :
  match head (foldr insert_by_score [] ps) with
  | Some w =>
      exists k,
        ps !! k = Some w /\
        Forall (fun p => (score w <= score p)%Z) ps /\
        Forall (fun q => (score w < score q)%Z) (take k ps)
  | None => ps = []
  end.
Proof.
  induction ps as [|p ps IH]; [reflexivity|]. simpl.
  destruct (foldr insert_by_score [] ps) as [|q t]; simpl in *.
  - subst ps. exists 0. now repeat constructor.
  - destruct IH as (k & Hk & Hmin & Hbefore).
    case_bool_decide as Hle; simpl.
    + exists 0. split; [reflexivity|]. split; [|constructor].
      constructor; [lia|].
      eapply Forall_impl; [exact Hmin|]. intros x Hx. simpl in Hx. lia.
    + exists (S k). split; [exact Hk|]. split.
      * constructor; [lia|exact Hmin].
      * simpl. constructor; [lia|exact Hbefore].
Qed.

(** X30. The game-over screen lists the players of the game by rising
    score, and names as winner a player with the lowest score: of the
    players who share the lowest score, the one who sits first. *)
Theorem winner_has_the_lowest_score (g : Game) :
  sortedPlayers g ≡ₚ players g /\
  StronglySorted (fun a b => (score a <= score b)%Z) (sortedPlayers g) /\
  match winner g with
  | Some w =>
      exists k,
        players g !! k = Some w /\
        Forall (fun p => (score w <= score p)%Z) (players g) /\
        Forall (fun q => (score w < score q)%Z) (take k (players g))
  | None => players g = []
  end.
Proof.
  unfold winner, sortedPlayers. split; [|split].
  - induction (players g) as [|p ps IH]; [reflexivity|]. simpl.
    now rewrite insert_by_score_Permutation, IH.
  - induction (players g) as [|p ps IH]; [constructor|]. simpl.
    now apply insert_by_score_sorted.
  - apply sorted_head.
Qed.

(** * Hands of four slots *)

Lemma deal_length (d : list Card) : length (deal d).1 = 4.
Proof.
  unfold deal. destruct (pop d) as [c1 d1]. destruct (pop d1) as [c2 d2].
  destruct (pop d2) as [c3 d3]. now destruct (pop d3) as [c4 d4].
Qed.

Lemma deal_all_four (ps : list Player) (d : list Card) :
  Forall (fun p => length (cards p) = 4) (deal_all ps d).1.
Proof.
  revert d. induction ps as [|p ps IH]; intros d; cbn [deal_all].
  - constructor.
  - pose proof (deal_length d) as Hl. destruct (deal d) as [hand d1].
    specialize (IH d1). destruct (deal_all ps d1) as [rest d2].
    simpl in *. now constructor.
Qed.

(** START_GAME deals four slots to everybody, or leaves the game as it
    is. *)
Lemma start_game_four rnd g :
  four_slots (start_game rnd g).1 \/ (start_game rnd g).1 = g.
Proof.
  unfold start_game. case_bool_decide; [now right|]. left.
  destruct (pop (createDeck rnd)) as [top d1].
  pose proof (deal_all_four (players g) d1) as Hd.
  now destruct (deal_all (players g) d1) as [ps d2].
Qed.

Lemma four_slots_hands g g' :
  hands g' = hands g -> four_slots g -> four_slots g'.
Proof.
  unfold four_slots, hands. intros Hh H.
  apply (Forall_fmap cards (fun cs => length cs = 4)).
  rewrite Hh. now apply Forall_fmap.
Qed.

Lemma four_slots_alter (ps : list Player) (k i : nat) (v : option Card) :
  i < 4 ->
  Forall (fun p => length (cards p) = 4) ps ->
  Forall (fun p => length (cards p) = 4)
    (alter (fun p => set_cards (array_set (cards p) i v) p) k ps).
Proof.
  intros Hi H. apply Forall_alter; [exact H|].
  intros p _ Hp. cbn. rewrite array_set_length; [exact Hp|lia].
Qed.

(** A play request whose slot indices name one of the four slots keeps
    hands of four slots. *)
Lemma play_four (m : Request) (g : Game) :
  legal_play m = true -> four_slots g -> four_slots (play m g).1.
Proof.
  intros Hm Hg. destruct m; simpl in Hm; try discriminate; cbn [play].
  - unfold draw_card. destruct (negb _); [exact Hg|].
    destruct (bool_decide _); [exact Hg|]. now destruct (pop (deck g)).
  - unfold take_discard. destruct (negb _); [exact Hg|].
    destruct (bool_decide _); [exact Hg|].
    now destruct (pop (discardPile g)).
  - apply bool_decide_eq_true in Hm.
    unfold replace_card. destruct (_ || _); [exact Hg|].
    destruct (find_player _ _) as [[k p]|]; [|exact Hg].
    match goal with |- context [end_of_turn ?mk ?x] =>
      destruct (end_of_turn_same_table mk x) as (Hh & _);
      apply (four_slots_hands x _ Hh) end.
    unfold four_slots. cbn. now apply four_slots_alter.
  - unfold discard_drawn. destruct (_ || _); [exact Hg|].
    match goal with |- context [end_of_turn ?mk ?x] =>
      destruct (end_of_turn_same_table mk x) as (Hh & _);
      apply (four_slots_hands x _ Hh) end.
    exact Hg.
  - unfold call_cabo. destruct (negb _); [exact Hg|].
    destruct (truthy _); [exact Hg|].
    now destruct (find_player _ _) as [[k p]|].
  - unfold peek_own_card. now destruct (find_player _ _) as [[k p]|].
  - unfold peek_opponent_card. now destruct (find_player _ _) as [[k p]|].
  - apply andb_true_iff in Hm as [Hi Hj].
    apply bool_decide_eq_true in Hi, Hj.
    unfold switch_cards.
    destruct (find_player _ playerId) as [[kp p]|]; [|exact Hg].
    destruct (find_player _ opponentId) as [[ko o]|]; [|exact Hg].
    unfold four_slots. cbn.
    now apply four_slots_alter, four_slots_alter.
Qed.

Lemma handoff_four playerId g : four_slots g -> four_slots (handoff playerId g).
Proof.
  intros Hg.
  assert (four_slots (without playerId g)) as Hw.
  { unfold four_slots, without. cbn. apply Forall_forall. intros p Hp.
    apply list_elem_of_filter in Hp as [_ Hp].
    exact (proj1 (Forall_forall _ _) Hg p Hp). }
  unfold handoff. case_bool_decide; [|exact Hw].
  unfold promote, four_slots in *.
  destruct (players (without playerId g)) as [|q rest] eqn:E;
    [now rewrite E|].
  apply Forall_cons in Hw as [Hq Hrest]. cbn. now constructor.
Qed.

(** In a game nobody has started no play request changes the state. *)
Lemma play_fresh_state (m : Request) (g : Game) :
  fresh g -> state (play m g).1 = state g.
Proof.
  intros (_ & _ & _ & _ & H5 & _).
  destruct m; cbn [play]; try reflexivity.
  - unfold draw_card. rewrite H5.
    now rewrite bool_decide_eq_false_2 by discriminate.
  - unfold take_discard. rewrite H5.
    now rewrite bool_decide_eq_false_2 by discriminate.
  - unfold replace_card. rewrite H5.
    now rewrite bool_decide_eq_false_2 by discriminate.
  - unfold discard_drawn. rewrite H5.
    now rewrite bool_decide_eq_false_2 by discriminate.
  - unfold call_cabo. rewrite H5.
    now rewrite bool_decide_eq_false_2 by discriminate.
  - unfold peek_own_card. now destruct (find_player _ _) as [[k p]|].
  - unfold peek_opponent_card. now destruct (find_player _ _) as [[k p]|].
  - unfold switch_cards.
    destruct (find_player _ playerId) as [[kp p]|]; [|reflexivity].
    now destruct (find_player _ opponentId) as [[ko o]|].
Qed.

Lemma join_game_state playerName playerId g :
  state (join_game playerName playerId g).1 = state g.
Proof.
  unfold join_game. case_bool_decide; [reflexivity|].
  now destruct (existsb _ _).
Qed.

Lemma handoff_state playerId g : state (handoff playerId g) = state g.
Proof.
  unfold handoff. case_bool_decide; [|reflexivity].
  now rewrite promote_state.
Qed.

Lemma reachable_step S e : reachable S -> reachable (step S e).
Proof.
  intros [es ->]. exists (es ++ [e]). unfold run.
  now rewrite fold_left_app.
Qed.

(** A play request that does not break the hands keeps hands of four
    slots: it names slots of the hand, or it is not carried out. *)
Lemma play_keeps_four (c : string) (m : Request) (g : Game) :
  play_room m = Some c -> breaks_hands c g m = false ->
  four_slots g -> four_slots (play m g).1.
Proof.
  intros Hm Hb Hg.
  destruct (legal_play m) eqn:Hl; [now apply play_four|].
  destruct m; simpl in Hm, Hl; try discriminate; injection Hm as ->;
    cbn [breaks_hands] in Hb;
    rewrite bool_decide_eq_true_2 in Hb by reflexivity;
    rewrite Hl in Hb; cbn [negb andb] in Hb.
  - rewrite andb_true_r in Hb. cbn [resolve_accepted] in Hb.
    cbn [play]. unfold replace_card.
    destruct (bool_decide (currentPlayerId g = Some playerId));
      [|exact Hg].
    destruct (bool_decide (is_Some (drawnCard g))); [|exact Hg].
    cbn in Hb |- *. apply bool_decide_eq_false in Hb.
    destruct (find_player (players g) playerId) as [[k p]|]; [|exact Hg].
    destruct Hb. now eexists.
  - rewrite andb_true_r in Hb. cbn [play]. unfold switch_cards.
    destruct (find_player (players g) playerId) as [[kp p]|]; [|exact Hg].
    destruct (find_player (players g) opponentId) as [[ko o]|];
      [|exact Hg].
    rewrite !bool_decide_eq_true_2 in Hb by (now eexists).
    discriminate.
Qed.

(** A JOIN_GAME that seats nobody leaves the game as it is. *)
Lemma join_game_turned_down playerName playerId c g :
  breaks_hands c g (JOIN_GAME playerName playerId c) = false ->
  (join_game playerName playerId g).1 = g.
Proof.
  cbn [breaks_hands]. rewrite bool_decide_eq_true_2 by reflexivity.
  cbn [andb]. intros Hb. unfold join_game.
  destruct (bool_decide (8 <= length (players g))); [reflexivity|].
  cbn [negb andb] in Hb. apply negb_false_iff in Hb. now rewrite Hb.
Qed.

(** One event that does not break the hands of room [c]. *)
Lemma careful_step (c : string) (S : Server) (e : Event) (g' : Game) :
  reachable S ->
  (forall g, games S !! c = Some g -> state g = lobby \/ four_slots g) ->
  breaks_started c S e = false ->
  games (step S e) !! c = Some g' ->
  state g' = lobby \/ four_slots g'.
Proof.
  intros HS HK Hok Hg'. destruct e as [[r ws] m]. unfold step in Hg'.
  cbn [fst snd] in *.
  apply handle_lookup in Hg'
    as [Hg'|[(pn & pid & _ & _ & ->)|(g & Hg & Hcase)]].
  - now apply HK.
  - now left.
  - destruct (reachable_room_inv S c g HS Hg) as (_ & _ & Hfresh).
    unfold breaks_started in Hok. rewrite Hg in Hok. cbn [snd] in Hok.
    destruct (decide (state g = lobby)) as [Hl|Hl].
    + destruct Hcase
        as [(pn & pid & _ & ->)|[[_ ->]|[[_ ->]|(pid & _ & _ & ->)]]].
      * left. now rewrite join_game_state.
      * destruct (start_game_four (randomIndex r) g) as [H|H];
          [now right|left; now rewrite H].
      * left. rewrite play_fresh_state; [exact Hl|now apply Hfresh].
      * left. now rewrite handoff_state.
    + rewrite bool_decide_eq_false_2 in Hok by exact Hl. cbn in Hok.
      destruct (HK g Hg) as [?|Hf]; [contradiction|]. right.
      destruct Hcase
        as [(pn & pid & -> & ->)|[[_ ->]|[[Hm ->]|(pid & _ & _ & ->)]]].
      * now rewrite (join_game_turned_down pn pid c g Hok).
      * destruct (start_game_four (randomIndex r) g) as [H|H];
          [exact H|now rewrite H].
      * now apply (play_keeps_four c).
      * now apply handoff_four.
Qed.

Lemma careful_run (c : string) (es : list Event) (S : Server) :
  reachable S ->
  (forall g, games S !! c = Some g -> state g = lobby \/ four_slots g) ->
  careful c S es = true ->
  forall g, games (run S es) !! c = Some g -> state g = lobby \/ four_slots g.
Proof.
  revert S. induction es as [|e es IH]; intros S HS HK Hes; [exact HK|].
  simpl in Hes. apply andb_true_iff in Hes as [Hok Hrest].
  apply negb_true_iff in Hok. simpl.
  apply IH; [now apply reachable_step| |exact Hrest].
  intros g' Hg'. now apply (careful_step c S e g').
Qed.

(** C7, as the code has it.  Let the server handle, from its start, any
    run of events, of any kind and to any room, in which a room that has
    left the lobby seats no new player by JOIN_GAME and carries out no
    REPLACE_CARD and no SWITCH_CARDS with a slot index other than 0, 1,
    2, 3 (requests that are turned down or raise do not count).  Then
    in every session that has left the lobby, playing or finished,
    every player's hand has exactly 4 slots: START_GAME deals them,
    also when the game is started again, and the play requests,
    LEAVE_GAME, the close event and what happens in other rooms keep
    them. *)
Theorem hands_keep_four_slots (c : string) (es : list Event) (g : Game) :
  careful c emptyServer es = true ->
  games (run emptyServer es) !! c = Some g ->
  state g <> lobby ->
  Forall (fun p => length (cards p) = 4) (players g).
Proof.
  intros Hes Hg Hs.
  destruct (careful_run c es emptyServer) with (g := g) as [H|H];
    try assumption; try contradiction.
  - now exists [].
  - intros g0 Hg0. simpl in Hg0. now rewrite lookup_empty in Hg0.
Qed.

(** C7, witness: in the example room Ann draws and replaces her last
    card; a replace at slot 9 out of turn and a JOIN_GAME under a name
    that is taken are turned down; Bob switches cards with Ann; a
    switch at slot 7 with a player who is not seated raises; Cat opens
    another room; the game is started again and Bob's connection
    closes. *)
Lemma hands_keep_four_slots_witness :
  let es := demo_started
            ++ [(demo_random, 1, DRAW_CARD room "p1");
                (demo_random, 1, REPLACE_CARD room "p1" 3);
                (demo_random, 1, REPLACE_CARD room "p1" 9);
                (demo_random, 3, JOIN_GAME "ann" "p3" room);
                (demo_random, 2, SWITCH_CARDS room "p2" "p1" 0 3);
                (demo_random, 2, SWITCH_CARDS room "p2" "p9" 7 7);
                (mkRandom "OTHER1" (fun i => i), 3, CREATE_GAME "cat" "p3");
                (demo_random, 1, START_GAME room);
                (demo_random, 2, Close)] in
  Forall (fun p => length (cards p) = 4) (players (demo_game es)).
Proof.
  apply (hands_keep_four_slots room
           (demo_started
            ++ [(demo_random, 1, DRAW_CARD room "p1");
                (demo_random, 1, REPLACE_CARD room "p1" 3);
                (demo_random, 1, REPLACE_CARD room "p1" 9);
                (demo_random, 3, JOIN_GAME "ann" "p3" room);
                (demo_random, 2, SWITCH_CARDS room "p2" "p1" 0 3);
                (demo_random, 2, SWITCH_CARDS room "p2" "p9" 7 7);
                (mkRandom "OTHER1" (fun i => i), 3, CREATE_GAME "cat" "p3");
                (demo_random, 1, START_GAME room);
                (demo_random, 2, Close)])).
  - vm_compute. reflexivity.
  - vm_compute. reflexivity.
  - vm_compute. discriminate.
Defined.

(** * The Cabo countdown *)

Lemma table_sum_cardScore (cs : list Card) :
  foldr Z.add 0%Z (cardScore <$> cs) = table_sum cs.
Proof.
  induction cs as [|c cs IH]; [reflexivity|].
  csimpl. now rewrite cardScore_table, IH.
Qed.

(** When no hand holds an explicit [undefined] the scoring loop goes
    through, and every score is the sum of the value table over the
    cards of the hand. *)
Lemma score_all_ok (ps : list Player) :
  existsb has_undefined (cards <$> ps) = false ->
  (score_all ps).2 = true /\
  Forall (fun p => calculateScore (cards p) = Some (score p) /\
                   score p = table_sum (cards_in (cards p)))
    (score_all ps).1.
Proof.
  induction ps as [|p ps IH]; csimpl; intros H.
  - split; [reflexivity|constructor].
  - apply orb_false_iff in H as [Hp Hps].
    assert (calculateScore (cards p)
            = Some (table_sum (cards_in (cards p)))) as Hs.
    { unfold calculateScore. rewrite calculateScore_from_slots, Hp.
      now rewrite table_sum_cardScore. }
    rewrite Hs. destruct (IH Hps) as [Hok Hall].
    destruct (score_all ps) as [ps' ok]. simpl in *.
    split; [exact Hok|]. constructor; [|exact Hall]. now split.
Qed.

Lemma unscorable_Exists (g : Game) :
  unscorable g = true ->
  Exists (fun p => has_undefined (cards p) = true) (players g).
Proof.
  unfold unscorable, hands.
  induction (players g) as [|p ps IH]; csimpl; intros H; [discriminate|].
  apply orb_true_iff in H as [H|H].
  - now apply Exists_cons_hd.
  - now apply Exists_cons_tl, IH.
Qed.

Lemma end_of_turn_counts mk x :
  truthy (caboCallerId x) = true ->
  turnsAfterCabo (end_of_turn mk x).1 = turnsAfterCabo x + 1.
Proof.
  intros Hc. unfold end_of_turn. rewrite Hc. case_bool_decide.
  - destruct (score_all _) as [ps [|]]; [|reflexivity].
    now rewrite advance_turnsAfterCabo.
  - now rewrite advance_turnsAfterCabo.
Qed.

(** The end of a turn of a playing game in which Cabo has been called:
    below the number of players the countdown passes the turn to the
    next seat; from there on the players are scored and the game is
    finished, unless a hand cannot be scored. *)
Lemma end_of_turn_countdown mk x :
  truthy (caboCallerId x) = true ->
  state x = playing ->
  let g' := (end_of_turn mk x).1 in
  hands g' = hands x /\
  if bool_decide (turnsAfterCabo x + 1 < length (players x)) then
    state g' = playing /\
    currentTurn g' = (currentTurn x + 1) mod length (players x) /\
    currentPlayerId g' =
      id <$> players x !! ((currentTurn x + 1) mod length (players x))
  else if unscorable x then
    state g' = playing /\ (end_of_turn mk x).2 = Thrown
  else state g' = finished /\ scored_by_table g'.
Proof.
  intros Hc Hs. cbn zeta.
  split; [apply end_of_turn_same_table|].
  unfold end_of_turn. rewrite Hc.
  cbn [players turnsAfterCabo set_turnsAfterCabo].
  destruct (decide (turnsAfterCabo x + 1 < length (players x))) as [Hlt|Hge].
  - rewrite (bool_decide_eq_true_2 _ Hlt).
    rewrite bool_decide_eq_false_2 by lia.
    unfold advance. cbn [state set_turnsAfterCabo].
    rewrite (bool_decide_eq_true_2 _ Hs).
    unfold nextTurn.
    cbn [players currentTurn set_currentTurn set_turnsAfterCabo].
    destruct (lookup_lt_is_Some_2 (players x)
                ((currentTurn x + 1) mod length (players x))) as [p Hp].
    { apply Nat.mod_upper_bound. lia. }
    rewrite Hp. cbn. now repeat split.
  - rewrite (bool_decide_eq_false_2 _ Hge).
    rewrite bool_decide_eq_true_2 by lia.
    destruct (unscorable x) eqn:Hu.
    + pose proof (score_all_raises (players x) (unscorable_Exists x Hu))
        as Hr.
      destruct (score_all (players x)) as [ps ok]. simpl in Hr. subst ok.
      now split.
    + destruct (score_all_ok (players x) Hu) as [Hok Hall].
      destruct (score_all (players x)) as [ps ok]. simpl in Hok, Hall.
      subst ok. unfold advance. cbn [state set_state].
      rewrite bool_decide_eq_false_2 by discriminate.
      now split.
Qed.

(** An accepted resolve step is the end of a turn on the game in which
    the held card has been put down. *)
Lemma resolve_accepted_play (m : Request) (g : Game) :
  resolve_accepted m g = true ->
  exists mk x,
    play m g = end_of_turn mk x /\
    caboCallerId x = caboCallerId g /\
    turnsAfterCabo x = turnsAfterCabo g /\
    state x = state g /\ currentTurn x = currentTurn g /\
    badges x = badges g.
Proof.
  destruct m; simpl; try discriminate; intros H.
  - apply andb_true_iff in H as [H H3]. apply andb_true_iff in H as [H1 H2].
    unfold replace_card. rewrite H1, H2. cbn [negb orb].
    apply bool_decide_eq_true in H3 as [[k p] Hf]. rewrite Hf.
    eexists _, _. split; [reflexivity|]. repeat split.
    unfold badges. cbn.
    apply (badge_alter (fun q => array_set (cards q) cardIndex (drawnCard g))).
  - apply andb_true_iff in H as [H1 H2].
    unfold discard_drawn. rewrite H1, H2. cbn [negb orb].
    eexists _, _. split; [reflexivity|]. now repeat split.
Qed.

(** Once Cabo has been called, a play request that is not an accepted
    resolve step leaves the countdown where it is. *)
Lemma play_not_accepted (m : Request) (g : Game) :
  truthy (caboCallerId g) = true ->
  resolve_accepted m g = false ->
  turnsAfterCabo (play m g).1 = turnsAfterCabo g.
Proof.
  intros Hc H. destruct m; cbn [play]; try reflexivity.
  - unfold draw_card. destruct (negb _); [reflexivity|].
    destruct (bool_decide _); [reflexivity|]. now destruct (pop (deck g)).
  - unfold take_discard. destruct (negb _); [reflexivity|].
    destruct (bool_decide _); [reflexivity|].
    now destruct (pop (discardPile g)).
  - simpl in H. unfold replace_card.
    destruct (bool_decide (currentPlayerId g = Some playerId));
      [|reflexivity].
    destruct (bool_decide (is_Some (drawnCard g))); [|reflexivity].
    cbn in H |- *. apply bool_decide_eq_false in H.
    destruct (find_player (players g) playerId) as [[k p]|];
      [|reflexivity].
    destruct H. now eexists.
  - simpl in H. unfold discard_drawn.
    destruct (bool_decide (currentPlayerId g = Some playerId));
      [|reflexivity].
    destruct (bool_decide (is_Some (drawnCard g))); [|reflexivity].
    discriminate.
  - unfold call_cabo. destruct (negb _); [reflexivity|]. now rewrite Hc.
  - unfold peek_own_card. now destruct (find_player _ _) as [[k p]|].
  - unfold peek_opponent_card. now destruct (find_player _ _) as [[k p]|].
  - unfold switch_cards.
    destruct (find_player _ playerId) as [[kp p]|]; [|reflexivity].
    now destruct (find_player _ opponentId) as [[ko o]|].
Qed.

(** One event of any kind on a registry where Cabo has been called in
    room [c]: the room keeps the caller, and the countdown goes up by
    one on an accepted resolve step and stays otherwise. *)
Lemma countdown_event (c : string) (S : Server) (e : Event) (g g' : Game) :
  games S !! c = Some g ->
  truthy (caboCallerId g) = true ->
  overwrites c e = false ->
  games (step S e) !! c = Some g' ->
  caboCallerId g' = caboCallerId g /\
  turnsAfterCabo g' =
    turnsAfterCabo g + (if accepted_resolve c S e then 1 else 0).
Proof.
  intros Hg Hc Ho Hg'. destruct e as [[r ws] m]. unfold step in Hg'.
  unfold accepted_resolve. rewrite Hg. cbn [fst snd] in *.
  destruct (decide (play_room m = Some c)) as [Hm|Hm].
  - rewrite (handle_play r ws m S c c Hm), Hg in Hg'.
    rewrite bool_decide_eq_true_2 in Hg' by reflexivity.
    injection Hg' as <-.
    rewrite (bool_decide_eq_true_2 _ Hm). cbn [andb].
    split; [now apply play_cabo|].
    destruct (resolve_accepted m g) eqn:Ha.
    + destruct (resolve_accepted_play m g Ha)
        as (mk & x & -> & Hcx & Htx & _).
      rewrite end_of_turn_counts by now rewrite Hcx.
      now rewrite Htx.
    + rewrite play_not_accepted by assumption. lia.
  - rewrite (bool_decide_eq_false_2 _ Hm). cbn [andb].
    rewrite Nat.add_0_r.
    apply handle_lookup in Hg'
      as [Hg'|[(pn & pid & -> & Hr & _)|(g1 & Hg1 & Hcase)]].
    + assert (g' = g) as -> by congruence. now split.
    + unfold overwrites in Ho. cbn in Ho.
      now rewrite (bool_decide_eq_true_2 _ Hr) in Ho.
    + assert (g1 = g) as -> by congruence.
      destruct Hcase
        as [(pn & pid & _ & ->)|[[_ ->]|[[Hp _]|(pid & _ & _ & ->)]]].
      * apply join_game_cabo.
      * apply start_game_cabo.
      * contradiction.
      * apply handoff_cabo.
Qed.

(** A run of events of any kind along which the room stays the same
    session: the countdown has gone up by the number of accepted
    resolve steps. *)
Lemma countdown_run (c : string) (es : list Event) (S : Server) (g : Game) :
  games S !! c = Some g ->
  truthy (caboCallerId g) = true ->
  room_kept c S es = true ->
  exists g1,
    games (run S es) !! c = Some g1 /\
    caboCallerId g1 = caboCallerId g /\
    turnsAfterCabo g1 = turnsAfterCabo g + count_accepted c S es.
Proof.
  revert S g. induction es as [|e es IH]; intros S g Hg Hc Hk.
  - exists g. simpl. split; [exact Hg|]. split; [reflexivity|lia].
  - simpl in Hk. apply andb_true_iff in Hk as [Hk Hrest].
    apply andb_true_iff in Hk as [Ho Hsome].
    apply negb_true_iff in Ho.
    apply bool_decide_eq_true in Hsome as [g' Hg'].
    destruct (countdown_event c S e g g' Hg Hc Ho Hg') as [Hc' Ht'].
    destruct (IH (step S e) g' Hg') as (g1 & Hg1 & Hc1 & Ht1);
      [now rewrite Hc'|exact Hrest|].
    exists g1. simpl. split; [exact Hg1|]. split; [congruence|].
    rewrite Ht1, Ht'. lia.
Qed.

Lemma call_cabo_called (caller : string) (g0 : Game) :
  currentPlayerId g0 = Some caller ->
  truthy (caboCallerId g0) = false ->
  caboCallerId (call_cabo caller g0).1 = Some caller /\
  turnsAfterCabo (call_cabo caller g0).1 = 0.
Proof.
  intros H1 H2. unfold call_cabo. rewrite H1.
  rewrite bool_decide_eq_true_2 by reflexivity. cbn [negb]. rewrite H2.
  cbn [players set_turnsAfterCabo set_caboCallerId].
  now destruct (find_player (players g0) caller) as [[k p]|].
Qed.

(** What a play request has the server send. *)
Lemma handle_play_out r ws m S c g :
  play_room m = Some c ->
  games S !! c = Some g ->
  (handle r ws m S).2 = emit (clients S) ws c (play m g).2.
Proof.
  intros Hm Hg.
  destruct m; simpl in Hm; try discriminate; injection Hm as ->;
    cbn [handle play]; unfold with_game; rewrite Hg;
    match goal with |- (let '(_, _) := ?b in _).2 = _ => now destruct b end.
Qed.

(** C1, counterexample.  Three sessions in the Playing state in which a
    CALL_CABO has passed its guards.
    - Ann's hand holds an explicit [undefined]; she calls Cabo, and Ann
      and Bob each draw and discard.  Bob's discard is accepted and is
      the second resolve step of two players: the countdown is 2 and
      the session is still playing, with Bob to move.
    - Ann, Bob and Cat play; Ann's connection closes and Cat, at turn
      index 2, calls Cabo.  Cat draws and discards: the turn index
      becomes 1, which is Cat's seat now, and Cat moves again.  Her
      second discard finishes the round: Bob has had no turn.
    - A player whose id is the empty string calls Cabo; the call is not
      rejected and [caboCallerId] is set, to the empty string.  After
      both players have drawn and discarded the countdown is still 0
      and the session is playing. *)
Lemma cabo_countdown_can_fail :
  (countdown_view demo_undefined
   = Some (playing, Some "p1", 1, ["p1"; "p2"], 1, Some "p2") /\
   accepted_resolve room (run emptyServer demo_undefined)
     (demo_random, 2, DISCARD_DRAWN room "p2") = true /\
   countdown_view
     (demo_undefined ++ [(demo_random, 2, DISCARD_DRAWN room "p2")])
   = Some (playing, Some "p1", 2, ["p1"; "p2"], 1, Some "p2")) /\
  (countdown_view demo_three
   = Some (playing, Some "p3", 0, ["p2"; "p3"], 2, Some "p3") /\
   countdown_view (demo_three ++ demo_turn 3 "p3")
   = Some (playing, Some "p3", 1, ["p2"; "p3"], 1, Some "p3") /\
   countdown_view (demo_three ++ demo_turn 3 "p3" ++ demo_turn 3 "p3")
   = Some (finished, Some "p3", 2, ["p2"; "p3"], 1, Some "p3")) /\
  (countdown_view demo_no_id_started
   = Some (playing, None, 0, [""; "p2"], 0, Some "") /\
   rejected (handle demo_random 1 (CALL_CABO room "")
               (run emptyServer demo_no_id_started)).2 = false /\
   countdown_view demo_no_id
   = Some (playing, Some "", 0, [""; "p2"], 0, Some "") /\
   countdown_view (demo_no_id ++ demo_turn 1 "" ++ demo_turn 2 "p2")
   = Some (playing, Some "", 0, [""; "p2"], 0, Some "")).
Proof. vm_compute. repeat split. Qed.

(** C1, as the code has it.  Let a CALL_CABO with a player id that is
    not the empty string pass its guards in room [c], and let the
    server then handle any run of events, of any kind and to any room,
    along which room [c] stays the same session (no CREATE_GAME draws
    its code and its last player does not leave).  The room keeps the
    caller and its [turnsAfterCabo], 0 after the call, is the number of
    resolve steps the server has accepted for the room since.  An
    accepted resolve step on the playing room adds one to it, [j + 1]
    say, and with [n] the number of players at that step:
    - if [j + 1 < n] the room stays playing, the turn index [t] becomes
      [(t + 1) mod n], and the player to move is the one seated there;
    - otherwise, if no hand holds an explicit [undefined], the room is
      finished and every player's score is the score of the hand, the
      sum of the value table over its cards;
    - otherwise the scoring raises: the room stays playing and nobody
      is sent anything. *)
Theorem cabo_countdown_ends_round
  (S : Server) (c caller : string) (g0 : Game) (r0 : Random) (ws0 : Conn)
  (es : list Event) (r : Random) (ws : Conn) (m : Request) :
  games S !! c = Some g0 ->
  currentPlayerId g0 = Some caller ->
  truthy (caboCallerId g0) = false ->
  caller <> "" ->
  room_kept c S ((r0, ws0, CALL_CABO c caller) :: es) = true ->
  state <$> games (run S ((r0, ws0, CALL_CABO c caller) :: es)) !! c
  = Some playing ->
  accepted_resolve c (run S ((r0, ws0, CALL_CABO c caller) :: es))
    (r, ws, m) = true ->
  exists g g1 g2,
    games (run S [(r0, ws0, CALL_CABO c caller)]) !! c = Some g /\
    games (run S ((r0, ws0, CALL_CABO c caller) :: es)) !! c = Some g1 /\
    games (run S ((r0, ws0, CALL_CABO c caller) :: es ++ [(r, ws, m)])) !! c
    = Some g2 /\
    (caboCallerId g = Some caller /\ turnsAfterCabo g = 0) /\
    (caboCallerId g1 = Some caller /\
     turnsAfterCabo g1
     = count_accepted c S ((r0, ws0, CALL_CABO c caller) :: es)) /\
    (caboCallerId g2 = Some caller /\
     turnsAfterCabo g2 = turnsAfterCabo g1 + 1 /\
     badges g2 = badges g1) /\
    if bool_decide (turnsAfterCabo g1 + 1 < length (players g1)) then
      state g2 = playing /\
      currentTurn g2 = (currentTurn g1 + 1) mod length (players g1) /\
      currentPlayerId g2 =
        id <$> players g1 !! ((currentTurn g1 + 1) mod length (players g1))
    else if unscorable g2 then
      state g2 = playing /\
      (handle r ws m (run S ((r0, ws0, CALL_CABO c caller) :: es))).2 = []
    else state g2 = finished /\ scored_by_table g2.
Proof.
  intros Hg0 Hcur Hnot Hne Hkept Hplaying Hacc.
  change (run S ((r0, ws0, CALL_CABO c caller) :: es ++ [(r, ws, m)]))
    with (run (step S (r0, ws0, CALL_CABO c caller)) (es ++ [(r, ws, m)])).
  change (run S ((r0, ws0, CALL_CABO c caller) :: es))
    with (run (step S (r0, ws0, CALL_CABO c caller)) es) in *.
  change (run S [(r0, ws0, CALL_CABO c caller)])
    with (step S (r0, ws0, CALL_CABO c caller)).
  assert (count_accepted c S ((r0, ws0, CALL_CABO c caller) :: es)
          = count_accepted c (step S (r0, ws0, CALL_CABO c caller)) es)
    as ->.
  { cbn [count_accepted]. unfold accepted_resolve at 1. rewrite Hg0.
    cbn. now rewrite andb_false_r. }
  cbn [room_kept] in Hkept. apply andb_true_iff in Hkept as [_ Hkept].
  assert (games (step S (r0, ws0, CALL_CABO c caller)) !! c
          = Some (call_cabo caller g0).1) as Hg.
  { unfold step. cbn [fst snd handle]. now apply with_game_changed. }
  destruct (call_cabo_called caller g0 Hcur Hnot) as [Hc Ht].
  set (S0 := step S (r0, ws0, CALL_CABO c caller)) in *.
  set (g := (call_cabo caller g0).1) in *.
  assert (truthy (Some caller) = true) as Htruthy.
  { cbn. now rewrite bool_decide_eq_false_2. }
  destruct (countdown_run c es S0 g Hg) as (g1 & Hg1 & Hc1 & Ht1);
    [now rewrite Hc|exact Hkept|].
  rewrite Hc in Hc1. rewrite Ht in Ht1. cbn in Ht1.
  rewrite Hg1 in Hplaying. injection Hplaying as Hs1.
  unfold accepted_resolve in Hacc. rewrite Hg1 in Hacc. cbn [snd] in Hacc.
  apply andb_true_iff in Hacc as [Hm Hacc].
  apply bool_decide_eq_true in Hm.
  assert (games (run S0 (es ++ [(r, ws, m)])) !! c = Some (play m g1).1)
    as Hg2.
  { unfold run. rewrite fold_left_app. cbn [fold_left]. unfold step at 1.
    cbn [fst snd]. fold (run S0 es).
    rewrite (handle_play r ws m _ c c Hm), Hg1.
    now rewrite bool_decide_eq_true_2. }
  exists g, g1, (play m g1).1.
  split; [exact Hg|]. split; [exact Hg1|]. split; [exact Hg2|].
  split; [now split|]. split; [now split|].
  destruct (play_same_seats m g1) as (Hb & _).
  pose proof (handle_play_out r ws m (run S0 es) c g1 Hm Hg1) as Hout.
  destruct (resolve_accepted_play m g1 Hacc)
    as (mk & x & Hplay & Hcx & Htx & Hsx & Hturn & Hbx).
  rewrite Hplay in *.
  assert (length (players x) = length (players g1)) as Hlen.
  { rewrite <- (length_fmap badge (players x)).
    unfold badges in Hbx. rewrite Hbx. apply length_fmap. }
  assert (truthy (caboCallerId x) = true) as Hcx' by now rewrite Hcx, Hc1.
  destruct (end_of_turn_same_table mk x) as (_ & _ & _ & _ & Hcc).
  pose proof (end_of_turn_counts mk x Hcx') as Hcount.
  destruct (end_of_turn_countdown mk x Hcx') as [Hh Hcases];
    [now rewrite Hsx|].
  split.
  { split; [now rewrite Hcc, Hcx|]. split; [now rewrite Hcount, Htx|].
    exact Hb. }
  rewrite Htx, Hlen, Hturn in Hcases.
  rewrite (lookup_ids g1 x _ Hbx) in Hcases.
  replace (unscorable x) with (unscorable (end_of_turn mk x).1) in Hcases
    by (unfold unscorable; now rewrite Hh).
  case_bool_decide; [exact Hcases|].
  destruct (unscorable (end_of_turn mk x).1); [|exact Hcases].
  destruct Hcases as [Hs Ho]. split; [exact Hs|].
  rewrite Hout, Ho. reflexivity.
Qed.

(** C1, witness: in the example room Ann calls Cabo, draws and
    discards; Cat opens another room; Bob draws, and his discard is the
    second resolve step of the two players. *)
Lemma cabo_countdown_ends_round_witness :
  let S := run emptyServer demo_started in
  let call : Event := (demo_random, 1, CALL_CABO room "p1") in
  let es : list Event :=
    demo_turn 1 "p1"
    ++ [ (mkRandom "OTHER1" (fun i => i), 3, CREATE_GAME "cat" "p3");
         (demo_random, 2, DRAW_CARD room "p2") ] in
  let m := DISCARD_DRAWN room "p2" in
  exists g g1 g2,
    games (run S [call]) !! room = Some g /\
    games (run S (call :: es)) !! room = Some g1 /\
    games (run S (call :: es ++ [(demo_random, 2, m)])) !! room = Some g2 /\
    (caboCallerId g = Some "p1" /\ turnsAfterCabo g = 0) /\
    (caboCallerId g1 = Some "p1" /\
     turnsAfterCabo g1 = count_accepted room S (call :: es)) /\
    (caboCallerId g2 = Some "p1" /\
     turnsAfterCabo g2 = turnsAfterCabo g1 + 1 /\
     badges g2 = badges g1) /\
    if bool_decide (turnsAfterCabo g1 + 1 < length (players g1)) then
      state g2 = playing /\
      currentTurn g2 = (currentTurn g1 + 1) mod length (players g1) /\
      currentPlayerId g2 =
        id <$> players g1 !! ((currentTurn g1 + 1) mod length (players g1))
    else if unscorable g2 then
      state g2 = playing /\
      (handle demo_random 2 m (run S (call :: es))).2 = []
    else state g2 = finished /\ scored_by_table g2.
Proof.
  intros S call es m.
  apply (cabo_countdown_ends_round S room "p1" (demo_game demo_started)
           demo_random 1 es demo_random 2 m).
  - vm_compute. reflexivity.
  - vm_compute. reflexivity.
  - vm_compute. reflexivity.
  - discriminate.
  - vm_compute. reflexivity.
  - vm_compute. reflexivity.
  - vm_compute. reflexivity.
Defined.
